(** * Variational solvers of [prml/approximate_inference.py]

    A shallow embedding of the three mean-field solvers

      - [VariationalGauss1D]            (module [Gauss1D]),
      - [VariationalGaussianMixture]    (module [Mixture]),
      - [VariationalLogisticRegression] (module [Logistic]),

    and the properties of their update loops.

    Numbers.  Python floats and numpy [float64] values are embedded as real
    numbers: arithmetic is exact.  A division whose divisor is zero has no
    real result; the program then raises [ZeroDivisionError] (Python floats)
    or goes on with [inf]/[nan] (numpy).  Both are rendered by the exception
    [ZeroDivisionError] of the embedding, which ends the modelled run; a
    power with no real value ([nan] in numpy) is rendered by
    [FloatingPointError] in the same way.  So a modelled run that returns
    is a run of the program in which no division has a zero divisor; where
    numpy would go on with [nan] there is no modelled run that returns, and
    a statement about the runs that return says nothing of such a run.
    Rounding is not modelled either: a statement proved here is one of
    exact arithmetic, and module [Gauss1D64] carries one pass of the 1-D
    solver in binary64 to show where the two part.

    Arrays.  A 1-D array is a [list R], a 2-D array a list of rows, a stack
    of matrices a list of 2-D arrays.  Operands are taken to have the shapes
    the source expects ([X] is N x D, [E_z] is N x K, the prior [alpha] has
    K entries): what numpy does with other shapes, broadcasting them or
    raising its own errors, is not modelled, and an elementwise operation
    on two lists stops at the shorter one.

    Effects.  A method that mutates [self] is a function from the object to
    the object after the call together with the outcome of the call; a raised
    exception leaves the object as it was when the exception was raised. *)

From Stdlib Require Import Reals Lra Lia String Bool Arith List.
From Stdlib Require PrimFloat.
Import ListNotations.
Open Scope R_scope.

(** ** Exceptions and the error monad *)

Inductive exn : Type :=
| ValueError (msg : string)
| UnboundLocalError (name : string)
| ZeroDivisionError
| FloatingPointError
| LinAlgError
| IndexError
| TypeError
| AttributeError (name : string).

(** The exceptions the solvers raise themselves are all [ValueError]s. *)
Definition is_value_error (e : exn) : Prop :=
  match e with
  | ValueError _ => True
  | _ => False
  end.

(** The three dimension errors of the solvers. *)
Definition m_mismatch : exn :=
  ValueError "X.shape[1] should be equal to m.shape[0]".
Definition W_mismatch : exn :=
  ValueError "X.shape[1] should be equal to W.shape[0]".
Definition init_xi_mismatch : exn :=
  ValueError "init_xi.shape[0] should be equal to X.shape[0]".

Inductive outcome (A : Type) : Type :=
| Ok (a : A)
| Raise (e : exn).

Arguments Ok {A} a.
Arguments Raise {A} e.

Definition bind {A B : Type} (c : outcome A) (k : A -> outcome B) : outcome B :=
  match c with
  | Ok a => k a
  | Raise e => Raise e
  end.

Notation "x <- c ;; k" := (bind c (fun x => k))
  (at level 61, c at next level, right associativity).
Notation "' p <- c ;; k" := (bind c (fun p => k))
  (at level 61, p pattern, c at next level, right associativity).

Fixpoint mapM {A B : Type} (f : A -> outcome B) (l : list A) : outcome (list B) :=
  match l with
  | [] => Ok []
  | x :: t => y <- f x ;; ys <- mapM f t ;; Ok (y :: ys)
  end.

(** [a / b] on floats. *)
Definition div (a b : R) : outcome R :=
  if Req_dec_T b 0 then Raise ZeroDivisionError else Ok (a / b).

(** [x ** y] on floats. *)
Definition power (x y : R) : outcome R :=
  if Rlt_dec 0 x then Ok (Rpower x y)
  else if Req_dec_T x 0 then
    if Rlt_dec 0 y then Ok 0
    else if Req_dec_T y 0 then Ok 1
    else Raise ZeroDivisionError
  else if Req_dec_T y (IZR (Int_part y)) then Ok (powerRZ x (Int_part y))
  else Raise FloatingPointError.

(** [v.sum()] of a 1-D array. *)
Definition sum (v : list R) : R := fold_right Rplus 0 v.

(** ** VariationalGauss1D *)

Module Gauss1D.

(** The attributes of a [VariationalGauss1D] object. *)
Record VariationalGauss1D : Type := mkSolver {
  a : R;
  b : R;
  mu : R;
  lamda : R;
  max_iter : nat;
  threshold : R
}.

(** The local variables of [fit] that live across iterations.  [a_N] and
    [b_N] are bound by the first pass through the loop body only. *)
Record frame : Type := mkFrame {
  E_tau : R;
  mu_N : R;
  lam_N : R;
  a_N : option R;
  b_N : option R
}.

Inductive loop_exit : Type := Broke | Exhausted.

Section Fit.

Variable self : VariationalGauss1D.
Variables N X_sum X2_sum : R.

(** One pass through the body of the [for] loop; the boolean tells whether
    the pass ended in [break]. *)
Definition body (f : frame) : outcome (bool * frame) :=
  let E_mu := mu_N f in
  q <- div 1 ((lam_N f + N) * E_tau f) ;;
  let E_mu2 := mu_N f ^ 2 + q in
  let a_N' := a self + (N + 1) / 2 in
  let b_N' := b self + 0.5 * (X2_sum - 2 * E_mu * X_sum + N * E_mu2
                + lamda self * (E_mu2 - 2 * E_mu * mu self + mu self ^ 2)) in
  E_tau' <- div a_N' b_N' ;;
  new_mu_N <- div (lamda self * mu self + X_sum) (lamda self + N) ;;
  let new_lam_N := (lamda self + N) * E_tau' in
  let f' := mkFrame E_tau' new_mu_N new_lam_N (Some a_N') (Some b_N') in
  change <- power ((new_lam_N - lam_N f) ^ 2 + (new_mu_N - mu_N f) ^ 2) 0.5 ;;
  if Rlt_dec change (threshold self)
  then Ok (true, f')
  else Ok (false, f').

(** [for _ in range(n): ...] started in frame [f]. *)
Fixpoint loop (n : nat) (f : frame) : outcome (loop_exit * frame) :=
  match n with
  | O => Ok (Exhausted, f)
  | S n' =>
      '(brk, f') <- body f ;;
      if (brk : bool) then Ok (Broke, f') else loop n' f'
  end.

End Fit.

Definition set_mu_lamda (self : VariationalGauss1D) (m l : R) :=
  mkSolver (a self) (b self) m l (max_iter self) (threshold self).
Definition set_a (self : VariationalGauss1D) (v : R) :=
  mkSolver v (b self) (mu self) (lamda self) (max_iter self) (threshold self).
Definition set_b (self : VariationalGauss1D) (v : R) :=
  mkSolver (a self) v (mu self) (lamda self) (max_iter self) (threshold self).

(** The four assignments that end [fit]. *)
Definition store (self : VariationalGauss1D) (f : frame)
  : VariationalGauss1D * outcome unit :=
  let self1 := set_mu_lamda self (mu_N f) (lam_N f) in
  match a_N f with
  | None => (self1, Raise (UnboundLocalError "a_N"))
  | Some aN =>
      let self2 := set_a self1 aN in
      match b_N f with
      | None => (self2, Raise (UnboundLocalError "b_N"))
      | Some bN => (set_b self2 bN, Ok tt)
      end
  end.

(** The statements of [fit] up to the loop, and the loop over [range(n)]. *)
Definition passes (n : nat) (self : VariationalGauss1D) (X : list R)
    (init_tau : R) : outcome (loop_exit * frame) :=
  let N := INR (length X) in
  let X_sum := sum X in
  let X2_sum := sum (map (fun x => x ^ 2) X) in
  let E_tau0 := init_tau in
  mu_N0 <- div (lamda self * mu self + X_sum) (lamda self + N) ;;
  let lam_N0 := (lamda self + N) * E_tau0 in
  loop self N X_sum X2_sum n (mkFrame E_tau0 mu_N0 lam_N0 None None).

(** The statements of [fit] up to the end of the loop. *)
Definition run (self : VariationalGauss1D) (X : list R) (init_tau : R)
  : outcome (loop_exit * frame) :=
  passes (max_iter self) self X init_tau.

(** [VariationalGauss1D.fit]: the object after the call and how the call
    ended. *)
Definition fit (self : VariationalGauss1D) (X : list R) (init_tau : R)
  : VariationalGauss1D * outcome unit :=
  match run self X init_tau with
  | Raise e => (self, Raise e)
  | Ok (_, f) => store self f
  end.

(** What holds of the frame between two passes under a proper prior. *)
Definition positive (f : frame) : Prop := 0 < E_tau f /\ 0 < lam_N f.

(** What holds of the frame once the body has run on the data [X]. *)
Definition updated (self : VariationalGauss1D) (X : list R) (f : frame)
  : Prop :=
  a_N f = Some (a self + (INR (length X) + 1) / 2)
  /\ (exists bN, b_N f = Some bN /\ 0 < bN)
  /\ mu_N f = (lamda self * mu self + sum X) / (lamda self + INR (length X))
  /\ 0 < lam_N f.

(** What a pass that returns has put in the frame: the closed forms of
    [a_N] and [mu_N], and [lam_N = (lamda + N) * a_N / b_N]. *)
Definition pass_result (self : VariationalGauss1D) (N X_sum : R)
    (f' : frame) : Prop :=
  a_N f' = Some (a self + (N + 1) / 2)
  /\ mu_N f' = (lamda self * mu self + X_sum) / (lamda self + N)
  /\ exists bN, b_N f' = Some bN /\ bN <> 0
                /\ lam_N f' * bN = (lamda self + N) * (a self + (N + 1) / 2).

End Gauss1D.

(** ** VariationalGauss1D in binary64 *)

Module Gauss1D64.
Import PrimFloat.
Local Open Scope float_scope.

(** Lines 57 to 68 of [fit] on the first pass of its loop, every operation
    rounded as binary64 rounds it.  [N], [X_sum] and [X2_sum] are the
    values of lines 53 to 55; [x**2] is taken as [x*x].  The result is
    [a_N], [b_N] and [new_lam_N]. *)
Definition first_pass (a b mu lamda N X_sum X2_sum init_tau : float)
  : float * float * float :=
  let E_tau := init_tau in
  let mu_N := (lamda * mu + X_sum) / (lamda + N) in
  let lam_N := (lamda + N) * E_tau in
  let E_mu := mu_N in
  let E_mu2 := mu_N * mu_N + 1 / ((lam_N + N) * E_tau) in
  let a_N := a + (N + 1) / 2 in
  let b_N := b + 0.5 * (X2_sum - 2 * E_mu * X_sum + N * E_mu2
                        + lamda * (E_mu2 - 2 * E_mu * mu + mu * mu)) in
  let E_tau' := a_N / b_N in
  let new_lam_N := (lamda + N) * E_tau' in
  (a_N, b_N, new_lam_N).

End Gauss1D64.

(** ** Arrays *)

Definition vector : Type := list R.
Definition matrix : Type := list (list R).

Fixpoint zipWith {A B C : Type} (f : A -> B -> C) (u : list A) (v : list B)
  : list C :=
  match u, v with
  | x :: u', y :: v' => f x y :: zipWith f u' v'
  | _, _ => []
  end.

(** [X.shape[0]] and [X.shape[1]] of a 2-D array.  An array with no rows
    carries no column count in this representation; it is read as 0. *)
Definition shape0 (X : matrix) : nat := length X.
Definition shape1 (X : matrix) : nat :=
  match X with
  | [] => O
  | row :: _ => length row
  end.

Definition zeros (n : nat) : vector := repeat 0 n.
Definition eye (n : nat) : matrix :=
  map (fun i => map (fun j => if Nat.eqb i j then 1 else 0) (seq 0 n)) (seq 0 n).

Definition vadd (u v : vector) : vector := zipWith Rplus u v.
Definition vsub (u v : vector) : vector := zipWith Rminus u v.
Definition vscale (c : R) (v : vector) : vector := map (Rmult c) v.
Definition dot (u v : vector) : R := sum (zipWith Rmult u v).
Definition madd (A B : matrix) : matrix := zipWith vadd A B.
Definition mscale (c : R) (A : matrix) : matrix := map (vscale c) A.
Definition outer (u v : vector) : matrix :=
  map (fun ui => map (fun vj => ui * vj) v) u.
Definition mat_vec (A : matrix) (v : vector) : vector :=
  map (fun row => dot row v) A.
(** [v @ A @ v] for a row [v] and its column. *)
Definition quad (v : vector) (A : matrix) : R := dot v (mat_vec A v).
Definition trace (A : matrix) : R :=
  sum (map (fun i => nth i (nth i A []) 0) (seq 0 (length A))).
(** [A.T] of an array with [ncol] columns. *)
Definition transpose (ncol : nat) (A : matrix) : matrix :=
  map (fun k => map (fun row => nth k row 0) A) (seq 0 ncol).

(** [sum_n w[n] * X[n]] for rows of [ncol] entries: a row of [E.T @ X]
    when [w] is a column of [E]. *)
Definition weighted_sum (ncol : nat) (w : vector) (X : matrix) : vector :=
  fold_right vadd (zeros ncol) (zipWith vscale w X).

(** [sum_n w[n] * (X[n] - c)(X[n] - c)^T]. *)
Definition scatter (ncol : nat) (w : vector) (X : matrix) (c : vector)
  : matrix :=
  fold_right madd (repeat (zeros ncol) ncol)
    (zipWith (fun wn x => let t := vsub x c in mscale wn (outer t t)) w X).

(** [(w * X.T) @ X]. *)
Definition gram (ncol : nat) (w : vector) (X : matrix) : matrix :=
  fold_right madd (repeat (zeros ncol) ncol)
    (zipWith (fun wn x => mscale wn (outer x x)) w X).

(** [arr[i]]. *)
Definition index {A : Type} (arr : list A) (i : nat) : outcome A :=
  match nth_error arr i with
  | Some x => Ok x
  | None => Raise IndexError
  end.

(** [v / d] and [A / d] for a scalar [d]. *)
Definition vdiv (v : vector) (d : R) : outcome vector :=
  mapM (fun c => div c d) v.
Definition mdiv (A : matrix) (d : R) : outcome matrix :=
  mapM (fun row => vdiv row d) A.

(** [E /= E.sum(axis = 1, keepdims=True)]. *)
Definition normalize_rows (E : matrix) : outcome matrix :=
  mapM (fun row => vdiv row (sum row)) E.

(** A row of responsibilities is normalized when it sums to 1 with entries
    in [0, 1]. *)
Definition normalized (row : vector) : Prop :=
  sum row = 1 /\ Forall (fun c => 0 <= c <= 1) row.

(** [arr[mask]] for a boolean mask. *)
Definition select {A : Type} (mask : list bool) (arr : list A) : list A :=
  map snd (filter fst (combine mask arr)).

(** [mask.astype("int").sum()]. *)
Definition count_true (mask : list bool) : nat :=
  length (filter (fun t => t) mask).

(** [np.linalg.inv] and [np.linalg.det] on the 1 x 1 matrices, for runs on
    data of dimension [D = 1]. *)
Definition inv1 (A : matrix) : outcome matrix :=
  match A with
  | [[x]] => if Req_dec_T x 0 then Raise LinAlgError else Ok [[1 / x]]
  | _ => Raise LinAlgError
  end.
Definition det1 (A : matrix) : R :=
  match A with
  | [[x]] => x
  | _ => 0
  end.

(** Stand-ins for [scipy.special.psi] and [prml.utils.util._log] on the
    concrete runs below: the leading terms of the expansion of [psi], and
    the natural logarithm.  Every general statement is for arbitrary
    functions in their place. *)
Definition psi_leading (x : R) : R := ln x - / (2 * x).
Definition natural_log (x : R) : R := ln x.

(** A stand-in for [math.gamma] on the concrete runs below: its values
    [Gamma(1/2) = sqrt(pi)] and [Gamma(1) = 1] at the arguments of a run in
    dimension 1 with one degree of freedom. *)
Definition gamma_half_or_one (x : R) : R :=
  if Req_dec_T x (1 / 2) then sqrt PI else 1.

(** ** VariationalGaussianMixture *)

Module Mixture.

(** The attributes of the object from its construction to the end of the
    loop of [fit].  [W_inv] and [r] do not exist before [fit] sets them. *)
Record VariationalGaussianMixture : Type := mkSolver {
  K : nat;
  alpha : vector;
  m : option vector;
  beta : R;
  W : option matrix;
  nu : R;
  n_iter : nat;
  W_inv : option matrix;
  r : option matrix
}.

(** [__init__], with [None] for an argument left out. *)
Definition init (K : nat) (alpha : option vector) (m : option vector)
    (beta : R) (W : option matrix) (nu : option R) (n_iter : nat)
  : VariationalGaussianMixture :=
  mkSolver K
    (match alpha with None => repeat 1 K | Some v => v end)
    m beta W
    (match nu with None => 1 | Some x => x end)
    n_iter None None.

(** The locals [alpha], [beta], [m_k], [W_k], [nu] of [fit]. *)
Module Local.
Record t : Type := mk {
  alpha : vector;
  beta : vector;
  m_k : matrix;
  W_k : list matrix;
  nu : vector
}.
End Local.

(** The attributes once [fit] has run to its end: [alpha], [beta] and [nu]
    now hold the arrays of the posterior. *)
Module Fitted.
Record t : Type := mk {
  K : nat;
  alpha : vector;
  beta : vector;
  m_k : matrix;
  W_k : list matrix;
  nu : vector;
  r : matrix;
  m : option vector;
  W : option matrix;
  W_inv : option matrix;
  n_iter : nat
}.
End Fitted.

Inductive fit_result : Type :=
| Completed (obj : Fitted.t)
| Failed (obj : VariationalGaussianMixture) (e : exn).

Definition set_m (self : VariationalGaussianMixture) (v : vector) :=
  mkSolver (K self) (alpha self) (Some v) (beta self) (W self) (nu self)
           (n_iter self) (W_inv self) (r self).
Definition set_W_inv (self : VariationalGaussianMixture) (A : matrix) :=
  mkSolver (K self) (alpha self) (m self) (beta self) (W self) (nu self)
           (n_iter self) (Some A) (r self).
Definition set_alpha_K (self : VariationalGaussianMixture) (v : vector)
    (k : nat) :=
  mkSolver k v (m self) (beta self) (W self) (nu self)
           (n_iter self) (W_inv self) (r self).
Definition set_r (self : VariationalGaussianMixture) (E : matrix) :=
  mkSolver (K self) (alpha self) (m self) (beta self) (W self) (nu self)
           (n_iter self) (W_inv self) (Some E).

Section Fit.

(** [np.linalg.inv], [np.linalg.det], [scipy.special.psi] and
    [prml.utils.util._log].  [inv] raises [LinAlgError] on a matrix it
    cannot invert. *)
Variable inv : matrix -> outcome matrix.
Variable det : matrix -> R.
Variable digamma : R -> R.
Variable _log : R -> R.

(** The statements of [fit] before the loop.  [rand] is the array drawn by
    [np.random.rand(N,self.K)]. *)
Definition prepare (self : VariationalGaussianMixture) (X : matrix)
    (initial_responsibility : option matrix) (rand : matrix)
  : VariationalGaussianMixture * outcome matrix :=
  let M := shape1 X in
  match
    match initial_responsibility with
    | None => normalize_rows (map (map (fun u => u + 0.10)) rand)
    | Some E => Ok E
    end
  with
  | Raise e => (self, Raise e)
  | Ok E_z =>
      match
        match m self with
        | None => Ok (set_m self (zeros M))
        | Some m0 =>
            if Nat.eqb (length m0) M then Ok self
            else Raise m_mismatch
        end
      with
      | Raise e => (self, Raise e)
      | Ok self1 =>
          match W self1 with
          | None => (set_W_inv self1 (eye M), Ok E_z)
          | Some W0 =>
              if Nat.eqb (length W0) M then
                match inv W0 with
                | Raise e => (self1, Raise e)
                | Ok Wi => (set_W_inv self1 Wi, Ok E_z)
                end
              else (self1, Raise W_mismatch)
          end
      end
  end.

Section Round.

Variable X : matrix.
Variables (reduce_components : bool) (threshold : R).

Let N : nat := shape0 X.
Let M : nat := shape1 X.

(** [self.m] and [self.W_inv] as the loop reads them: arithmetic on [None]
    is a [TypeError], a missing attribute an [AttributeError]. *)
Definition read_m (self : VariationalGaussianMixture) : outcome vector :=
  match m self with
  | Some m0 => Ok m0
  | None => Raise TypeError
  end.
Definition read_W_inv (self : VariationalGaussianMixture) : outcome matrix :=
  match W_inv self with
  | Some A => Ok A
  | None => Raise (AttributeError "W_inv")
  end.

(** The "M step like" block.  It reads [self] and [E_z], an array of
    [self.K] columns as the reshapes of lines 169 and 170 require, and binds
    [N_k] and the five locals. *)
Definition m_step (self : VariationalGaussianMixture) (E_z : matrix)
  : outcome (vector * Local.t) :=
  let E_zT := transpose (K self) E_z in
  let N_k := map sum E_zT in
  x_k_bar <- mapM (fun '(w, n) => vdiv (weighted_sum M w X) n)
                  (combine E_zT N_k) ;;
  S_k <- mapM (fun '(w, (c, n)) => mdiv (scatter M w X c) n)
              (combine E_zT (combine x_k_bar N_k)) ;;
  let alpha' := zipWith Rplus (alpha self) N_k in
  let beta' := map (fun n => beta self + n) N_k in
  m0 <- read_m self ;;
  m_k <- mapM (fun '(n, (c, b)) =>
                 vdiv (vadd (vscale (beta self) m0) (vscale n c)) b)
              (combine N_k (combine x_k_bar beta')) ;;
  let tmp := map (fun c => vsub c m0) x_k_bar in
  W_inv0 <- read_W_inv self ;;
  W_k <- mapM (fun '(n, (Sk, t)) =>
                 c <- div (beta self * n) (beta self + n) ;;
                 inv (madd (madd W_inv0 (mscale n Sk)) (mscale c (outer t t))))
              (combine N_k (combine S_k tmp)) ;;
  let nu' := map (fun n => nu self + n) N_k in
  Ok (N_k, Local.mk alpha' beta' m_k W_k nu').

(** [E_pi = (self.alpha + N_k)/(self.K*self.alpha + N)]. *)
Definition expected_pi (self : VariationalGaussianMixture) (N_k : vector)
  : outcome vector :=
  mapM (fun '(a, n) => div (a + n) (INR (K self) * a + INR N))
       (combine (alpha self) N_k).

(** [reduce = E_pi >= threshold]. *)
Definition keep_mask (E_pi : vector) : list bool :=
  map (fun e => if Rle_dec threshold e then true else false) E_pi.

(** The body of [if reduce_components:]. *)
Definition prune (self : VariationalGaussianMixture) (E_pi : vector)
    (l : Local.t) : VariationalGaussianMixture * Local.t :=
  let reduce := keep_mask E_pi in
  (set_alpha_K self (select reduce (alpha self)) (count_true reduce),
   Local.mk (select reduce (Local.alpha l)) (select reduce (Local.beta l))
            (select reduce (Local.m_k l)) (select reduce (Local.W_k l))
            (select reduce (Local.nu l))).

(** The unnormalized log-responsibility [pho[n, k]] of the sample [x]. *)
Definition pho_row (l : Local.t) (M_over_beta : vector) (x : vector)
  : vector :=
  let E_pi := map (fun a => digamma a - digamma (sum (Local.alpha l)))
                  (Local.alpha l) in
  let E_Lam :=
    zipWith (fun nu_k W =>
               sum (map (fun i => digamma (0.5 * (nu_k + 1 - INR i)))
                        (seq 1 M))
               + INR M * _log 2 + _log (det W))
            (Local.nu l) (Local.W_k l) in
  let E_inner_gauss :=
    zipWith (fun c '(nu_k, (m, W)) => c + nu_k * quad (vsub x m) W)
            M_over_beta
            (combine (Local.nu l) (combine (Local.m_k l) (Local.W_k l))) in
  zipWith (fun '(p, L) g => p + 0.5 * L - INR M / 2 * _log (2 * PI) - 0.5 * g)
          (combine E_pi E_Lam) E_inner_gauss.

(** The "E step like" block after the pruning: the new [E_z]. *)
Definition e_step (l : Local.t) : outcome matrix :=
  M_over_beta <- mapM (fun b => div (INR M) b) (Local.beta l) ;;
  let pho := map (pho_row l M_over_beta) X in
  let E_z := map (map exp) pho in
  normalize_rows E_z.

(** One pass through the body of the loop: the object after the pass, and
    the new [E_z] and locals.  [E_pi] of line 180 is used by the pruning
    only, and is computed there. *)
Definition round (self : VariationalGaussianMixture) (E_z : matrix)
  : VariationalGaussianMixture * outcome (matrix * Local.t) :=
  match m_step self E_z with
  | Raise e => (self, Raise e)
  | Ok (N_k, l) =>
      match
        if reduce_components
        then E_pi <- expected_pi self N_k ;; Ok (prune self E_pi l)
        else Ok (self, l)
      with
      | Raise e => (self, Raise e)
      | Ok (self', l') =>
          (self', E_z' <- e_step l' ;; Ok (E_z', l'))
      end
  end.

(** [for _ in range(n): ...]; the locals are unbound until a pass has
    run. *)
Fixpoint loop (n : nat) (self : VariationalGaussianMixture)
    (E_z : matrix) (l : option Local.t)
  : VariationalGaussianMixture * outcome (matrix * option Local.t) :=
  match n with
  | O => (self, Ok (E_z, l))
  | S n' =>
      match round self E_z with
      | (self', Raise e) => (self', Raise e)
      | (self', Ok (E_z', l')) => loop n' self' E_z' (Some l')
      end
  end.

End Round.

(** The six assignments that end [fit]. *)
Definition store (self : VariationalGaussianMixture) (E_z : matrix)
    (l : option Local.t) : fit_result :=
  let self1 := set_r self E_z in
  match l with
  | None => Failed self1 (UnboundLocalError "alpha")
  | Some l =>
      Completed
        (Fitted.mk (K self) (Local.alpha l) (Local.beta l) (Local.m_k l)
                   (Local.W_k l) (Local.nu l) E_z
                   (m self) (W self) (W_inv self) (n_iter self))
  end.

(** [VariationalGaussianMixture.fit]. *)
Definition fit (self : VariationalGaussianMixture) (X : matrix)
    (initial_responsibility : option matrix) (reduce_components : bool)
    (threshold : R) (rand : matrix) : fit_result :=
  match prepare self X initial_responsibility rand with
  | (self1, Raise e) => Failed self1 e
  | (self1, Ok E_z) =>
      match loop X reduce_components threshold (n_iter self1) self1
                 E_z None with
      | (self2, Raise e) => Failed self2 e
      | (self2, Ok (E_z', l)) => store self2 E_z' l
      end
  end.

End Fit.

(** The locals all have [k] entries. *)
Definition shaped (k : nat) (l : Local.t) : Prop :=
  length (Local.alpha l) = k /\ length (Local.beta l) = k
  /\ length (Local.m_k l) = k /\ length (Local.W_k l) = k
  /\ length (Local.nu l) = k.

(** Every row has [k] entries and is normalized as soon as [k >= 1]. *)
Definition responsibilities (k : nat) (E : matrix) : Prop :=
  Forall (fun row => length row = k /\ ((1 <= k)%nat -> normalized row)) E.

Section Density.

(** [math.gamma] and [np.linalg.det].  [gamma] stands for [math.gamma] on
    the arguments where it returns: its [OverflowError] on large arguments
    and its [ValueError] at 0 and at the negative integers are not
    modelled, and no statement below says that they do not occur. *)
Variable gamma : R -> R.
Variable det : matrix -> R.

(** [_student].  [X -= mu] writes into the array the caller passed: the
    result is that array after the call and the returned value. *)
Definition _student (X : matrix) (D : nat) (mu : vector) (L : matrix)
    (nu : R) : matrix * outcome vector :=
  match
    g <- div (gamma (INR D / 2 + nu / 2)) (gamma (nu / 2)) ;;
    s <- power (det L) 0.5 ;;
    p <- power (PI * nu) (INR D / 2) ;;
    div (g * s) p
  with
  | Raise e => (X, Raise e)
  | Ok norm_const =>
      let X' := map (fun x => vsub x mu) X in
      let mahalanobis_dist := map (fun x => quad x L) X' in
      (X',
       st <- mapM (fun d => q <- div d nu ;;
                            Ok ((1 + q) * (- INR D / 2 - nu / 2)))
                  mahalanobis_dist ;;
       Ok (map (Rmult norm_const) st))
  end.

(** What line 229 and the arguments of line 230 read of component [i]:
    [L], [self.alpha[i]], [self.m_k[i]] and [self.nu[i]+1-D]. *)
Definition component (self : Fitted.t) (D : nat) (i : nat)
  : outcome (matrix * R * vector * R) :=
  nu_i <- index (Fitted.nu self) i ;;
  beta_i <- index (Fitted.beta self) i ;;
  c <- div ((nu_i + 1 - INR D) * beta_i) (1 + beta_i) ;;
  W_i <- index (Fitted.W_k self) i ;;
  alpha_i <- index (Fitted.alpha self) i ;;
  m_i <- index (Fitted.m_k self) i ;;
  Ok (mscale c W_i, alpha_i, m_i, nu_i + 1 - INR D).

(** The density of the specification, for comparison with [_student]: the
    multivariate Student-t closed form, with normalizing constant
    [Gamma(D/2+nu/2)/Gamma(nu/2) * |L|^(1/2) / (pi nu)^(D/2)] and kernel
    [(1 + mahalanobis/nu)^(-(D+nu)/2)], at the point [x]. *)
Definition student_t_closed_form (D : nat) (mu : vector) (L : matrix)
    (nu : R) (x : vector) : R :=
  gamma (INR D / 2 + nu / 2) / gamma (nu / 2) * sqrt (det L)
  / Rpower (PI * nu) (INR D / 2)
  * Rpower (1 + quad (vsub x mu) L / nu) (- (INR D + nu) / 2).

(** [for i in range(self.K): ...] of [prob_density], over the indices
    [todo], threading the array [X] and the accumulator [prob]. *)
Fixpoint density_loop (self : Fitted.t) (D : nat) (todo : list nat)
    (X : matrix) (prob : vector) : matrix * outcome vector :=
  match todo with
  | [] => (X, Ok prob)
  | i :: rest =>
      match component self D i with
      | Raise e => (X, Raise e)
      | Ok (L, alpha_i, m_i, nu') =>
          match _student X D m_i L nu' with
          | (X', Raise e) => (X', Raise e)
          | (X', Ok st) =>
              density_loop self D rest X' (vadd prob (vscale alpha_i st))
          end
      end
  end.

(** [prob_density]: the caller's array after the call, and the returned
    [prob]. *)
Definition prob_density (self : Fitted.t) (X : matrix)
  : matrix * outcome vector :=
  let D := shape1 X in
  let prob := zeros (shape0 X) in
  match density_loop self D (seq 0 (Fitted.K self)) X prob with
  | (X', Raise e) => (X', Raise e)
  | (X', Ok prob) => (X', vdiv prob (sum (Fitted.alpha self)))
  end.

End Density.

End Mixture.

(** ** VariationalLogisticRegression *)

Module Logistic.

(** Modelled from the spec: [sigmoid] of [prml.utils.util], which is not
    among the sources: [sigmoid(x) = 1/(1+e^{-x})]. *)
Definition sigmoid (x : R) : R := 1 / (1 + exp (- x)).

(** [_lamda] at one entry of [xi]. *)
Definition lamda_at (xi : R) : outcome R :=
  div (sigmoid xi - 0.5) (2 * xi).

(** [_lamda], entry by entry on the array [xi]. *)
Definition _lamda (xi : vector) : outcome vector := mapM lamda_at xi.

Section Solver.

(** The part of the object that belongs to [_logistic_regression_base],
    and the type of the argument [y]. *)
Variable Base : Type.
Variable Labels : Type.

(** The attributes of the object.  [S] and [weight] do not exist before
    [fit] sets them; [a], [b] and [xi] are [None] after [__init__]. *)
Record VariationalLogisticRegression : Type := mkSolver {
  alpha : R;
  xi : option vector;
  a : option R;
  b : option R;
  S : option matrix;
  weight : option vector;
  max_iter : nat;
  threshold : R;
  base : Base
}.

(** The inherited [_onehot_to_label] and [make_design_mat], and
    [np.linalg.inv]. *)
Variable _onehot_to_label : Base -> Labels -> Base * outcome vector.
Variable make_design_mat : Base -> matrix -> matrix.
Variable inv : matrix -> outcome matrix.

Definition set_base (self : VariationalLogisticRegression) (v : Base) :=
  mkSolver (alpha self) (xi self) (a self) (b self) (S self) (weight self)
           (max_iter self) (threshold self) v.
Definition set_a_b (self : VariationalLogisticRegression) (va vb : R) :=
  mkSolver (alpha self) (xi self) (Some va) (Some vb) (S self) (weight self)
           (max_iter self) (threshold self) (base self).
Definition set_alpha (self : VariationalLogisticRegression) (v : R) :=
  mkSolver v (xi self) (a self) (b self) (S self) (weight self)
           (max_iter self) (threshold self) (base self).
Definition set_S (self : VariationalLogisticRegression) (v : matrix) :=
  mkSolver (alpha self) (xi self) (a self) (b self) (Some v) (weight self)
           (max_iter self) (threshold self) (base self).
Definition set_weight (self : VariationalLogisticRegression) (v : vector) :=
  mkSolver (alpha self) (xi self) (a self) (b self) (S self) (Some v)
           (max_iter self) (threshold self) (base self).
Definition set_xi (self : VariationalLogisticRegression) (v : vector) :=
  mkSolver (alpha self) (Some v) (a self) (b self) (S self) (weight self)
           (max_iter self) (threshold self) (base self).

(** [np.diag(design_mat@E_wwT@design_mat.T)**0.5]. *)
Definition root_diag (design_mat : matrix) (E_wwT : matrix) : outcome vector :=
  mapM (fun phi => power (quad phi E_wwT) 0.5) design_mat.

(** [_opt_param], called when [self.S] is [S0] and [self.weight] is [w]. *)
Definition _opt_param (self : VariationalLogisticRegression)
    (S0 : matrix) (w : vector) (init_a init_b : R) (design_mat : matrix)
  : VariationalLogisticRegression * outcome vector :=
  let M := shape1 design_mat in
  let E_wwT := madd S0 (outer w w) in
  let E_wTw := trace E_wwT in
  let a' := init_a + INR M / 2 in
  let b' := init_b + E_wTw / 2 in
  let self1 := set_a_b self a' b' in
  match div a' b' with
  | Raise e => (self1, Raise e)
  | Ok q => (set_alpha self1 q, root_diag design_mat E_wwT)
  end.

(** The statements of [fit] before the loop: the object after them, and
    the label vector [y] and the starting [xi].  [randn] is the array drawn
    by [np.random.randn(X.shape[0])]. *)
Definition prepare (self : VariationalLogisticRegression) (X : matrix)
    (y : Labels) (init_xi : option vector) (init_a init_b : R)
    (randn : vector)
  : VariationalLogisticRegression * outcome (vector * vector) :=
  match _onehot_to_label (base self) y with
  | (base', Raise e) => (set_base self base', Raise e)
  | (base', Ok y') =>
      let self0 := set_base self base' in
      match
        match init_xi with
        | None => Ok randn
        | Some v =>
            if negb (Nat.eqb (length v) (shape0 X))
            then Raise init_xi_mismatch
            else Ok v
        end
      with
      | Raise e => (self0, Raise e)
      | Ok xi0 => (set_a_b self0 init_a init_b, Ok (y', xi0))
      end
  end.

Section Loop.

Variable design_mat : matrix.
Variable y : vector.
Variables (optimize_param : bool) (init_a init_b : R).

Let M : nat := shape1 design_mat.

(** One pass through the body of the loop: the object after the pass,
    whether the pass ended in [break], and the new [xi]. *)
Definition body (self : VariationalLogisticRegression) (xi0 : vector)
  : VariationalLogisticRegression * outcome (bool * vector) :=
  match
    lamda <- _lamda xi0 ;;
    inv (madd (mscale (alpha self) (eye M))
              (mscale 2 (gram M lamda design_mat)))
  with
  | Raise e => (self, Raise e)
  | Ok S0 =>
      let self1 := set_S self S0 in
      let w := mat_vec S0
                 (weighted_sum M (map (fun t => t - 0.5) y) design_mat) in
      let self2 := set_weight self1 w in
      match
        if optimize_param
        then _opt_param self2 S0 w init_a init_b design_mat
        else (self2, root_diag design_mat (madd S0 (outer w w)))
      with
      | (self3, Raise e) => (self3, Raise e)
      | (self3, Ok new_xi) =>
          (self3,
           let sq := map (fun d => d ^ 2) (vsub xi0 new_xi) in
           mean <- div (sum sq) (INR (length sq)) ;;
           rms <- power mean 0.5 ;;
           if Rlt_dec rms (threshold self3)
           then Ok (true, new_xi)
           else Ok (false, new_xi))
      end
  end.

Inductive loop_exit : Type := Broke | Exhausted.

(** [for i in range(n): ...] started with [xi0]. *)
Fixpoint loop (n : nat) (self : VariationalLogisticRegression)
    (xi0 : vector)
  : VariationalLogisticRegression * outcome (loop_exit * vector) :=
  match n with
  | O => (self, Ok (Exhausted, xi0))
  | Datatypes.S n' =>
      match body self xi0 with
      | (self', Raise e) => (self', Raise e)
      | (self', Ok (true, new_xi)) => (self', Ok (Broke, new_xi))
      | (self', Ok (false, new_xi)) => loop n' self' new_xi
      end
  end.

End Loop.

(** [VariationalLogisticRegression.fit]. *)
Definition fit (self : VariationalLogisticRegression) (X : matrix)
    (y : Labels) (init_xi : option vector) (optimize_param : bool)
    (init_a init_b : R) (randn : vector)
  : VariationalLogisticRegression * outcome unit :=
  match prepare self X y init_xi init_a init_b randn with
  | (self1, Raise e) => (self1, Raise e)
  | (self1, Ok (y', xi0)) =>
      let design_mat := make_design_mat (base self1) X in
      match loop design_mat y' optimize_param init_a init_b
                 (max_iter self1) self1 xi0 with
      | (self2, Raise e) => (self2, Raise e)
      | (self2, Ok (_, xi')) => (set_xi self2 xi', Ok tt)
      end
  end.

End Solver.

Arguments mkSolver {Base}.
Arguments alpha {Base}.
Arguments xi {Base}.
Arguments a {Base}.
Arguments b {Base}.
Arguments S {Base}.
Arguments weight {Base}.
Arguments max_iter {Base}.
Arguments threshold {Base}.
Arguments base {Base}.
Arguments set_base {Base}.
Arguments set_a_b {Base}.
Arguments set_alpha {Base}.
Arguments set_S {Base}.
Arguments set_weight {Base}.
Arguments set_xi {Base}.
Arguments _opt_param {Base}.
Arguments prepare {Base Labels}.
Arguments body {Base}.
Arguments loop {Base}.
Arguments fit {Base Labels}.

Section Predict.

Variables Base Out : Type.

(** The inherited [make_design_mat] and [_inverse_transform], and [kappa]
    of [prml.utils.util], which is applied to the whole array [sigma]. *)
Variable make_design_mat : Base -> matrix -> matrix.
Variable _inverse_transform : Base -> vector -> outcome Out.
Variable kappa : vector -> vector.

(** What [predict] returns: the probabilities, or what
    [_inverse_transform] makes of the labels. *)
Inductive prediction : Type :=
| Prob (p : vector)
| Labelled (y : Out).

(** [y = np.zeros(n); y[logit >= 0] = 1]: a boolean mask indexes an array
    of its own length only. *)
Definition hard_labels (n : nat) (logit : vector) : outcome vector :=
  if Nat.eqb (length logit) n
  then Ok (map (fun t => if Rle_dec 0 t then 1 else 0) logit)
  else Raise IndexError.

(** [predict], called when [self.weight] is [w] and [self.S] is [S0]. *)
Definition predict (self : VariationalLogisticRegression Base)
    (w : vector) (S0 : matrix) (X : matrix) (return_prob : bool)
  : outcome prediction :=
  let design_mat := make_design_mat (base self) X in
  let logit := mat_vec design_mat w in
  if return_prob
  then
    let sigma := map (fun phi => quad phi S0) design_mat in
    Ok (Prob (zipWith (fun k t => sigmoid (k * t)) (kappa sigma) logit))
  else
    y <- hard_labels (shape0 X) logit ;;
    out <- _inverse_transform (base self) y ;;
    Ok (Labelled out).

End Predict.

Arguments Prob {Out}.
Arguments Labelled {Out}.
Arguments predict {Base Out}.

End Logistic.

(** * Properties *)

(** ** Generic facts *)

Lemma div_ok (x y : R) : y <> 0 -> div x y = Ok (x / y).
Proof.
  intros Hy. unfold div. destruct (Req_dec_T y 0) as [E | _].
  - contradiction.
  - reflexivity.
Qed.

Lemma div_zero (x : R) : div x 0 = Raise ZeroDivisionError.
Proof.
  unfold div. destruct (Req_dec_T 0 0) as [_ | NE].
  - reflexivity.
  - exfalso. apply NE. reflexivity.
Qed.

Lemma sum_nil : sum [] = 0.
Proof. reflexivity. Qed.

Lemma sum_cons (x : R) (v : list R) : sum (x :: v) = x + sum v.
Proof. reflexivity. Qed.

Lemma power_half (x : R) : 0 <= x -> power x 0.5 = Ok (sqrt x).
Proof.
  intros Hx. unfold power.
  destruct (Rlt_dec 0 x) as [Hpos | Hnpos].
  - replace 0.5 with (/ 2) by lra. rewrite Rpower_sqrt by exact Hpos.
    reflexivity.
  - assert (E : x = 0) by lra. subst x.
    destruct (Req_dec_T 0 0) as [_ | NE]; [| exfalso; apply NE; reflexivity].
    destruct (Rlt_dec 0 0.5) as [_ | NP]; [| exfalso; apply NP; lra].
    rewrite sqrt_0. reflexivity.
Qed.

Lemma sum_squares_nonneg (x y : R) : 0 <= x ^ 2 + y ^ 2.
Proof. pose proof (pow2_ge_0 x). pose proof (pow2_ge_0 y). lra. Qed.

(** The sufficient statistics [X2_sum], [X_sum] and [N] combine into a sum
    of squared deviations. *)
Lemma sum_sq_dev (X : list R) (c : R) :
  sum (map (fun x => x ^ 2) X) - 2 * c * sum X + INR (length X) * c ^ 2
  = sum (map (fun x => (x - c) ^ 2) X).
Proof.
  induction X as [| x X IH].
  - cbn [map length]. rewrite !sum_nil. change (INR 0) with 0. ring.
  - change (length (x :: X)) with (S (length X)). rewrite S_INR.
    cbn [map]. rewrite !sum_cons, <- IH. ring.
Qed.

Lemma sum_sq_nonneg (X : list R) (c : R) :
  0 <= sum (map (fun x => (x - c) ^ 2) X).
Proof.
  induction X as [| x X IH]; cbn [map].
  - rewrite sum_nil. lra.
  - rewrite sum_cons. pose proof (pow2_ge_0 (x - c)). lra.
Qed.

Lemma length_pos_INR {A : Type} (X : list A) : X <> [] -> 0 < INR (length X).
Proof.
  destruct X as [| x X]; intros H.
  - contradiction.
  - change (length (x :: X)) with (S (length X)). rewrite S_INR.
    pose proof (pos_INR (length X)). lra.
Qed.

(** ** The error monad and arrays *)

Lemma bind_ok {A B : Type} (c : outcome A) (k : A -> outcome B) (b : B) :
  bind c k = Ok b -> exists a, c = Ok a /\ k a = Ok b.
Proof.
  destruct c as [a | e]; cbn [bind]; intros H.
  - exists a. split; [reflexivity | exact H].
  - discriminate.
Qed.

Lemma bind_raise {A B : Type} (c : outcome A) (k : A -> outcome B) (e : exn) :
  bind c k = Raise e ->
  c = Raise e \/ exists a, c = Ok a /\ k a = Raise e.
Proof.
  destruct c as [a | e']; cbn [bind]; intros H.
  - right. exists a. split; [reflexivity | exact H].
  - left. injection H as ->. reflexivity.
Qed.

Lemma div_raise (x y : R) (e : exn) :
  div x y = Raise e -> e = ZeroDivisionError.
Proof.
  unfold div. destruct (Req_dec_T y 0); intros H.
  - injection H as <-. reflexivity.
  - discriminate.
Qed.

Lemma div_inv (x y q : R) : div x y = Ok q -> y <> 0 /\ q = x / y.
Proof.
  unfold div. destruct (Req_dec_T y 0) as [E | NE]; intros H.
  - discriminate.
  - injection H as <-. split; [exact NE | reflexivity].
Qed.

Lemma mapM_ok {A B : Type} (f : A -> outcome B) (l : list A) (l' : list B) :
  mapM f l = Ok l' -> Forall2 (fun x y => f x = Ok y) l l'.
Proof.
  revert l'. induction l as [| x l IH]; intros l' H; cbn [mapM] in H.
  - injection H as <-. constructor.
  - apply bind_ok in H. destruct H as (y & Ey & H).
    apply bind_ok in H. destruct H as (ys & Eys & H).
    injection H as <-. constructor; [exact Ey | apply IH; exact Eys].
Qed.

Lemma mapM_length {A B : Type} (f : A -> outcome B) (l : list A)
    (l' : list B) :
  mapM f l = Ok l' -> length l' = length l.
Proof.
  intros H. symmetry. apply (Forall2_length (mapM_ok f l l' H)).
Qed.

Lemma mapM_raise {A B : Type} (f : A -> outcome B) (l : list A) (e : exn) :
  mapM f l = Raise e -> exists x, In x l /\ f x = Raise e.
Proof.
  induction l as [| x l IH]; cbn [mapM]; intros H.
  - discriminate.
  - apply bind_raise in H. destruct H as [H | (y & Ey & H)].
    + exists x. split; [left; reflexivity | exact H].
    + apply bind_raise in H. destruct H as [H | (ys & _ & H)].
      * destruct (IH H) as (z & Hz & Ez). exists z.
        split; [right; exact Hz | exact Ez].
      * discriminate.
Qed.

Lemma mapM_total {A B : Type} (f : A -> outcome B) (g : A -> B)
    (l : list A) :
  Forall (fun x => f x = Ok (g x)) l -> mapM f l = Ok (map g l).
Proof.
  induction 1 as [| x l Hx _ IH]; cbn [mapM map].
  - reflexivity.
  - rewrite Hx. cbn [bind]. rewrite IH. reflexivity.
Qed.

Lemma length_zipWith {A B C : Type} (f : A -> B -> C) (u : list A)
    (v : list B) :
  length (zipWith f u v) = Nat.min (length u) (length v).
Proof.
  revert v. induction u as [| x u IH]; intros [| y v]; cbn; try reflexivity.
  rewrite IH. reflexivity.
Qed.

Lemma zipWith_nil_r {A B C : Type} (f : A -> B -> C) (u : list A) :
  zipWith f u [] = [].
Proof. destruct u; reflexivity. Qed.

Lemma select_nil_mask {A : Type} (arr : list A) : select [] arr = [].
Proof. reflexivity. Qed.

Lemma select_cons {A : Type} (t : bool) (mask : list bool) (x : A)
    (arr : list A) :
  select (t :: mask) (x :: arr)
  = if t then x :: select mask arr else select mask arr.
Proof. unfold select. cbn [combine filter fst]. destruct t; reflexivity. Qed.

Lemma count_true_cons (t : bool) (mask : list bool) :
  count_true (t :: mask)
  = if t then S (count_true mask) else count_true mask.
Proof. unfold count_true. cbn [filter]. destruct t; reflexivity. Qed.

(** A mask keeps as many entries as it has [True]s. *)
Lemma length_select {A : Type} (mask : list bool) :
  forall arr : list A,
    length arr = length mask ->
    length (select mask arr) = count_true mask.
Proof.
  induction mask as [| t mask IH]; intros [| x arr] H; cbn [length] in H;
    try discriminate.
  - reflexivity.
  - rewrite select_cons, count_true_cons. injection H as H.
    destruct t; cbn [length]; rewrite IH by exact H; reflexivity.
Qed.

Lemma select_none {A : Type} (mask : list bool) :
  Forall (fun t => t = false) mask ->
  forall arr : list A, select mask arr = [].
Proof.
  induction 1 as [| t mask Ht _ IH]; intros [| x arr]; try reflexivity.
  rewrite select_cons, Ht. apply IH.
Qed.

Lemma count_true_none (mask : list bool) :
  Forall (fun t => t = false) mask -> count_true mask = O.
Proof.
  induction 1 as [| t mask Ht _ IH]; [reflexivity |].
  rewrite count_true_cons, Ht. exact IH.
Qed.

(** *** Row normalisation *)

Lemma vdiv_ok (v : vector) (d : R) :
  d <> 0 -> vdiv v d = Ok (map (fun c => c / d) v).
Proof.
  intros Hd. unfold vdiv. apply mapM_total.
  apply Forall_forall. intros c _. apply div_ok. exact Hd.
Qed.

Lemma mdiv_ok (A : matrix) (d : R) :
  d <> 0 -> mdiv A d = Ok (map (map (fun c => c / d)) A).
Proof.
  intros Hd. unfold mdiv. apply mapM_total.
  apply Forall_forall. intros row _. apply vdiv_ok. exact Hd.
Qed.

Lemma Forall_select {A : Type} (P : A -> Prop) (mask : list bool) :
  forall arr : list A, Forall P arr -> Forall P (select mask arr).
Proof.
  induction mask as [| t mask IH]; intros arr H.
  - constructor.
  - destruct H as [| x arr Hx Harr]; [destruct t; constructor |].
    rewrite select_cons. destruct t; [constructor; [exact Hx |] |];
      apply IH; exact Harr.
Qed.

Lemma sum_map_div (v : vector) (d : R) :
  sum (map (fun c => c / d) v) = sum v / d.
Proof.
  induction v as [| c v IH]; cbn [map].
  - rewrite sum_nil. unfold Rdiv. ring.
  - rewrite !sum_cons, IH. unfold Rdiv. ring.
Qed.

Lemma sum_nonneg (v : vector) : Forall (fun c => 0 < c) v -> 0 <= sum v.
Proof.
  induction 1 as [| c v Hc _ IH].
  - rewrite sum_nil. lra.
  - rewrite sum_cons. lra.
Qed.

Lemma sum_pos (v : vector) :
  v <> [] -> Forall (fun c => 0 < c) v -> 0 < sum v.
Proof.
  intros Hne Hall. destruct Hall as [| c v Hc Hv]; [contradiction |].
  rewrite sum_cons. pose proof (sum_nonneg v Hv). lra.
Qed.

Lemma entry_le_sum (v : vector) :
  Forall (fun c => 0 < c) v -> Forall (fun c => c <= sum v) v.
Proof.
  induction 1 as [| c v Hc Hv IH]; constructor.
  - rewrite sum_cons. pose proof (sum_nonneg v Hv). lra.
  - apply (Forall_impl _ (P := fun c' => c' <= sum v)); [| exact IH].
    intros c' H. rewrite sum_cons. lra.
Qed.

Lemma normalize_positive_row (row : vector) :
  row <> [] -> Forall (fun c => 0 < c) row ->
  vdiv row (sum row) = Ok (map (fun c => c / sum row) row)
  /\ normalized (map (fun c => c / sum row) row).
Proof.
  intros Hne Hpos. pose proof (sum_pos row Hne Hpos) as Hs.
  split; [apply vdiv_ok; lra |].
  split.
  - rewrite sum_map_div. field. lra.
  - apply Forall_map. pose proof (entry_le_sum row Hpos) as Hle.
    rewrite Forall_forall in *. intros c Hc.
    specialize (Hpos c Hc). specialize (Hle c Hc). split.
    + apply Rlt_le. apply Rdiv_lt_0_compat; assumption.
    + apply (Rmult_le_reg_r (sum row)); [exact Hs |].
      unfold Rdiv. rewrite Rmult_assoc, Rinv_l by lra. lra.
Qed.

Lemma exp_row_positive (p : vector) : Forall (fun c => 0 < c) (map exp p).
Proof. apply Forall_map. apply Forall_forall. intros c _. apply exp_pos. Qed.

(** Exponentiating and row-normalizing never divides by zero; every row of
    the result has the length of its source row and, unless it is empty, is
    normalized. *)
Lemma normalize_exp_rows (pho : matrix) :
  exists E, normalize_rows (map (map exp) pho) = Ok E
            /\ Forall2 (fun p row => length row = length p
                                     /\ (p <> [] -> normalized row)) pho E.
Proof.
  unfold normalize_rows. induction pho as [| p pho (E & HE & HF)].
  - exists []. split; [reflexivity | constructor].
  - cbn [map mapM]. rewrite HE.
    destruct p as [| c p].
    + exists ([] :: E). split; [reflexivity |].
      constructor; [| exact HF]. split; [reflexivity | congruence].
    + destruct (normalize_positive_row (map exp (c :: p)))
        as [Hv Hn]; [discriminate | apply exp_row_positive |].
      rewrite Hv. cbn [bind]. eexists. split; [reflexivity |].
      constructor; [| exact HF]. split.
      * rewrite !length_map. reflexivity.
      * intros _. exact Hn.
Qed.

(** ** VariationalGauss1D *)

Module Gauss1DFacts.
Import Gauss1D.

Section Invariant.

Variable self : VariationalGauss1D.
Variable X : list R.

Let N := INR (length X).
Let X_sum := sum X.
Let X2_sum := sum (map (fun x => x ^ 2) X).

Hypothesis prior_a : 0 <= a self.
Hypothesis prior_b : 0 <= b self.
Hypothesis prior_lamda : 0 <= lamda self.
Hypothesis nonempty : X <> [].

Abbreviation updated := (updated self X).

Lemma N_pos : 0 < N.
Proof. apply length_pos_INR. exact nonempty. Qed.

Lemma body_positive (f : frame) :
  positive f ->
  exists brk f', body self N X_sum X2_sum f = Ok (brk, f')
                 /\ positive f' /\ updated f'.
Proof.
  intros [Ht Hl]. pose proof N_pos as HN.
  set (d := (lam_N f + N) * E_tau f).
  assert (Hd : 0 < d) by (unfold d; nra).
  assert (Hq : 0 < 1 / d) by (apply Rdiv_lt_0_compat; lra).
  set (bN := b self + 0.5 * (X2_sum - 2 * mu_N f * X_sum
               + N * (mu_N f ^ 2 + 1 / d)
               + lamda self * (mu_N f ^ 2 + 1 / d - 2 * mu_N f * mu self
                               + mu self ^ 2))).
  assert (HbN : 0 < bN).
  { pose proof (sum_sq_dev X (mu_N f)) as E.
    pose proof (sum_sq_nonneg X (mu_N f)) as P.
    fold N X_sum X2_sum in E. rewrite <- E in P.
    assert (0 < N * (1 / d)) by nra.
    assert (0 <= lamda self * ((mu_N f - mu self) ^ 2 + 1 / d)).
    { apply Rmult_le_pos; [exact prior_lamda |].
      assert (0 <= (mu_N f - mu self) ^ 2) by (apply pow2_ge_0). lra. }
    unfold bN. nra. }
  set (aN := a self + (N + 1) / 2).
  assert (HaN : 0 < aN) by (unfold aN; lra).
  assert (Hq' : 0 < aN / bN) by (apply Rdiv_lt_0_compat; assumption).
  unfold body.
  fold d. rewrite (div_ok 1 d) by lra. cbn [bind].
  fold bN aN. rewrite (div_ok aN bN) by lra. cbn [bind].
  rewrite div_ok by lra. cbn [bind].
  rewrite power_half by apply sum_squares_nonneg. cbn [bind].
  match goal with
  | |- context [Rlt_dec ?u ?v] => destruct (Rlt_dec u v)
  end;
    eexists; eexists; (split; [reflexivity |]);
    unfold positive, Gauss1D.updated; cbn [E_tau lam_N a_N b_N mu_N];
    (repeat split; try reflexivity; try nra; try (exists bN; split; [reflexivity | exact HbN])).
Qed.

Lemma loop_positive (n : nat) :
  forall f, positive f ->
  exists ex f', loop self N X_sum X2_sum n f = Ok (ex, f')
                /\ positive f' /\ ((0 < n)%nat -> updated f').
Proof.
  induction n as [| n IH]; intros f Hf.
  - exists Exhausted, f. simpl. split; [reflexivity |]. split; [exact Hf |]. lia.
  - destruct (body_positive f Hf) as (brk & f' & E & Hf' & Hu).
    cbn [loop]. rewrite E. cbn [bind]. destruct brk.
    + exists Broke, f'. split; [reflexivity |]. split; [exact Hf' |].
      intros _. exact Hu.
    + destruct (IH f' Hf') as (ex & f'' & E' & Hf'' & Hu').
      exists ex, f''. split; [exact E' |]. split; [exact Hf'' |].
      intros _. destruct n as [| n'].
      * simpl in E'. injection E' as _ <-. exact Hu.
      * apply Hu'. lia.
Qed.

Lemma passes_positive (n : nat) (init_tau : R) :
  0 < init_tau ->
  exists ex f, passes n self X init_tau = Ok (ex, f)
               /\ positive f /\ ((0 < n)%nat -> updated f).
Proof.
  intros Ht. pose proof N_pos as HN. unfold passes. fold N X_sum X2_sum.
  rewrite div_ok by lra. cbn [bind].
  apply loop_positive. unfold positive. cbn [E_tau lam_N]. split; nra.
Qed.

Lemma fit_positive (init_tau : R) :
  0 < init_tau -> (0 < max_iter self)%nat ->
  exists st, fit self X init_tau = (st, Ok tt)
             /\ a st = a self + (N + 1) / 2
             /\ 0 < b st
             /\ 0 < lamda st
             /\ mu st = (lamda self * mu self + X_sum) / (lamda self + N).
Proof.
  intros Ht Hn.
  destruct (passes_positive (max_iter self) init_tau Ht)
    as (ex & f & E & _ & Hu).
  destruct (Hu Hn) as (Ea & (bN & Eb & HbN) & Em & Hl).
  unfold fit, run. rewrite E. unfold store. rewrite Ea, Eb.
  eexists. split; [reflexivity |]. cbn [a b lamda mu set_a set_b set_mu_lamda].
  repeat split; assumption.
Qed.

End Invariant.

(** The object is not written before the loop has ended. *)
Lemma fit_raise_in_loop (self : VariationalGauss1D) (X : list R)
    (init_tau : R) (e : exn) :
  run self X init_tau = Raise e -> fit self X init_tau = (self, Raise e).
Proof. intros E. unfold fit. rewrite E. reflexivity. Qed.

(** With [max_iter = 0] the body never runs: [a_N] is unbound when [fit]
    comes to store it, after [self.mu] and [self.lamda] have been written. *)
Lemma gauss1d_fit_zero_passes (self : VariationalGauss1D) (X : list R)
    (init_tau : R) :
  max_iter self = O ->
  lamda self + INR (length X) <> 0 ->
  fit self X init_tau
  = (set_mu_lamda self
       ((lamda self * mu self + sum X) / (lamda self + INR (length X)))
       ((lamda self + INR (length X)) * init_tau),
     Raise (UnboundLocalError "a_N")).
Proof.
  intros Hn Hd. unfold fit, run, passes. rewrite Hn.
  rewrite div_ok by exact Hd. reflexivity.
Qed.

(** When the loop has run at least once, whether it ended by [break] or by
    exhausting [range(max_iter)], [fit] stores the last frame and returns. *)
Lemma fit_stores_last_frame (self : VariationalGauss1D) (X : list R)
    (init_tau : R) (ex : loop_exit) (f : frame) (aN bN : R) :
  run self X init_tau = Ok (ex, f) ->
  a_N f = Some aN -> b_N f = Some bN ->
  fit self X init_tau
  = (mkSolver aN bN (mu_N f) (lam_N f) (max_iter self) (threshold self),
     Ok tt).
Proof.
  intros E Ea Eb. unfold fit. rewrite E. unfold store. rewrite Ea, Eb.
  reflexivity.
Qed.

Lemma loop_binds_locals (self : VariationalGauss1D) (N Xs X2 : R) (n : nat) :
  forall f ex f',
    (0 < n)%nat ->
    loop self N Xs X2 n f = Ok (ex, f') ->
    exists aN bN, a_N f' = Some aN /\ b_N f' = Some bN.
Proof.
  induction n as [| n IH]; intros f ex f' Hn E.
  - lia.
  - cbn [loop] in E.
    destruct (body self N Xs X2 f) as [[brk g] | e] eqn:Eb;
      cbn [bind] in E; [| discriminate].
    assert (Hg : exists aN bN, a_N g = Some aN /\ b_N g = Some bN).
    { unfold body in Eb.
      repeat match type of Eb with
             | context [div ?x ?y] =>
                 destruct (div x y); cbn [bind] in Eb; [| discriminate]
             | context [power ?x ?y] =>
                 destruct (power x y); cbn [bind] in Eb; [| discriminate]
             | context [Rlt_dec ?x ?y] => destruct (Rlt_dec x y)
             end;
        injection Eb as _ <-; cbn [a_N b_N]; eauto. }
    destruct brk.
    + injection E as _ <-. exact Hg.
    + destruct n as [| n'].
      * cbn [loop] in E. injection E as _ <-. exact Hg.
      * apply (IH g ex f'); [lia | exact E].
Qed.

(** Exhausting [range(max_iter)] without convergence is not an error once
    the body has run: the last frame is stored and [fit] returns. *)
Lemma fit_returns_when_exhausted (self : VariationalGauss1D) (X : list R)
    (init_tau : R) (f : frame) :
  (0 < max_iter self)%nat ->
  run self X init_tau = Ok (Exhausted, f) ->
  exists aN bN,
    a_N f = Some aN /\ b_N f = Some bN
    /\ fit self X init_tau
       = (mkSolver aN bN (mu_N f) (lam_N f) (max_iter self) (threshold self),
          Ok tt).
Proof.
  intros Hn Hr.
  assert (Hl : exists aN bN, a_N f = Some aN /\ b_N f = Some bN).
  { unfold run, passes in Hr. apply bind_ok in Hr.
    destruct Hr as (mu0 & _ & Hr).
    exact (loop_binds_locals _ _ _ _ _ _ _ _ Hn Hr). }
  destruct Hl as (aN & bN & Ea & Eb). exists aN, bN.
  split; [exact Ea |]. split; [exact Eb |].
  exact (fit_stores_last_frame self X init_tau Exhausted f aN bN Hr Ea Eb).
Qed.

End Gauss1DFacts.

(** ** VariationalGaussianMixture: shapes, pruning and responsibilities *)

Module MixtureFacts.
Import Mixture.

Ltac bind_inv H :=
  let a := fresh "v" in
  let E := fresh "E" in
  apply bind_ok in H; destruct H as (a & E & H).

Create Rewrite HintDb lens.
#[local] Hint Rewrite @length_combine @length_map @length_seq
  @length_zipWith @repeat_length : lens.

Ltac lengths :=
  unfold vector, matrix in *; autorewrite with lens in *;
  unfold vector, matrix in *.

(** [lia] once every [length _] has been made an opaque number. *)
Ltac length_lia :=
  unfold vector, matrix in *;
  repeat match goal with
         | |- context [@length ?A ?x] =>
             let n := fresh "n" in
             set (n := @length A x) in *; clearbody n
         | H : context [@length ?A ?x] |- _ =>
             let n := fresh "n" in
             set (n := @length A x) in *; clearbody n
         end;
  lia.

Section Round.

Variable inv : matrix -> outcome matrix.
Variable det : matrix -> R.
Variable digamma : R -> R.
Variable _log : R -> R.
Variable X : matrix.

Lemma m_step_shapes (self : VariationalGaussianMixture) (E_z : matrix)
    (N_k : vector) (l : Local.t) :
  length (alpha self) = K self ->
  m_step inv X self E_z = Ok (N_k, l) ->
  N_k = map sum (transpose (K self) E_z)
  /\ length N_k = K self
  /\ shaped (K self) l
  /\ Local.alpha l = zipWith Rplus (alpha self) N_k
  /\ Local.beta l = map (fun n => beta self + n) N_k.
Proof.
  intros Ha H. unfold m_step in H.
  bind_inv H. bind_inv H. bind_inv H. bind_inv H. bind_inv H. bind_inv H.
  injection H as <- <-.
  repeat match goal with
         | E : mapM _ _ = Ok _ |- _ => apply mapM_length in E
         end.
  unfold shaped, transpose in *. cbn [Local.alpha Local.beta Local.m_k
                                      Local.W_k Local.nu].
  repeat split; try reflexivity; lengths; length_lia.
Qed.

Lemma expected_pi_values (self : VariationalGaussianMixture) (N_k : vector)
    (E_pi : vector) :
  expected_pi X self N_k = Ok E_pi ->
  E_pi = map (fun '(a, n) => (a + n) / (INR (K self) * a + INR (shape0 X)))
             (combine (alpha self) N_k).
Proof.
  unfold expected_pi. generalize (combine (alpha self) N_k).
  intros ps. revert E_pi.
  induction ps as [| [a n] ps IH]; intros E_pi H; cbn [mapM map] in *.
  - injection H as <-. reflexivity.
  - bind_inv H. bind_inv H. injection H as <-.
    apply div_inv in E. destruct E as [_ ->].
    rewrite (IH _ E0). reflexivity.
Qed.

Lemma expected_pi_length (self : VariationalGaussianMixture) (N_k : vector)
    (E_pi : vector) :
  expected_pi X self N_k = Ok E_pi ->
  length E_pi = Nat.min (length (alpha self)) (length N_k).
Proof.
  intros H. apply mapM_length in H. rewrite H. apply length_combine.
Qed.

Lemma length_keep_mask (thr : R) (E_pi : vector) :
  length (keep_mask thr E_pi) = length E_pi.
Proof. unfold keep_mask. apply length_map. Qed.

(** The number of [True]s of the mask is the number of components whose
    [E_pi] is at least the threshold. *)
Lemma count_keep_mask (thr : R) (E_pi : vector) :
  count_true (keep_mask thr E_pi)
  = length (filter (fun e => if Rle_dec thr e then true else false) E_pi).
Proof.
  induction E_pi as [| e E_pi IH]; [reflexivity |].
  unfold keep_mask in *. cbn [map filter]. rewrite count_true_cons.
  destruct (Rle_dec thr e); cbn [length]; rewrite IH; reflexivity.
Qed.

Lemma prune_shapes (thr : R) (self : VariationalGaussianMixture)
    (E_pi : vector) (l : Local.t) :
  length (alpha self) = length E_pi ->
  shaped (length E_pi) l ->
  let '(self', l') := prune thr self E_pi l in
  K self' = count_true (keep_mask thr E_pi)
  /\ length (alpha self') = K self'
  /\ shaped (K self') l'.
Proof.
  intros Ha (H1 & H2 & H3 & H4 & H5). unfold prune, shaped.
  cbn [K alpha set_alpha_K Local.alpha Local.beta Local.m_k Local.W_k
       Local.nu].
  rewrite !length_select by (rewrite length_keep_mask; assumption).
  repeat split; reflexivity.
Qed.

Lemma length_pho_row (k : nat) (l : Local.t) (M_over_beta x : vector) :
  shaped k l -> length M_over_beta = k ->
  length (pho_row det digamma _log X l M_over_beta x) = k.
Proof.
  intros (H1 & H2 & H3 & H4 & H5) Hb. unfold pho_row. lengths. length_lia.
Qed.

Lemma Forall2_right {A B : Type} (P : A -> Prop) (Q : B -> Prop)
    (R : A -> B -> Prop) (u : list A) (v : list B) :
  (forall a b, P a -> R a b -> Q b) ->
  Forall P u -> Forall2 R u v -> Forall Q v.
Proof.
  intros HPQ Hu HR. induction HR as [| a b u v Hab _ IH].
  - constructor.
  - inversion Hu; subst. constructor; [eapply HPQ; eassumption | auto].
Qed.

(** The E step yields one row per sample; on locals of [k] entries each
    row has [k] entries and is normalized unless [k = 0]. *)
Lemma e_step_responsibilities (k : nat) (l : Local.t) (E : matrix) :
  shaped k l ->
  e_step det digamma _log X l = Ok E ->
  length E = length X /\ responsibilities k E.
Proof.
  intros Hl H. unfold e_step in H. bind_inv H.
  assert (Hb : length v = k).
  { apply mapM_length in E0. destruct Hl as (_ & H2 & _). length_lia. }
  destruct (normalize_exp_rows
              (map (pho_row det digamma _log X l v) X)) as (E' & HE' & HF).
  rewrite HE' in H. injection H as <-. split.
  - apply Forall2_length in HF. rewrite length_map in HF. length_lia.
  - unfold responsibilities.
    eapply (Forall2_right (fun p : list R => length p = k));
      [| | exact HF].
    + intros p row Hp [Hlen Hn]. split; [congruence |].
      intros Hk. apply Hn. intros ->. cbn in Hp. lia.
    + apply Forall_map. apply Forall_forall. intros x _.
      apply length_pho_row; assumption.
Qed.

Section Passes.

Variables (reduce_components : bool) (threshold : R).

Abbreviation round :=
  (round inv det digamma _log X reduce_components threshold).
Abbreviation loop :=
  (loop inv det digamma _log X reduce_components threshold).

(** What a pass that returns has done. *)
Lemma round_inv (self self' : VariationalGaussianMixture)
    (E_z E_z' : matrix) (l' : Local.t) :
  round self E_z = (self', Ok (E_z', l')) ->
  exists N_k l,
    m_step inv X self E_z = Ok (N_k, l)
    /\ (if reduce_components
        then exists E_pi, expected_pi X self N_k = Ok E_pi
                          /\ prune threshold self E_pi l = (self', l')
        else self' = self /\ l' = l)
    /\ e_step det digamma _log X l' = Ok E_z'.
Proof.
  unfold Mixture.round. intros H.
  destruct (m_step inv X self E_z) as [[N_k l] | e]; [| discriminate].
  exists N_k, l. split; [reflexivity |].
  destruct reduce_components.
  - destruct (expected_pi X self N_k) as [E_pi | e]; cbn [bind] in H;
      [| discriminate].
    destruct (prune threshold self E_pi l) as [s1 l1] eqn:Ep.
    destruct (e_step det digamma _log X l1) as [E1 | e] eqn:Ee;
      cbn [bind] in H; [| discriminate].
    injection H as <- <- <-. split; [| exact Ee].
    exists E_pi. split; [reflexivity | exact Ep].
  - destruct (e_step det digamma _log X l) as [E1 | e] eqn:Ee;
      cbn [bind] in H; [| discriminate].
    injection H as <- <- <-. split; [split; reflexivity | exact Ee].
Qed.

(** A pass keeps the arrays in step with [K] and yields responsibilities
    for the [K] it leaves. *)
Lemma round_shapes (self self' : VariationalGaussianMixture)
    (E_z E_z' : matrix) (l' : Local.t) :
  length (alpha self) = K self ->
  round self E_z = (self', Ok (E_z', l')) ->
  length (alpha self') = K self'
  /\ shaped (K self') l'
  /\ length E_z' = length X
  /\ responsibilities (K self') E_z'.
Proof.
  intros Ha H. apply round_inv in H.
  destruct H as (N_k & l & Em & Hp & Ee).
  destruct (m_step_shapes self E_z N_k l Ha Em) as (_ & HN & Hl & _ & _).
  assert (Hs : length (alpha self') = K self' /\ shaped (K self') l').
  { destruct reduce_components.
    - destruct Hp as (E_pi & Epi & Ep).
      pose proof (expected_pi_length self N_k E_pi Epi) as HL.
      assert (HK : length E_pi = K self) by (rewrite HL; lia).
      rewrite <- HK in Ha, Hl.
      pose proof (prune_shapes threshold self E_pi l Ha Hl) as Hpr.
      rewrite Ep in Hpr. cbv beta iota in Hpr.
      destruct Hpr as (_ & H1 & H2). split; [exact H1 | exact H2].
    - destruct Hp as [-> ->]. split; [exact Ha | exact Hl]. }
  destruct Hs as [Hs1 Hs2].
  destruct (e_step_responsibilities (K self') l' E_z' Hs2 Ee) as [H1 H2].
  split; [exact Hs1 | split; [exact Hs2 | split; [exact H1 | exact H2]]].
Qed.

(** All components fall below the threshold: the pass empties every array
    and the E step runs on the empty arrays. *)
Lemma keep_mask_none (E_pi : vector) :
  Forall (fun e => e < threshold) E_pi ->
  Forall (fun t => t = false) (keep_mask threshold E_pi).
Proof.
  intros H. unfold keep_mask. apply Forall_map.
  apply (Forall_impl _ (P := fun e => e < threshold)); [| exact H].
  intros e He. destruct (Rle_dec threshold e); [lra | reflexivity].
Qed.

Lemma normalize_empty_rows {A : Type} (Y : list A) :
  normalize_rows (map (fun _ => []) Y) = Ok (map (fun _ => []) Y).
Proof.
  unfold normalize_rows. induction Y as [| y Y IH]; cbn [map mapM].
  - reflexivity.
  - unfold vdiv at 1. cbn [mapM bind]. rewrite IH. reflexivity.
Qed.

Lemma e_step_empty :
  e_step det digamma _log X (Local.mk [] [] [] [] [])
  = Ok (map (fun _ => []) X).
Proof.
  unfold e_step. cbn [Local.beta mapM bind].
  rewrite map_map. unfold pho_row. cbn [Local.alpha Local.nu Local.W_k
                                         Local.m_k map combine zipWith].
  apply normalize_empty_rows.
Qed.

Lemma prune_none (self : VariationalGaussianMixture) (E_pi : vector)
    (l : Local.t) :
  Forall (fun e => e < threshold) E_pi ->
  prune threshold self E_pi l
  = (set_alpha_K self [] 0, Local.mk [] [] [] [] []).
Proof.
  intros H. apply keep_mask_none in H. unfold prune.
  rewrite !(select_none _ H), (count_true_none _ H). reflexivity.
Qed.

(** The E step divides by the entries of [beta] only. *)
Lemma e_step_total (l : Local.t) :
  Forall (fun b => b <> 0) (Local.beta l) ->
  exists E, e_step det digamma _log X l = Ok E.
Proof.
  intros Hb. unfold e_step.
  rewrite (mapM_total _ (fun b => INR (shape1 X) / b)).
  - cbn [bind]. destruct (normalize_exp_rows
                  (map (pho_row det digamma _log X l
                          (map (fun b => INR (shape1 X) / b) (Local.beta l)))
                       X)) as (E & HE & _).
    exists E. exact HE.
  - apply (Forall_impl _ (P := fun b => b <> 0)); [| exact Hb].
    intros b Hne. apply div_ok. exact Hne.
Qed.

(** A pass returns as soon as its M step does, [E_pi] is defined, and no
    entry of the new [beta] is zero. *)
Lemma round_total (self : VariationalGaussianMixture) (E_z : matrix)
    (N_k : vector) (l : Local.t) :
  m_step inv X self E_z = Ok (N_k, l) ->
  (reduce_components = true ->
   exists E_pi, expected_pi X self N_k = Ok E_pi) ->
  Forall (fun b => b <> 0) (Local.beta l) ->
  exists self' E_z' l', round self E_z = (self', Ok (E_z', l')).
Proof.
  intros Em Hpi Hb. unfold Mixture.round. rewrite Em.
  destruct reduce_components.
  - destruct (Hpi eq_refl) as (E_pi & Epi). rewrite Epi. cbn [bind].
    unfold prune.
    destruct (e_step_total
                (Local.mk
                   (select (keep_mask threshold E_pi) (Local.alpha l))
                   (select (keep_mask threshold E_pi) (Local.beta l))
                   (select (keep_mask threshold E_pi) (Local.m_k l))
                   (select (keep_mask threshold E_pi) (Local.W_k l))
                   (select (keep_mask threshold E_pi) (Local.nu l))))
      as (E & HE).
    { cbn [Local.beta]. apply Forall_select. exact Hb. }
    rewrite HE. cbn [bind]. eauto.
  - destruct (e_step_total l Hb) as (E & HE). rewrite HE. cbn [bind]. eauto.
Qed.

(** The M step has read [self.m] and [self.W_inv] when it returns. *)
Lemma m_step_reads (self : VariationalGaussianMixture) (E_z : matrix)
    (N_k : vector) (l : Local.t) :
  m_step inv X self E_z = Ok (N_k, l) ->
  exists m0 Wi, m self = Some m0 /\ W_inv self = Some Wi.
Proof.
  unfold m_step. intros H.
  bind_inv H. bind_inv H. bind_inv H. bind_inv H. bind_inv H.
  unfold read_m in E1. unfold read_W_inv in E3.
  destruct (m self) as [m0 |]; [| discriminate].
  destruct (W_inv self) as [Wi |]; [| discriminate].
  eauto.
Qed.

(** With no component the M step has nothing to compute. *)
Lemma m_step_no_component (self : VariationalGaussianMixture)
    (E_z : matrix) (m0 : vector) (Wi : matrix) :
  K self = O -> m self = Some m0 -> W_inv self = Some Wi ->
  m_step inv X self E_z = Ok ([], Local.mk [] [] [] [] []).
Proof.
  intros HK Hm HW. unfold m_step, read_m, read_W_inv.
  rewrite HK, Hm, HW. cbn [transpose seq map combine mapM bind].
  rewrite zipWith_nil_r. reflexivity.
Qed.

Lemma expected_pi_no_component (self : VariationalGaussianMixture) :
  expected_pi X self [] = Ok [].
Proof.
  unfold expected_pi. replace (combine (alpha self) []) with (@nil (R * R)).
  - reflexivity.
  - destruct (alpha self); reflexivity.
Qed.

(** The pruning pass that drops every component, and every pass after
    it. *)
Lemma round_prunes_all (self : VariationalGaussianMixture) (E_z : matrix)
    (N_k E_pi : vector) (l : Local.t) :
  reduce_components = true ->
  m_step inv X self E_z = Ok (N_k, l) ->
  expected_pi X self N_k = Ok E_pi ->
  Forall (fun e => e < threshold) E_pi ->
  round self E_z
  = (set_alpha_K self [] 0,
     Ok (map (fun _ => []) X, Local.mk [] [] [] [] [])).
Proof.
  intros Hrc Em Epi Hlt. unfold Mixture.round.
  rewrite Em, Hrc, Epi. cbn [bind].
  rewrite (prune_none self E_pi l Hlt), e_step_empty. reflexivity.
Qed.

Lemma round_no_component (self : VariationalGaussianMixture) (E_z : matrix)
    (m0 : vector) (Wi : matrix) :
  reduce_components = true ->
  K self = O -> m self = Some m0 -> W_inv self = Some Wi ->
  round self E_z
  = (set_alpha_K self [] 0,
     Ok (map (fun _ => []) X, Local.mk [] [] [] [] [])).
Proof.
  intros Hrc HK Hm HW.
  apply (round_prunes_all self E_z [] [] (Local.mk [] [] [] [] []) Hrc).
  - exact (m_step_no_component self E_z m0 Wi HK Hm HW).
  - apply expected_pi_no_component.
  - constructor.
Qed.

Lemma loop_S (n : nat) (self : VariationalGaussianMixture) (E_z : matrix)
    (l : option Local.t) :
  loop (S n) self E_z l
  = match round self E_z with
    | (self', Raise e) => (self', Raise e)
    | (self', Ok (E_z', l')) => loop n self' E_z' (Some l')
    end.
Proof. reflexivity. Qed.

(** [n + k] passes are [n] passes followed by [k] passes: nothing but an
    exception ends the loop early. *)
Lemma loop_add (n k : nat) :
  forall self E_z l,
    loop (n + k) self E_z l
    = match loop n self E_z l with
      | (self', Raise e) => (self', Raise e)
      | (self', Ok (E_z', l')) => loop k self' E_z' l'
      end.
Proof.
  induction n as [| n IH]; intros self E_z l.
  - reflexivity.
  - change (S n + k)%nat with (S (n + k)). rewrite !loop_S.
    destruct (round self E_z) as [s [[E1 l1] | e]]; [apply IH | reflexivity].
Qed.

Lemma loop_shapes (n : nat) :
  forall self E_z l self' E_z' l',
    length (alpha self) = K self ->
    loop n self E_z l = (self', Ok (E_z', l')) ->
    length (alpha self') = K self'
    /\ ((0 < n)%nat ->
        exists l1, l' = Some l1 /\ shaped (K self') l1
                   /\ length E_z' = length X
                   /\ responsibilities (K self') E_z').
Proof.
  induction n as [| n IH]; intros self E_z l self' E_z' l' Ha H.
  - cbn in H. injection H as <- <- <-. split; [exact Ha | lia].
  - rewrite loop_S in H.
    destruct (round self E_z) as [s [[E1 l1] | e]] eqn:Er; [| discriminate].
    destruct (round_shapes _ _ _ _ _ Ha Er) as (Hs & Hl1 & HE1 & HR1).
    destruct (IH _ _ _ _ _ _ Hs H) as [Ha' Hn]. split; [exact Ha' |].
    intros _. destruct n as [| n'].
    + cbn in H. injection H as <- <- <-. exists l1.
      split; [reflexivity |].
      split; [exact Hl1 | split; [exact HE1 | exact HR1]].
    + apply Hn. lia.
Qed.

Lemma loop_unbound (n : nat) :
  forall self E_z self' E_z',
    loop n self E_z None = (self', Ok (E_z', None)) -> n = O.
Proof.
  destruct n as [| n]; intros self E_z self' E_z' H; [reflexivity |].
  exfalso. rewrite loop_S in H.
  destruct (round self E_z) as [s [[E1 l1] | e]]; [| discriminate].
  clear - H. revert s E1 l1 H.
  induction n as [| n IH]; intros s E1 l1 H.
  - cbn in H. discriminate.
  - rewrite loop_S in H.
    destruct (round s E1) as [s2 [[E2 l2] | e]]; [| discriminate].
    exact (IH _ _ _ H).
Qed.

(** *** The exceptions of the loop *)

Hypothesis inv_raises : forall A e, inv A = Raise e -> e = LinAlgError.

Lemma vdiv_raise (v : vector) (d : R) (e : exn) :
  vdiv v d = Raise e -> e = ZeroDivisionError.
Proof.
  intros H. apply mapM_raise in H. destruct H as (c & _ & H).
  exact (div_raise _ _ _ H).
Qed.

Lemma mdiv_raise (A : matrix) (d : R) (e : exn) :
  mdiv A d = Raise e -> e = ZeroDivisionError.
Proof.
  intros H. apply mapM_raise in H. destruct H as (c & _ & H).
  exact (vdiv_raise _ _ _ H).
Qed.

Ltac raise_cases H :=
  repeat (apply bind_raise in H; destruct H as [H | (? & _ & H)]).

Lemma m_step_raise (self : VariationalGaussianMixture) (E_z : matrix)
    (e : exn) :
  m_step inv X self E_z = Raise e -> ~ is_value_error e.
Proof.
  unfold m_step. intros H. raise_cases H.
  - apply mapM_raise in H. destruct H as ([w n] & _ & H).
    rewrite (vdiv_raise _ _ _ H). exact (fun F => F).
  - apply mapM_raise in H. destruct H as ([w [c n]] & _ & H).
    rewrite (mdiv_raise _ _ _ H). exact (fun F => F).
  - unfold read_m in H. destruct (m self); [discriminate |].
    injection H as <-. exact (fun F => F).
  - apply mapM_raise in H. destruct H as ([n [c b]] & _ & H).
    rewrite (vdiv_raise _ _ _ H). exact (fun F => F).
  - unfold read_W_inv in H. destruct (W_inv self); [discriminate |].
    injection H as <-. exact (fun F => F).
  - apply mapM_raise in H. destruct H as ([n [Sk t]] & _ & H).
    raise_cases H.
    + rewrite (div_raise _ _ _ H). exact (fun F => F).
    + rewrite (inv_raises _ _ H). exact (fun F => F).
  - discriminate.
Qed.

Lemma expected_pi_raise (self : VariationalGaussianMixture) (N_k : vector)
    (e : exn) :
  expected_pi X self N_k = Raise e -> e = ZeroDivisionError.
Proof.
  intros H. apply mapM_raise in H. destruct H as ([a n] & _ & H).
  exact (div_raise _ _ _ H).
Qed.

Lemma e_step_raise (l : Local.t) (e : exn) :
  e_step det digamma _log X l = Raise e -> e = ZeroDivisionError.
Proof.
  unfold e_step. intros H. raise_cases H.
  - apply mapM_raise in H. destruct H as (c & _ & H).
    exact (div_raise _ _ _ H).
  - apply mapM_raise in H. destruct H as (c & _ & H).
    exact (vdiv_raise _ _ _ H).
Qed.

Lemma round_raise (self self' : VariationalGaussianMixture) (E_z : matrix)
    (e : exn) :
  round self E_z = (self', Raise e) -> ~ is_value_error e.
Proof.
  unfold Mixture.round. intros H.
  destruct (m_step inv X self E_z) as [[N_k l] | e0] eqn:Em.
  - destruct reduce_components.
    + destruct (expected_pi X self N_k) as [E_pi | e1] eqn:Epi;
        cbn [bind] in H.
      * destruct (prune threshold self E_pi l) as [s1 l1].
        destruct (e_step det digamma _log X l1) as [E1 | e1] eqn:Ee;
          cbn [bind] in H; [discriminate |].
        injection H as _ <-. rewrite (e_step_raise _ _ Ee).
        exact (fun F => F).
      * injection H as _ <-. rewrite (expected_pi_raise _ _ _ Epi).
        exact (fun F => F).
    + destruct (e_step det digamma _log X l) as [E1 | e1] eqn:Ee;
        cbn [bind] in H; [discriminate |].
      injection H as _ <-. rewrite (e_step_raise _ _ Ee). exact (fun F => F).
  - injection H as _ <-. exact (m_step_raise _ _ _ Em).
Qed.

Lemma loop_raise (n : nat) :
  forall self E_z l self' e,
    loop n self E_z l = (self', Raise e) -> ~ is_value_error e.
Proof.
  induction n as [| n IH]; intros self E_z l self' e H.
  - cbn in H. discriminate.
  - rewrite loop_S in H.
    destruct (round self E_z) as [s [[E1 l1] | e1]] eqn:Er.
    + exact (IH _ _ _ _ _ H).
    + injection H as _ <-. exact (round_raise _ _ _ _ Er).
Qed.

(** *** [fit] as a whole *)

Variable initial_responsibility : option matrix.
Variable rand : matrix.

Abbreviation prepare := (prepare inv).
Abbreviation fit :=
  (fun self => fit inv det digamma _log self X initial_responsibility
                   reduce_components threshold rand).

(** The statements before the loop leave [K], [alpha] and [n_iter] alone. *)
Lemma prepare_keeps (self self1 : VariationalGaussianMixture)
    (o : outcome matrix) :
  prepare self X initial_responsibility rand = (self1, o) ->
  K self1 = K self /\ alpha self1 = alpha self
  /\ n_iter self1 = n_iter self.
Proof.
  unfold Mixture.prepare. intros H.
  destruct (match initial_responsibility with
            | Some E => Ok E
            | None => normalize_rows (map (map (fun u => u + 0.10)) rand)
            end) as [E_z | e0].
  2:{ injection H as <- _. repeat split; reflexivity. }
  destruct (m self) as [m0 |].
  - destruct (Nat.eqb (length m0) (shape1 X)).
    + destruct (W self) as [W0 |];
        [destruct (Nat.eqb (length W0) (shape1 X));
         [destruct (inv W0) |] |];
        injection H as <- _; repeat split; reflexivity.
    + injection H as <- _. repeat split; reflexivity.
  - cbn [W set_m] in H.
    destruct (W self) as [W0 |];
      [destruct (Nat.eqb (length W0) (shape1 X));
       [destruct (inv W0) |] |];
      injection H as <- _; repeat split; reflexivity.
Qed.

(** The two errors of the solver's own: which test raised them and what
    has happened to the object by then. *)
Lemma prepare_value_error (self self' : VariationalGaussianMixture)
    (e : exn) :
  prepare self X initial_responsibility rand = (self', Raise e) ->
  is_value_error e ->
  (e = m_mismatch /\ self' = self
   /\ exists m0, m self = Some m0 /\ length m0 <> shape1 X)
  \/ (e = W_mismatch
      /\ self' = match m self with
                 | None => set_m self (zeros (shape1 X))
                 | Some _ => self
                 end
      /\ exists W0, W self = Some W0 /\ length W0 <> shape1 X).
Proof.
  unfold Mixture.prepare. intros H Hv.
  destruct (match initial_responsibility with
            | Some E => Ok E
            | None => normalize_rows (map (map (fun u => u + 0.10)) rand)
            end) as [E_z | e0] eqn:Ez.
  2:{ injection H as _ <-. destruct initial_responsibility; [discriminate |].
      apply mapM_raise in Ez. destruct Ez as (c & _ & Ez).
      rewrite (vdiv_raise _ _ _ Ez) in Hv. contradiction. }
  destruct (m self) as [m0 |] eqn:Em.
  - destruct (Nat.eqb (length m0) (shape1 X)) eqn:Hm.
    + destruct (W self) as [W0 |] eqn:EW; [| discriminate].
      destruct (Nat.eqb (length W0) (shape1 X)) eqn:HW.
      * destruct (inv W0) as [Wi | e1] eqn:Ei; [discriminate |].
        injection H as _ <-. rewrite (inv_raises _ _ Ei) in Hv.
        contradiction.
      * injection H as <- <-. right. split; [reflexivity |].
        split; [reflexivity |].
        exists W0. split; [reflexivity |].
        apply Nat.eqb_neq. exact HW.
    + injection H as <- <-. left. split; [reflexivity |].
      split; [reflexivity |].
      exists m0. split; [reflexivity |]. apply Nat.eqb_neq. exact Hm.
  - cbn [W set_m] in H.
    destruct (W self) as [W0 |] eqn:EW; [| discriminate].
    destruct (Nat.eqb (length W0) (shape1 X)) eqn:HW.
    + destruct (inv W0) as [Wi | e1] eqn:Ei; [discriminate |].
      injection H as _ <-. rewrite (inv_raises _ _ Ei) in Hv.
      contradiction.
    + injection H as <- <-. right. split; [reflexivity |].
      split; [reflexivity |].
      exists W0. split; [reflexivity |]. apply Nat.eqb_neq. exact HW.
Qed.

(** A [ValueError] out of [fit] was raised before the loop. *)
Lemma fit_value_error (self self' : VariationalGaussianMixture) (e : exn) :
  fit self = Failed self' e ->
  is_value_error e ->
  prepare self X initial_responsibility rand = (self', Raise e).
Proof.
  unfold Mixture.fit. intros H Hv.
  destruct (Mixture.prepare inv self X initial_responsibility rand)
    as [self1 [E_z | e1]].
  - exfalso.
    destruct (loop (n_iter self1) self1 E_z None)
      as [self2 [[E1 l1] | e2]] eqn:El.
    + unfold store in H. destruct l1; [discriminate |].
      injection H as _ <-. exact Hv.
    + injection H as _ <-. exact (loop_raise _ _ _ _ _ _ El Hv).
  - injection H as <- <-. reflexivity.
Qed.

(** With no pass run, the locals are unbound when [fit] comes to store
    them: [self.r] is written and [self.alpha = alpha] fails. *)
Lemma mixture_fit_zero_passes (self self1 : VariationalGaussianMixture)
    (E_z : matrix) :
  n_iter self = O ->
  prepare self X initial_responsibility rand = (self1, Ok E_z) ->
  fit self = Failed (set_r self1 E_z) (UnboundLocalError "alpha").
Proof.
  intros Hn Hp. destruct (prepare_keeps _ _ _ Hp) as (_ & _ & Hn1).
  unfold Mixture.fit. rewrite Hp, Hn1, Hn. reflexivity.
Qed.

(** A completed [fit] has run at least one pass, and what it stores is in
    step with the [K] it stores. *)
Lemma fit_completed (self : VariationalGaussianMixture) (obj : Fitted.t) :
  length (alpha self) = K self ->
  fit self = Completed obj ->
  (0 < n_iter self)%nat
  /\ length (Fitted.alpha obj) = Fitted.K obj
  /\ length (Fitted.beta obj) = Fitted.K obj
  /\ length (Fitted.m_k obj) = Fitted.K obj
  /\ length (Fitted.W_k obj) = Fitted.K obj
  /\ length (Fitted.nu obj) = Fitted.K obj
  /\ length (Fitted.r obj) = length X
  /\ responsibilities (Fitted.K obj) (Fitted.r obj).
Proof.
  intros Ha H. unfold Mixture.fit in H.
  destruct (Mixture.prepare inv self X initial_responsibility rand)
    as [self1 [E_z | e1]] eqn:Hp; [| discriminate].
  destruct (prepare_keeps _ _ _ Hp) as (HK & HA & Hn).
  destruct (loop (n_iter self1) self1 E_z None)
    as [self2 [[E1 l1] | e2]] eqn:El; [| discriminate].
  unfold store in H. destruct l1 as [l1 |]; [| discriminate].
  injection H as <-.
  assert (Hpos : (0 < n_iter self1)%nat).
  { destruct (n_iter self1); [cbn in El; discriminate | lia]. }
  assert (Ha1 : length (alpha self1) = K self1) by (rewrite HK, HA; exact Ha).
  destruct (loop_shapes _ _ _ _ _ _ _ Ha1 El) as [_ Hs].
  destruct (Hs Hpos) as (l2 & El2 & (S1 & S2 & S3 & S4 & S5) & HE & HR).
  injection El2 as <-.
  cbn [Fitted.K Fitted.alpha Fitted.beta Fitted.m_k Fitted.W_k Fitted.nu
       Fitted.r].
  rewrite <- Hn.
  repeat (split; [assumption |]). exact HR.
Qed.

End Passes.

End Round.

End MixtureFacts.

(** ** VariationalGaussianMixture: the predictive density *)

Module DensityFacts.
Import Mixture.

Lemma power_positive (x y : R) : 0 < x -> power x y = Ok (Rpower x y).
Proof.
  intros Hx. unfold power.
  destruct (Rlt_dec 0 x) as [_ | C]; [reflexivity | contradiction].
Qed.

Lemma Rpower_pos (x y : R) : 0 < Rpower x y.
Proof. unfold Rpower. apply exp_pos. Qed.

Lemma index_nth {A : Type} (arr : list A) (i : nat) (x d : A) :
  index arr i = Ok x -> nth i arr d = x.
Proof.
  unfold index. destruct (nth_error arr i) as [y |] eqn:E; intros H.
  - injection H as <-. apply nth_error_nth. exact E.
  - discriminate.
Qed.

Section Density.

Variable gamma : R -> R.
Variable det : matrix -> R.

(** [X -= mu], row by row. *)
Abbreviation shifted mu X := (map (fun x : vector => vsub x mu) X).

(** What [_student] returns when its normalizing constant is defined: the
    kernel is the product of [1 + mahalanobis/nu] and [-D/2 - nu/2]. *)
Lemma student_returns (X : matrix) (D : nat) (mu : vector) (L : matrix)
    (nu : R) :
  gamma (nu / 2) <> 0 -> 0 <= det L -> 0 < nu ->
  _student gamma det X D mu L nu
  = (shifted mu X,
     Ok (map (fun x =>
                gamma (INR D / 2 + nu / 2) / gamma (nu / 2) * sqrt (det L)
                / Rpower (PI * nu) (INR D / 2)
                * ((1 + quad (vsub x mu) L / nu)
                   * (- INR D / 2 - nu / 2)))
             X)).
Proof.
  intros Hg Hd Hnu. unfold _student.
  rewrite div_ok by exact Hg. cbn [bind].
  rewrite power_half by exact Hd. cbn [bind].
  assert (Hpi : 0 < PI * nu) by (pose proof PI_RGT_0; nra).
  rewrite power_positive by exact Hpi. cbn [bind].
  pose proof (Rpower_pos (PI * nu) (INR D / 2)) as Hp.
  rewrite div_ok by lra.
  rewrite (mapM_total _ (fun d => (1 + d / nu) * (- INR D / 2 - nu / 2))).
  - cbn [bind]. rewrite !map_map. reflexivity.
  - apply Forall_forall. intros d _. rewrite div_ok by lra. reflexivity.
Qed.

(** A call of [_student] that returns has subtracted [mu] from every row
    of the array it was given. *)
Lemma student_shifts (X X' : matrix) (D : nat) (mu : vector) (L : matrix)
    (nu : R) (st : vector) :
  _student gamma det X D mu L nu = (X', Ok st) -> X' = shifted mu X.
Proof.
  unfold _student.
  match goal with
  | |- context [match ?c with Ok _ => _ | Raise _ => _ end] => destruct c
  end; intros H.
  - injection H as <- _. reflexivity.
  - discriminate.
Qed.

Lemma component_mean (self : Fitted.t) (D i : nat) (L : matrix)
    (alpha_i : R) (m_i : vector) (nu' : R) :
  component self D i = Ok (L, alpha_i, m_i, nu') ->
  m_i = nth i (Fitted.m_k self) [].
Proof.
  unfold component. intros H.
  repeat (apply bind_ok in H; destruct H as (? & ? & H)).
  injection H as _ _ <- _. symmetry. eapply index_nth. eassumption.
Qed.

(** The loop of [prob_density] hands each component the array the
    previous ones have shifted. *)
Lemma density_loop_shifts (self : Fitted.t) (D : nat) (todo : list nat) :
  forall X prob X' p,
    density_loop gamma det self D todo X prob = (X', Ok p) ->
    X' = fold_left (fun Y i => shifted (nth i (Fitted.m_k self) []) Y)
                   todo X.
Proof.
  induction todo as [| i todo IH]; intros X prob X' p H; cbn [density_loop] in H.
  - injection H as <- _. reflexivity.
  - destruct (component self D i) as [[[[L a_i] m_i] nu'] | e] eqn:Ec;
      [| discriminate].
    destruct (_student gamma det X D m_i L nu') as [X1 [st | e]] eqn:Es;
      [| discriminate].
    apply student_shifts in Es. apply component_mean in Ec. subst X1 m_i.
    cbn [fold_left]. exact (IH _ _ _ _ H).
Qed.

End Density.

Lemma gamma_half_or_one_pos (x : R) : 0 < gamma_half_or_one x.
Proof.
  unfold gamma_half_or_one. destruct (Req_dec_T x (1 / 2)).
  - apply sqrt_lt_R0. exact PI_RGT_0.
  - lra.
Qed.

(** A fitted object with one component in dimension 1: mean 1, unit scale
    matrix, and [alpha = beta = nu = 1]. *)
Abbreviation unit_component :=
  (Fitted.mk 1 [1] [1] [[1]] [[[1]]] [1] [[1]] (Some [0]) None (Some [[1]]) 1).

(** [prob_density] on this object and the array [[[2.]]] returns, and the
    array is [[[1.]]] afterwards. *)
Lemma unit_component_density :
  exists p,
    prob_density gamma_half_or_one det1 unit_component [[2]]
    = ([[2 - 1]], Ok p).
Proof.
  unfold prob_density. cbn [Fitted.K seq density_loop shape1 shape0 length].
  unfold component.
  cbn -[div Rplus Rmult Rminus Rdiv INR mscale].
  rewrite div_ok by (cbn [INR]; lra). cbn [bind].
  rewrite (student_returns gamma_half_or_one det1).
  - cbn [map vsub zipWith]. unfold vdiv.
    rewrite (mapM_total _ (fun c => c / sum [1])).
    + eexists. reflexivity.
    + apply Forall_forall. intros c _. apply div_ok.
      rewrite sum_cons, sum_nil. lra.
  - pose proof (gamma_half_or_one_pos ((1 + 1 - INR 1) / 2)). lra.
  - cbn [mscale vscale map det1 INR]. lra.
  - cbn [INR]. lra.
Qed.

End DensityFacts.

(** ** VariationalGaussianMixture: a run on one sample *)

Module MixtureRuns.
Import Mixture.

(** The object [VariationalGaussianMixture(K=1, n_iter=n)] once [fit] has
    run its statements before the loop on the data [[[0.]]]. *)
Abbreviation one_point n :=
  (mkSolver 1 [1] (Some [0]) 1 None 1 n (Some [[1]]) None).

Lemma run_prepare (n : nat) (rand : matrix) :
  prepare inv1 (init 1 None None 1 None None n) [[0]] (Some [[1]]) rand
  = (one_point n, Ok [[1]]).
Proof. reflexivity. Qed.

Lemma run_m_step (n : nat) :
  exists N_k l, m_step inv1 [[0]] (one_point n) [[1]] = Ok (N_k, l).
Proof.
  unfold m_step.
  cbn -[div inv1 Rplus Rmult Rminus Rdiv vdiv mdiv].
  rewrite vdiv_ok by lra.
  cbn -[div inv1 Rplus Rmult Rminus Rdiv vdiv mdiv].
  rewrite mdiv_ok by lra.
  cbn -[div inv1 Rplus Rmult Rminus Rdiv vdiv mdiv].
  rewrite vdiv_ok by lra.
  cbn -[div inv1 Rplus Rmult Rminus Rdiv vdiv mdiv].
  rewrite div_ok by lra.
  cbn -[div inv1 Rplus Rmult Rminus Rdiv vdiv mdiv].
  unfold inv1.
  match goal with
  | |- context [Req_dec_T ?x 0] => destruct (Req_dec_T x 0) as [E | NE]
  end.
  - exfalso. lra.
  - cbn [bind]. eauto.
Qed.

(** On this run [E_pi = (1 + 1)/(1*1 + 1) = 1]. *)
Lemma run_expected_pi (n : nat) :
  exists e, expected_pi [[0]] (one_point n) (map sum (transpose 1 [[1]]))
            = Ok [e]
            /\ e = 1.
Proof.
  unfold expected_pi.
  cbn -[div Rplus Rmult Rdiv INR].
  rewrite div_ok by (cbn [INR]; lra).
  cbn [bind]. eexists. split; [reflexivity |]. cbn [INR]. lra.
Qed.

Section Passes.

Variables (det : matrix -> R) (digamma _log : R -> R).
Variable n : nat.
Variable threshold : R.

(** A pass on this run returns, whether it prunes or not. *)
Lemma run_round (reduce_components : bool) :
  exists self' E_z' l',
    round inv1 det digamma _log [[0]] reduce_components threshold
          (one_point n) [[1]]
    = (self', Ok (E_z', l')).
Proof.
  destruct (run_m_step n) as (N_k & l & Em).
  destruct (MixtureFacts.m_step_shapes inv1 [[0]] (one_point n) [[1]] N_k l
              eq_refl Em)
    as (HN & _ & _ & _ & Hb).
  apply (MixtureFacts.round_total inv1 det digamma _log [[0]]
           reduce_components threshold _ _ N_k l Em).
  - intros _. destruct (run_expected_pi n) as (e & He & _).
    exists [e]. rewrite HN. exact He.
  - rewrite Hb, HN. cbn -[Rplus]. constructor; [lra | constructor].
Qed.

(** With a threshold above 1 the pass prunes the only component. *)
Lemma run_round_prunes :
  1 < threshold ->
  round inv1 det digamma _log [[0]] true threshold (one_point n) [[1]]
  = (set_alpha_K (one_point n) [] 0,
     Ok ([[]], Local.mk [] [] [] [] [])).
Proof.
  intros Hthr.
  destruct (run_m_step n) as (N_k & l & Em).
  destruct (MixtureFacts.m_step_shapes inv1 [[0]] (one_point n) [[1]] N_k l
              eq_refl Em)
    as (HN & _).
  destruct (run_expected_pi n) as (e & He & He1).
  cbn [K] in HN. rewrite <- HN in He.
  apply (MixtureFacts.round_prunes_all inv1 det digamma _log [[0]]
           true threshold _ _ N_k [e] l eq_refl Em He).
  constructor; [lra | constructor].
Qed.

End Passes.

End MixtureRuns.

(** ** VariationalLogisticRegression: the local bound *)

Module LogisticFacts.
Import Logistic.

Lemma sigmoid_denominator (x : R) : 0 < 1 + exp (- x).
Proof. pose proof (exp_pos (- x)). lra. Qed.

Lemma sigmoid_opp (x : R) : sigmoid (- x) = 1 - sigmoid x.
Proof.
  unfold sigmoid. rewrite Ropp_involutive, exp_Ropp.
  pose proof (exp_pos x) as Hx.
  assert (0 < / exp x) by (apply Rinv_0_lt_compat; exact Hx).
  field. split; lra.
Qed.

Lemma sigmoid_zero : sigmoid 0 = 1 / 2.
Proof. unfold sigmoid. rewrite Ropp_0, exp_0. lra. Qed.

(** Away from 0 the bound is the quotient of the source. *)
Lemma lamda_at_nonzero (xi : R) :
  xi <> 0 -> lamda_at xi = Ok ((sigmoid xi - 0.5) / (2 * xi)).
Proof. intros H. unfold lamda_at. apply div_ok. lra. Qed.

(** The bound is even: the outcomes at [xi] and [- xi] coincide. *)
Lemma lamda_at_even (xi : R) : lamda_at (- xi) = lamda_at xi.
Proof.
  destruct (Req_dec_T xi 0) as [-> | Hxi].
  - rewrite Ropp_0. reflexivity.
  - rewrite !lamda_at_nonzero by lra. f_equal.
    rewrite sigmoid_opp. replace 0.5 with (/ 2) by lra. field. exact Hxi.
Qed.

(** At 0 the numerator vanishes and so does the divisor. *)
Lemma lamda_at_zero : lamda_at 0 = Raise ZeroDivisionError.
Proof.
  unfold lamda_at. replace (2 * 0) with 0 by lra. apply div_zero.
Qed.

(** An array [xi] of zeros makes [_lamda] divide by zero. *)
Lemma _lamda_zero_entry (xi : vector) :
  Forall (fun x => x = 0) xi -> xi <> [] ->
  _lamda xi = Raise ZeroDivisionError.
Proof.
  intros Hall Hne. destruct xi as [| x xi]; [contradiction |].
  inversion Hall as [| ? ? Hx _]; subst.
  unfold _lamda. cbn [mapM]. rewrite lamda_at_zero. reflexivity.
Qed.

Section Fit.

Variables Base Labels : Type.
Variable _onehot_to_label : Base -> Labels -> Base * outcome vector.
Variable make_design_mat : Base -> matrix -> matrix.
Variable inv : matrix -> outcome matrix.

(** The test on [init_xi] comes after the label conversion and before
    anything of the solver's own is written. *)
Lemma fit_init_xi_mismatch (self : VariationalLogisticRegression Base)
    (X : matrix) (y : Labels) (v : vector) (optimize_param : bool)
    (init_a init_b : R) (randn : vector) (base' : Base) (y' : vector) :
  _onehot_to_label (base self) y = (base', Ok y') ->
  length v <> shape0 X ->
  fit _onehot_to_label make_design_mat inv self X y (Some v) optimize_param
      init_a init_b randn
  = (set_base self base', Raise init_xi_mismatch).
Proof.
  intros Hy Hv. unfold fit, prepare. rewrite Hy.
  apply Nat.eqb_neq in Hv. rewrite Hv. reflexivity.
Qed.

(** Whether the loop ends by [break] or by exhausting [range(max_iter)],
    [fit] stores the last [xi] and returns. *)
Lemma fit_stores_last_xi (self self1 self2 : VariationalLogisticRegression Base)
    (X : matrix) (y : Labels) (init_xi : option vector)
    (optimize_param : bool) (init_a init_b : R) (randn : vector)
    (y' xi0 xi' : vector) (ex : loop_exit) :
  prepare _onehot_to_label self X y init_xi init_a init_b randn
  = (self1, Ok (y', xi0)) ->
  loop inv (make_design_mat (base self1) X) y' optimize_param init_a init_b
       (max_iter self1) self1 xi0
  = (self2, Ok (ex, xi')) ->
  fit _onehot_to_label make_design_mat inv self X y init_xi optimize_param
      init_a init_b randn
  = (set_xi self2 xi', Ok tt).
Proof.
  intros Hp Hl. unfold fit. rewrite Hp, Hl. reflexivity.
Qed.

(** With [max_iter = 0] the loop is exhausted at once and [fit] stores the
    starting [xi]: [xi] is bound before the loop. *)
Lemma loop_zero_passes (design_mat : matrix) (y : vector)
    (optimize_param : bool) (init_a init_b : R)
    (self : VariationalLogisticRegression Base) (xi0 : vector) :
  loop inv design_mat y optimize_param init_a init_b 0 self xi0
  = (self, Ok (Exhausted, xi0)).
Proof. reflexivity. Qed.

End Fit.

End LogisticFacts.

(** * The solvers against their specification *)

Section Gauss1DRuns.
Import Gauss1D Gauss1DFacts.

Lemma gauss1d_loop_S (self : VariationalGauss1D) (N Xs X2 : R) (n : nat)
    (f : frame) :
  loop self N Xs X2 (S n) f
  = ('(brk, f') <- body self N Xs X2 f ;;
     if (brk : bool) then Ok (Broke, f') else loop self N Xs X2 n f').
Proof. reflexivity. Qed.

(** A first pass that converges at once: one sample at 0, flat prior,
    [init_tau = -1/2]. *)
Lemma negative_guess_pass (n : nat) (thr : R) :
  0 < thr ->
  body (mkSolver 0 0 0 0 n thr) 1 0 0 (mkFrame (-1/2) 0 (-1/2) None None)
  = Ok (true, mkFrame (-1/2) 0 (-1/2) (Some 1) (Some (-2))).
Proof.
  intros Hthr. unfold body. cbn [a b mu lamda threshold E_tau mu_N lam_N].
  rewrite div_ok by lra. cbn [bind].
  replace (0 + 0.5 * (0 - 2 * 0 * 0 + 1 * (0 ^ 2 + 1 / ((-1/2 + 1) * (-1/2)))
                      + 0 * (0 ^ 2 + 1 / ((-1/2 + 1) * (-1/2)) - 2 * 0 * 0
                             + 0 ^ 2)))
    with (-2) by lra.
  replace (0 + (1 + 1) / 2) with 1 by lra.
  rewrite div_ok by lra. cbn [bind].
  rewrite div_ok by lra. cbn [bind].
  replace ((0 + 1) * (1 / -2)) with (-1/2) by lra.
  replace ((0 * 0 + 0) / (0 + 1)) with 0 by lra.
  replace ((-1/2 - -1/2) ^ 2 + (0 - 0) ^ 2) with 0 by lra.
  rewrite power_half by lra. cbn [bind]. rewrite sqrt_0.
  replace (1 / -2) with (-1/2) by lra.
  destruct (Rlt_dec 0 thr) as [_ | C]; [reflexivity | contradiction].
Qed.

Lemma negative_guess_fit :
  fit (mkSolver 0 0 0 0 1000 0.01) [0] (-1/2)
  = (mkSolver 1 (-2) 0 (-1/2) 1000 0.01, Ok tt).
Proof.
  unfold fit, run, passes. cbn [lamda mu max_iter length map].
  replace (sum [0 ^ 2]) with 0 by (unfold sum; cbn [fold_right]; lra).
  replace (sum [0]) with 0 by (unfold sum; cbn [fold_right]; lra).
  change (INR 1) with 1.
  rewrite div_ok by lra. cbn [bind].
  replace ((0 * 0 + 0) / (0 + 1)) with 0 by lra.
  replace ((0 + 1) * (-1 / 2)) with (-1 / 2) by lra.
  change 1000%nat with (S 999). rewrite gauss1d_loop_S.
  rewrite negative_guess_pass by lra. cbn [bind].
  reflexivity.
Qed.

End Gauss1DRuns.

(** C7.  Flat prior [a = b = mu = lamda = 0], observations
    [1, 2, 3, 4, 5], initial precision guess 1: whatever the threshold and
    the (positive) iteration cap, [fit] returns, and it has stored the
    posterior mean 3, the sample mean, and the posterior shape
    [a_0 + (N + 1)/2 = 3]. *)
Theorem gauss1d_end_to_end (n : nat) (thr : R) :
  (0 < n)%nat ->
  exists st,
    Gauss1D.fit (Gauss1D.mkSolver 0 0 0 0 n thr) [1; 2; 3; 4; 5] 1
    = (st, Ok tt)
    /\ Gauss1D.mu st = 3 /\ Gauss1D.a st = 3.
Proof.
  intros Hn.
  destruct (Gauss1DFacts.fit_positive
              (Gauss1D.mkSolver 0 0 0 0 n thr) [1; 2; 3; 4; 5])
    with (init_tau := 1) as (st & E & Ea & _ & _ & Em);
    cbn [Gauss1D.a Gauss1D.b Gauss1D.lamda Gauss1D.max_iter];
    try lra; try discriminate; try exact Hn.
  exists st. split; [exact E |].
  cbn [Gauss1D.a Gauss1D.lamda Gauss1D.mu length] in Ea, Em.
  unfold sum in Em. cbn [fold_right] in Em. simpl INR in Ea, Em.
  split; [rewrite Em | rewrite Ea]; lra.
Qed.

(** The run of C7 under the defaults of the constructor,
    [max_iter = 1000] and [threshold = 1e-2]. *)
Lemma gauss1d_end_to_end_defaults :
  (0 < 1000)%nat
  /\ exists st,
       Gauss1D.fit (Gauss1D.mkSolver 0 0 0 0 1000 0.01) [1; 2; 3; 4; 5] 1
       = (st, Ok tt)
       /\ Gauss1D.mu st = 3 /\ Gauss1D.a st = 3.
Proof.
  split; [lia | apply (gauss1d_end_to_end 1000 0.01); lia].
Defined.

(** C9 as stated fails: with the flat prior, the single observation 0 and
    the initial guess [-1/2], [fit] converges in its first pass and stores
    [b = -2] and [lamda = -1/2]. *)
Lemma gauss1d_negative_guess_stores_negative_b :
  [0] <> []
  /\ exists st,
       Gauss1D.fit (Gauss1D.mkSolver 0 0 0 0 1000 0.01) [0] (-1/2)
       = (st, Ok tt)
       /\ ~ (0 < Gauss1D.b st) /\ ~ (0 < Gauss1D.lamda st).
Proof.
  split; [discriminate |].
  eexists. split; [apply negative_guess_fit |].
  cbn [Gauss1D.b Gauss1D.lamda]. split; lra.
Qed.

Module Gauss1D64Facts.
Import PrimFloat.
Local Open Scope float_scope.

(** Positivity of [b] and [lamda] is an invariant of exact arithmetic.  In
    binary64, with the flat prior, five observations equal to [1e8] (so
    [N = 5], [X.sum() = 5e8] and [np.sum(X**2) = 5e16], all exact) and the
    initial guess 1, the expanded sum of the first pass cancels: [b_N] is
    [0.0] and [lam_N] is [inf], where exact arithmetic gives
    [b_N = 1/4]. *)
Lemma first_pass_cancels :
  Gauss1D64.first_pass 0 0 0 0 5 5e8 5e16 1 = (3, 0, infinity).
Proof. vm_compute. reflexivity. Qed.

End Gauss1D64Facts.

(** C9, amended.  In exact arithmetic, with prior hyperparameters
    [a, b, lamda >= 0], a positive initial guess and at least one
    observation: after any positive number of passes of the loop the frame
    holds [a_N > 0], [b_N > 0] and [lam_N > 0], and when [max_iter >= 1]
    the call returns with [a > 0], [b > 0] and [lamda > 0] stored. *)
Theorem gauss1d_posterior_positive (self : Gauss1D.VariationalGauss1D)
    (X : list R) (init_tau : R) :
  0 <= Gauss1D.a self -> 0 <= Gauss1D.b self -> 0 <= Gauss1D.lamda self ->
  X <> [] -> 0 < init_tau ->
  (forall k, (0 < k)%nat ->
     exists ex f aN bN,
       Gauss1D.passes k self X init_tau = Ok (ex, f)
       /\ Gauss1D.a_N f = Some aN /\ Gauss1D.b_N f = Some bN
       /\ 0 < aN /\ 0 < bN /\ 0 < Gauss1D.lam_N f)
  /\ ((0 < Gauss1D.max_iter self)%nat ->
      exists st,
        Gauss1D.fit self X init_tau = (st, Ok tt)
        /\ 0 < Gauss1D.a st /\ 0 < Gauss1D.b st /\ 0 < Gauss1D.lamda st).
Proof.
  intros Ha Hb Hl HX Ht.
  pose proof (Gauss1DFacts.N_pos X HX) as HN.
  split.
  - intros k Hk.
    destruct (Gauss1DFacts.passes_positive self X Ha Hb Hl HX k init_tau Ht)
      as (ex & f & E & _ & Hu).
    destruct (Hu Hk) as (Ea & (bN & Eb & HbN) & _ & Hlam).
    exists ex, f, (Gauss1D.a self + (INR (length X) + 1) / 2), bN.
    repeat split; try assumption. lra.
  - intros Hn.
    destruct (Gauss1DFacts.fit_positive self X Ha Hb Hl HX init_tau Ht Hn)
      as (st & E & Ea & Hbst & Hlst & _).
    exists st. repeat split; try assumption. rewrite Ea. lra.
Qed.

(** C9, amended, on the run of the end-to-end scenario. *)
Lemma gauss1d_posterior_positive_scenario :
  (0 <= 0 /\ [1; 2; 3; 4; 5] <> [] /\ 0 < 1)
  /\ ((forall k, (0 < k)%nat ->
        exists ex f aN bN,
          Gauss1D.passes k (Gauss1D.mkSolver 0 0 0 0 1000 0.01)
                         [1; 2; 3; 4; 5] 1 = Ok (ex, f)
          /\ Gauss1D.a_N f = Some aN /\ Gauss1D.b_N f = Some bN
          /\ 0 < aN /\ 0 < bN /\ 0 < Gauss1D.lam_N f)
      /\ ((0 < 1000)%nat ->
          exists st,
            Gauss1D.fit (Gauss1D.mkSolver 0 0 0 0 1000 0.01)
                        [1; 2; 3; 4; 5] 1 = (st, Ok tt)
            /\ 0 < Gauss1D.a st /\ 0 < Gauss1D.b st
            /\ 0 < Gauss1D.lamda st)).
Proof.
  assert (H0 : 0 <= 0) by lra.
  assert (H1 : 0 < 1) by lra.
  assert (HX : [1; 2; 3; 4; 5] <> ([] : list R)) by discriminate.
  split.
  - repeat split; assumption.
  - exact (gauss1d_posterior_positive (Gauss1D.mkSolver 0 0 0 0 1000 0.01)
             [1; 2; 3; 4; 5] 1 H0 H0 H0 HX H1).
Defined.

(** C3.  At [xi = 0] the local bound is not the limit 1/8: the source
    evaluates [(sigmoid(0) - 0.5)/(2*0)], a division of zero by zero, both
    at a single entry and on the array [[0]]. *)
Theorem lamda_divides_by_zero_at_zero :
  Logistic.lamda_at 0 = Raise ZeroDivisionError
  /\ Logistic.lamda_at 0 <> Ok (1 / 8)
  /\ Logistic._lamda [0] = Raise ZeroDivisionError.
Proof.
  split; [apply LogisticFacts.lamda_at_zero |].
  split.
  - rewrite LogisticFacts.lamda_at_zero. discriminate.
  - apply LogisticFacts._lamda_zero_entry.
    + constructor; [reflexivity | constructor].
    + discriminate.
Qed.

(** C5 as stated fails: a pruning pass may leave no component.  One
    sample [0.], one component, [reduce_components=True] and threshold 2:
    the only [E_pi] is 1, the pass drops the component, and the
    responsibilities [fit] stores are one empty row, which sums to 0. *)
Lemma gmm_all_pruned_row_sums_to_zero :
  exists obj,
    Mixture.fit inv1 det1 psi_leading natural_log
      (Mixture.init 1 None None 1 None None 1) [[0]] (Some [[1]]) true 2 []
    = Mixture.Completed obj
    /\ Mixture.Fitted.r obj = [[]]
    /\ ~ Forall normalized (Mixture.Fitted.r obj).
Proof.
  eexists. split; [| split].
  - unfold Mixture.fit. rewrite MixtureRuns.run_prepare.
    cbn [Mixture.n_iter]. rewrite MixtureFacts.loop_S.
    rewrite MixtureRuns.run_round_prunes by lra.
    cbn [Mixture.loop]. unfold Mixture.store. reflexivity.
  - reflexivity.
  - cbn [Mixture.Fitted.r]. intros H. inversion H as [| ? ? [Hs _] _].
    rewrite sum_nil in Hs. lra.
Qed.

(** C5, amended.  In exact arithmetic, on an object whose prior [alpha]
    has [K] entries, and for the runs in which no division has a zero
    divisor and [np.linalg.inv] does not fail (the runs of the loop and of
    [fit] that return here): after every positive number of passes of the
    loop of a [fit] call, and in what a completed [fit] stores, each row
    of the responsibilities has as many entries as there are components
    left, and whenever at least one component is left it sums to 1 with
    all entries in [0, 1]. *)
Theorem gmm_responsibilities_normalized
    (inv : matrix -> outcome matrix) (det : matrix -> R)
    (digamma _log : R -> R) (X : matrix)
    (initial_responsibility : option matrix) (reduce_components : bool)
    (threshold : R) (rand : matrix)
    (self : Mixture.VariationalGaussianMixture) :
  length (Mixture.alpha self) = Mixture.K self ->
  (forall self1 E0 k s E l,
     Mixture.prepare inv self X initial_responsibility rand = (self1, Ok E0) ->
     (0 < k)%nat ->
     Mixture.loop inv det digamma _log X reduce_components threshold
                  k self1 E0 None = (s, Ok (E, l)) ->
     Mixture.responsibilities (Mixture.K s) E)
  /\ (forall obj,
        Mixture.fit inv det digamma _log self X initial_responsibility
                    reduce_components threshold rand
        = Mixture.Completed obj ->
        Mixture.responsibilities (Mixture.Fitted.K obj)
                                 (Mixture.Fitted.r obj)).
Proof.
  intros Ha. split.
  - intros self1 E0 k s E l Hp Hk Hl.
    destruct (MixtureFacts.prepare_keeps inv X initial_responsibility rand
                self self1 (Ok E0) Hp) as (HK & HA & _).
    assert (Ha1 : length (Mixture.alpha self1) = Mixture.K self1)
      by (rewrite HK, HA; exact Ha).
    destruct (MixtureFacts.loop_shapes inv det digamma _log X
                reduce_components threshold k self1 E0 None s E l Ha1 Hl)
      as [_ Hs].
    destruct (Hs Hk) as (l1 & _ & _ & _ & HR). exact HR.
  - intros obj Hf.
    apply (MixtureFacts.fit_completed inv det digamma _log X
             reduce_components threshold initial_responsibility rand
             self obj Ha Hf).
Qed.

(** C5, amended, on a run that keeps its component: one sample, one
    component, one pass, no pruning. *)
Lemma gmm_responsibilities_one_point :
  length [1] = 1%nat
  /\ exists s E l,
       Mixture.loop inv1 det1 psi_leading natural_log [[0]] false 0
                    1 (MixtureRuns.one_point 1) [[1]] None = (s, Ok (E, l))
       /\ Mixture.responsibilities (Mixture.K s) E.
Proof.
  split; [reflexivity |].
  destruct (MixtureRuns.run_round det1 psi_leading natural_log 1 0 false)
    as (s & E & l & Hr).
  exists s, E, (Some l).
  assert (Hl : Mixture.loop inv1 det1 psi_leading natural_log [[0]] false 0
                 1 (MixtureRuns.one_point 1) [[1]] None
               = (s, Ok (E, Some l))).
  { rewrite MixtureFacts.loop_S, Hr. reflexivity. }
  split; [exact Hl |].
  exact (proj1 (gmm_responsibilities_normalized inv1 det1 psi_leading
                  natural_log [[0]] (Some [[1]]) false 0 []
                  (Mixture.init 1 None None 1 None None 1) eq_refl)
               (MixtureRuns.one_point 1) [[1]] 1%nat s E (Some l)
               (MixtureRuns.run_prepare 1 []) (Nat.lt_0_1) Hl).
Defined.

(** C6.  In a [fit] call with [reduce_components] on an object whose prior
    [alpha] has [K] entries, take any pass of the loop that returns, [s]
    being the object when the pass starts and [s'] when it ends.  The pass
    has computed [E_pi[k] = (alpha0[k] + N_k[k])/(K*alpha0[k] + N)] from the
    column sums [N_k] of [E_z]; it leaves in [K] the number of components
    whose [E_pi] is at least the threshold, and exactly that many entries
    in the prior [alpha], in the locals [alpha], [beta], [m_k], [W_k], [nu]
    that the E step then reads, and in each row of the responsibilities
    that step produces. *)
Theorem gmm_pruning_keeps_arrays_in_step
    (inv : matrix -> outcome matrix) (det : matrix -> R)
    (digamma _log : R -> R) (X : matrix)
    (initial_responsibility : option matrix) (threshold : R) (rand : matrix)
    (self self1 s s' : Mixture.VariationalGaussianMixture) (k : nat)
    (E0 E_z E_z' : matrix) (l0 : option Mixture.Local.t)
    (l' : Mixture.Local.t) :
  length (Mixture.alpha self) = Mixture.K self ->
  Mixture.prepare inv self X initial_responsibility rand = (self1, Ok E0) ->
  Mixture.loop inv det digamma _log X true threshold k self1 E0 None
  = (s, Ok (E_z, l0)) ->
  Mixture.round inv det digamma _log X true threshold s E_z
  = (s', Ok (E_z', l')) ->
  exists N_k l E_pi,
    Mixture.m_step inv X s E_z = Ok (N_k, l)
    /\ N_k = map sum (transpose (Mixture.K s) E_z)
    /\ E_pi = map (fun '(a, n) =>
                     (a + n) / (INR (Mixture.K s) * a + INR (shape0 X)))
                  (combine (Mixture.alpha s) N_k)
    /\ length E_pi = Mixture.K s
    /\ Mixture.K s'
       = length (filter (fun e => if Rle_dec threshold e then true else false)
                        E_pi)
    /\ length (Mixture.alpha s') = Mixture.K s'
    /\ Mixture.shaped (Mixture.K s') l'
    /\ Mixture.e_step det digamma _log X l' = Ok E_z'
    /\ Forall (fun row => length row = Mixture.K s') E_z'.
Proof.
  intros Hself Hp Hl Hr.
  destruct (MixtureFacts.prepare_keeps inv X initial_responsibility rand
              self self1 (Ok E0) Hp) as (HK1 & HA1 & _).
  assert (Ha1 : length (Mixture.alpha self1) = Mixture.K self1)
    by (rewrite HK1, HA1; exact Hself).
  destruct (MixtureFacts.loop_shapes inv det digamma _log X true threshold
              k self1 E0 None s E_z l0 Ha1 Hl) as [Ha _].
  destruct (MixtureFacts.round_shapes inv det digamma _log X true threshold
              s s' E_z E_z' l' Ha Hr) as (Ha' & Hl' & _ & HR).
  apply MixtureFacts.round_inv in Hr.
  destruct Hr as (N_k & l & Em & (E_pi & Epi & Ep) & Ee).
  destruct (MixtureFacts.m_step_shapes inv X s E_z N_k l Ha Em)
    as (HN & HNl & _).
  pose proof (MixtureFacts.expected_pi_length X s N_k E_pi Epi) as HL.
  assert (HK : length E_pi = Mixture.K s) by (rewrite HL; lia).
  exists N_k, l, E_pi.
  split; [exact Em |]. split; [exact HN |].
  split; [exact (MixtureFacts.expected_pi_values X s N_k E_pi Epi) |].
  split; [exact HK |].
  split.
  { rewrite <- MixtureFacts.count_keep_mask.
    unfold Mixture.prune in Ep. injection Ep as <- _. reflexivity. }
  split; [exact Ha' |]. split; [exact Hl' |]. split; [exact Ee |].
  apply (Forall_impl _ (P := fun row =>
           length row = Mixture.K s'
           /\ ((1 <= Mixture.K s')%nat -> normalized row)));
    [intros row [H _]; exact H | exact HR].
Qed.

(** C6 on the first pass of a [fit] call that keeps its component: one
    sample, one component, threshold 1/2. *)
Lemma gmm_pruning_one_point :
  length [1] = 1%nat
  /\ exists s' E_z' l',
       Mixture.round inv1 det1 psi_leading natural_log [[0]] true (1/2)
                     (MixtureRuns.one_point 1) [[1]]
       = (s', Ok (E_z', l'))
       /\ Mixture.K s' = 1%nat
       /\ Mixture.shaped (Mixture.K s') l'.
Proof.
  split; [reflexivity |].
  destruct (MixtureRuns.run_round det1 psi_leading natural_log 1 (1/2) true)
    as (s' & E_z' & l' & Hr).
  exists s', E_z', l'. split; [exact Hr |].
  destruct (gmm_pruning_keeps_arrays_in_step inv1 det1 psi_leading
              natural_log [[0]] (Some [[1]]) (1/2) []
              (Mixture.init 1 None None 1 None None 1)
              (MixtureRuns.one_point 1) (MixtureRuns.one_point 1) s' 0
              [[1]] [[1]] E_z' None l' eq_refl
              (MixtureRuns.run_prepare 1 []) eq_refl Hr)
    as (N_k & l & E_pi & _ & HN & HE & _ & HK & _ & Hs & _).
  split; [| exact Hs].
  rewrite HK, HE, HN. cbn -[Rle_dec Rplus Rmult Rdiv INR].
  match goal with
  | |- context [Rle_dec ?t ?e] => destruct (Rle_dec t e) as [_ | C]
  end; [reflexivity |].
  exfalso. apply C. cbn [INR]. lra.
Defined.

(** C10.  Nothing bounds [K] from below.  When every [E_pi] of a pruning
    pass is below the threshold, the pass sets [K = 0], empties the prior
    [alpha] and the five locals, and its E step returns one empty row of
    responsibilities per sample without an exception; every later pass
    does the same on the empty arrays. *)
Theorem gmm_pruning_can_drop_every_component
    (inv : matrix -> outcome matrix) (det : matrix -> R)
    (digamma _log : R -> R) (X : matrix) (threshold : R)
    (self : Mixture.VariationalGaussianMixture) (E_z : matrix)
    (N_k E_pi : vector) (l : Mixture.Local.t) :
  Mixture.m_step inv X self E_z = Ok (N_k, l) ->
  Mixture.expected_pi X self N_k = Ok E_pi ->
  Forall (fun e => e < threshold) E_pi ->
  exists self',
    Mixture.round inv det digamma _log X true threshold self E_z
    = (self', Ok (map (fun _ => []) X, Mixture.Local.mk [] [] [] [] []))
    /\ Mixture.K self' = O
    /\ Mixture.alpha self' = []
    /\ forall E,
         Mixture.round inv det digamma _log X true threshold self' E
         = (self', Ok (map (fun _ => []) X, Mixture.Local.mk [] [] [] [] [])).
Proof.
  intros Em Epi Hlt.
  exists (Mixture.set_alpha_K self [] 0).
  split; [| split; [reflexivity | split; [reflexivity |]]].
  - exact (MixtureFacts.round_prunes_all inv det digamma _log X true
             threshold self E_z N_k E_pi l eq_refl Em Epi Hlt).
  - intros E.
    destruct (MixtureFacts.m_step_reads inv X self E_z N_k l Em)
      as (m0 & Wi & Hm & HW).
    exact (MixtureFacts.round_no_component inv det digamma _log X true
             threshold (Mixture.set_alpha_K self [] 0) E m0 Wi
             eq_refl eq_refl Hm HW).
Qed.

(** C10 on one sample and one component with threshold 2: the only
    [E_pi] is 1. *)
Lemma gmm_pruning_drops_the_only_component :
  exists N_k l E_pi,
    (Mixture.m_step inv1 [[0]] (MixtureRuns.one_point 1) [[1]] = Ok (N_k, l)
     /\ Mixture.expected_pi [[0]] (MixtureRuns.one_point 1) N_k = Ok E_pi
     /\ Forall (fun e => e < 2) E_pi)
    /\ exists self',
         Mixture.round inv1 det1 psi_leading natural_log [[0]] true 2
                       (MixtureRuns.one_point 1) [[1]]
         = (self', Ok ([[]], Mixture.Local.mk [] [] [] [] []))
         /\ Mixture.K self' = O.
Proof.
  destruct (MixtureRuns.run_m_step 1) as (N_k & l & Em).
  destruct (MixtureFacts.m_step_shapes inv1 [[0]] (MixtureRuns.one_point 1)
              [[1]] N_k l eq_refl Em) as (HN & _).
  destruct (MixtureRuns.run_expected_pi 1) as (e & He & He1).
  cbn [Mixture.K] in HN. rewrite <- HN in He.
  assert (Hlt : Forall (fun e => e < 2) [e])
    by (constructor; [lra | constructor]).
  exists N_k, l, [e]. split; [repeat split; assumption |].
  destruct (gmm_pruning_can_drop_every_component inv1 det1 psi_leading
              natural_log [[0]] 2 (MixtureRuns.one_point 1) [[1]] N_k [e] l
              Em He Hlt) as (self' & Hr & HK & _).
  exists self'. split; [exact Hr | exact HK].
Defined.

(** C1.  The density [_student] computes is not the Student-t closed form:
    its kernel is the product of [1 + mahalanobis/nu] and [-D/2 - nu/2],
    not the power.  Where the closed form is defined and positive (positive
    values of Gamma, [|L| > 0], [nu > 0], a non-negative Mahalanobis
    distance at every row), each value [_student] returns is negative. *)
Theorem student_kernel_is_a_product
    (gamma : R -> R) (det : matrix -> R) (X : matrix) (D : nat)
    (mu : vector) (L : matrix) (nu : R) :
  0 < gamma (INR D / 2 + nu / 2) -> 0 < gamma (nu / 2) ->
  0 < det L -> 0 < nu ->
  Forall (fun x => 0 <= quad (vsub x mu) L) X ->
  exists st,
    Mixture._student gamma det X D mu L nu
    = (map (fun x => vsub x mu) X, Ok st)
    /\ Forall2
         (fun x d =>
            d = gamma (INR D / 2 + nu / 2) / gamma (nu / 2) * sqrt (det L)
                / Rpower (PI * nu) (INR D / 2)
                * ((1 + quad (vsub x mu) L / nu) * (- INR D / 2 - nu / 2))
            /\ d < 0
            /\ 0 < Mixture.student_t_closed_form gamma det D mu L nu x)
         X st.
Proof.
  intros Hg1 Hg2 Hd Hnu Hq.
  eexists. split.
  - apply DensityFacts.student_returns; lra.
  - set (nc := gamma (INR D / 2 + nu / 2) / gamma (nu / 2) * sqrt (det L)
               / Rpower (PI * nu) (INR D / 2)).
    assert (Hnc : 0 < nc).
    { unfold nc. apply Rdiv_lt_0_compat;
        [| apply DensityFacts.Rpower_pos].
      apply Rmult_lt_0_compat; [apply Rdiv_lt_0_compat; assumption |].
      apply sqrt_lt_R0. exact Hd. }
    induction Hq as [| x X Hx _ IH]; cbn [map]; constructor; [| exact IH].
    split; [reflexivity |].
    assert (Hm : 0 <= quad (vsub x mu) L / nu)
      by (apply Rmult_le_pos; [exact Hx | apply Rlt_le, Rinv_0_lt_compat, Hnu]).
    pose proof (pos_INR D) as HD.
    split.
    + assert (0 < (1 + quad (vsub x mu) L / nu) * (INR D / 2 + nu / 2))
        by (apply Rmult_lt_0_compat; lra).
      fold nc. nra.
    + unfold Mixture.student_t_closed_form. fold nc.
      apply Rmult_lt_0_compat; [exact Hnc | apply DensityFacts.Rpower_pos].
Qed.

(** C1 in dimension 1 with one degree of freedom, at the mode: the closed
    form is positive, [_student] returns its opposite. *)
Lemma student_kernel_at_the_mode :
  (0 < gamma_half_or_one (INR 1 / 2 + 1 / 2)
   /\ 0 < gamma_half_or_one (1 / 2)
   /\ 0 < det1 [[1 / 2]] /\ 0 < 1)
  /\ exists st,
       Mixture._student gamma_half_or_one det1 [[0]] 1 [0] [[1 / 2]] 1
       = ([[0 - 0]], Ok st)
       /\ Forall (fun d => d < 0) st.
Proof.
  assert (H1 : 0 < gamma_half_or_one (INR 1 / 2 + 1 / 2))
    by apply DensityFacts.gamma_half_or_one_pos.
  assert (H2 : 0 < gamma_half_or_one (1 / 2))
    by apply DensityFacts.gamma_half_or_one_pos.
  assert (H3 : 0 < det1 [[1 / 2]]) by (cbn [det1]; lra).
  assert (H4 : 0 < 1) by lra.
  assert (H5 : Forall (fun x => 0 <= quad (vsub x [0]) [[1 / 2]]) [[0]]).
  { constructor; [| constructor].
    unfold quad, dot, mat_vec. cbn [vsub zipWith map].
    rewrite !sum_cons, !sum_nil. lra. }
  split; [repeat split; assumption |].
  destruct (student_kernel_is_a_product gamma_half_or_one det1 [[0]] 1 [0]
              [[1 / 2]] 1 H1 H2 H3 H4 H5) as (st & Es & HF).
  exists st. split; [exact Es |].
  inversion HF as [| x d X' st' (_ & Hneg & _) HF']; subst.
  inversion HF'; subst. constructor; [exact Hneg | constructor].
Defined.

(** C2.  [prob_density] writes into the array it is given: when the call
    returns, the caller's array has had the mean of every component
    subtracted from each of its rows, one component after the other. *)
Theorem prob_density_overwrites_its_argument
    (gamma : R -> R) (det : matrix -> R) (self : Mixture.Fitted.t)
    (X X' : matrix) (p : vector) :
  Mixture.prob_density gamma det self X = (X', Ok p) ->
  X' = fold_left
         (fun Y i =>
            map (fun x => vsub x (nth i (Mixture.Fitted.m_k self) [])) Y)
         (seq 0 (Mixture.Fitted.K self)) X.
Proof.
  unfold Mixture.prob_density. intros H.
  destruct (Mixture.density_loop gamma det self (shape1 X)
              (seq 0 (Mixture.Fitted.K self)) X (zeros (shape0 X)))
    as [X1 [p1 | e]] eqn:El; [| discriminate].
  injection H as <- _.
  exact (DensityFacts.density_loop_shifts gamma det self (shape1 X)
           (seq 0 (Mixture.Fitted.K self)) X (zeros (shape0 X)) X1 p1 El).
Qed.

(** C2 on one component of mean 1 in dimension 1: the array [[[2.]]] is
    [[[1.]]] after the call. *)
Lemma prob_density_overwrites_one_sample :
  exists X' p,
    Mixture.prob_density gamma_half_or_one det1 DensityFacts.unit_component
                         [[2]] = (X', Ok p)
    /\ X' = [[2 - 1]] /\ X' <> [[2]].
Proof.
  destruct DensityFacts.unit_component_density as (p & Hp).
  exists [[2 - 1]], p. split; [exact Hp |].
  split.
  - exact (prob_density_overwrites_its_argument gamma_half_or_one det1
             DensityFacts.unit_component [[2]] [[2 - 1]] p Hp).
  - intros H. injection H as H. lra.
Defined.

Lemma inv1_raises (A : matrix) (e : exn) :
  inv1 A = Raise e -> e = LinAlgError.
Proof.
  unfold inv1. intros H.
  destruct A as [| [| x [| ? ?]] [| ? ?]]; try (injection H as <-; reflexivity).
  destruct (Req_dec_T x 0); [injection H as <-; reflexivity | discriminate].
Qed.

(** [fit] hands [initial_responsibility] to the loop as it is: neither the
    object nor the outcome of the statements before the loop depends on its
    shape. *)
Lemma prepare_passes_responsibility (inv : matrix -> outcome matrix)
    (self : Mixture.VariationalGaussianMixture) (X E rand : matrix) :
  Mixture.prepare inv self X (Some E) rand
  = match Mixture.prepare inv self X (Some []) rand with
    | (self1, Ok _) => (self1, Ok E)
    | (self1, Raise e) => (self1, Raise e)
    end.
Proof.
  unfold Mixture.prepare.
  destruct (Mixture.m self) as [m0 |].
  - destruct (Nat.eqb (length m0) (shape1 X)); [| reflexivity].
    destruct (Mixture.W self) as [W0 |]; [| reflexivity].
    destruct (Nat.eqb (length W0) (shape1 X)); [| reflexivity].
    destruct (inv W0); reflexivity.
  - cbn [Mixture.W Mixture.set_m].
    destruct (Mixture.W self) as [W0 |]; [| reflexivity].
    destruct (Nat.eqb (length W0) (shape1 X)); [| reflexivity].
    destruct (inv W0); reflexivity.
Qed.

(** C4 as stated fails: a mixture solver built without a prior mean and
    with a 3 x 3 scale matrix, fitted to data of dimension 2, raises the
    dimension error for [W] after [self.m] has been set to the zero
    vector. *)
Lemma gmm_scale_mismatch_after_prior_mean_written :
  exists self',
    Mixture.fit inv1 det1 psi_leading natural_log
      (Mixture.init 1 None None 1 (Some (eye 3)) None 1000)
      [[0; 0]] (Some [[1]]) false (1 / 1000) []
    = Mixture.Failed self' W_mismatch
    /\ Mixture.m (Mixture.init 1 None None 1 (Some (eye 3)) None 1000) = None
    /\ Mixture.m self' = Some [0; 0].
Proof.
  eexists. split; [reflexivity |]. split; reflexivity.
Qed.

(** The responsibilities drawn by [np.random.rand], which are not
    negative, are normalized without a division by zero. *)
Lemma normalize_drawn_rows (rand : matrix) :
  Forall (Forall (fun u => 0 <= u)) rand ->
  exists E, normalize_rows (map (map (fun u => u + 0.10)) rand) = Ok E.
Proof.
  unfold normalize_rows. induction 1 as [| row rand Hrow _ (E & HE)].
  - exists []. reflexivity.
  - cbn [map mapM]. rewrite HE. destruct row as [| u row].
    + exists ([] :: E). reflexivity.
    + destruct (normalize_positive_row (map (fun u => u + 0.10) (u :: row)))
        as [Hv _].
      * discriminate.
      * apply Forall_map. revert Hrow. apply Forall_impl. intros c Hc. lra.
      * rewrite Hv. eexists. reflexivity.
Qed.

(** The statements of [fit] before the tests on [m] and [W] return. *)
Lemma responsibilities_drawn (initial_responsibility : option matrix)
    (rand : matrix) :
  match initial_responsibility with
  | Some _ => True
  | None => Forall (Forall (fun u => 0 <= u)) rand
  end ->
  exists E_z,
    match initial_responsibility with
    | Some E => Ok E
    | None => normalize_rows (map (map (fun u => u + 0.10)) rand)
    end = Ok E_z.
Proof.
  destruct initial_responsibility as [E |]; intros H.
  - exists E. reflexivity.
  - exact (normalize_drawn_rows rand H).
Qed.

(** C4, amended.  The solvers raise their dimension errors before the
    loop.  The mixture solver, in both directions.  When [fit] fails with
    the error for [m] or for [W] ([np.linalg.inv] raising nothing but
    [LinAlgError]), the statements before the loop raised it; for [m], the
    prior mean has the wrong length and the object is untouched; for [W],
    the matrix has the wrong number of rows and the object is untouched but
    for a prior mean left out at construction, now the zero vector.
    Conversely, on responsibilities that are given, or drawn by
    [np.random.rand] (no negative entry): a prior mean of the wrong length
    makes [fit] fail with the error for [m] and the object untouched; and
    when the prior mean is left out or has the right length, a [W] with the
    wrong number of rows makes [fit] fail with the error for [W], the
    object being untouched but for a prior mean left out, now the zero
    vector.  For the logistic solver: once the label conversion has
    returned, an [init_xi] of the wrong length raises the error with
    nothing of the solver's own written. *)
Theorem dimension_errors_precede_the_loop :
  (forall (inv : matrix -> outcome matrix) (det : matrix -> R)
          (digamma _log : R -> R) (X : matrix)
          (initial_responsibility : option matrix)
          (reduce_components : bool) (threshold : R) (rand : matrix)
          (self self' : Mixture.VariationalGaussianMixture) (e : exn),
     (forall A e', inv A = Raise e' -> e' = LinAlgError) ->
     Mixture.fit inv det digamma _log self X initial_responsibility
                 reduce_components threshold rand
     = Mixture.Failed self' e ->
     e = m_mismatch \/ e = W_mismatch ->
     Mixture.prepare inv self X initial_responsibility rand
     = (self', Raise e)
     /\ ((e = m_mismatch /\ self' = self
          /\ exists m0, Mixture.m self = Some m0 /\ length m0 <> shape1 X)
         \/ (e = W_mismatch
             /\ self' = match Mixture.m self with
                        | None => Mixture.set_m self (zeros (shape1 X))
                        | Some _ => self
                        end
             /\ exists W0, Mixture.W self = Some W0
                           /\ length W0 <> shape1 X)))
  /\ (forall (inv : matrix -> outcome matrix) (det : matrix -> R)
             (digamma _log : R -> R) (X : matrix)
             (initial_responsibility : option matrix)
             (reduce_components : bool) (threshold : R) (rand : matrix)
             (self : Mixture.VariationalGaussianMixture),
        match initial_responsibility with
        | Some _ => True
        | None => Forall (Forall (fun u => 0 <= u)) rand
        end ->
        (forall m0,
           Mixture.m self = Some m0 -> length m0 <> shape1 X ->
           Mixture.fit inv det digamma _log self X initial_responsibility
                       reduce_components threshold rand
           = Mixture.Failed self m_mismatch)
        /\ (forall W0,
              Mixture.W self = Some W0 -> length W0 <> shape1 X ->
              (forall m0, Mixture.m self = Some m0 ->
                          length m0 = shape1 X) ->
              Mixture.fit inv det digamma _log self X initial_responsibility
                          reduce_components threshold rand
              = Mixture.Failed
                  match Mixture.m self with
                  | None => Mixture.set_m self (zeros (shape1 X))
                  | Some _ => self
                  end
                  W_mismatch))
  /\ (forall (Base Labels : Type)
             (_onehot_to_label : Base -> Labels -> Base * outcome vector)
             (make_design_mat : Base -> matrix -> matrix)
             (inv : matrix -> outcome matrix)
             (self : Logistic.VariationalLogisticRegression Base)
             (X : matrix) (y : Labels) (v : vector) (optimize_param : bool)
             (init_a init_b : R) (randn : vector) (base' : Base)
             (y' : vector),
        _onehot_to_label (Logistic.base self) y = (base', Ok y') ->
        length v <> shape0 X ->
        Logistic.fit _onehot_to_label make_design_mat inv self X y (Some v)
                     optimize_param init_a init_b randn
        = (Logistic.set_base self base', Raise init_xi_mismatch)).
Proof.
  split; [| split].
  - intros inv det digamma _log X ir rc thr rand self self' e Hinv Hf He.
    assert (Hv : is_value_error e) by (destruct He as [-> | ->]; exact I).
    pose proof (MixtureFacts.fit_value_error inv det digamma _log X rc thr
                  Hinv ir rand self self' e Hf Hv) as Hp.
    split; [exact Hp |].
    exact (MixtureFacts.prepare_value_error inv X Hinv ir rand self self' e
             Hp Hv).
  - intros inv det digamma _log X ir rc thr rand self Hr.
    destruct (responsibilities_drawn ir rand Hr) as [E_z HE].
    split.
    + intros m0 Hm Hlen. unfold Mixture.fit, Mixture.prepare.
      rewrite HE, Hm. apply Nat.eqb_neq in Hlen. rewrite Hlen. reflexivity.
    + intros W0 HW Hlen Hm. unfold Mixture.fit, Mixture.prepare.
      rewrite HE. apply Nat.eqb_neq in Hlen.
      destruct (Mixture.m self) as [m0 |] eqn:Em.
      * rewrite (Hm m0 eq_refl), Nat.eqb_refl, HW, Hlen. reflexivity.
      * cbn [Mixture.W Mixture.set_m]. rewrite HW, Hlen. reflexivity.
  - intros. eapply LogisticFacts.fit_init_xi_mismatch; eassumption.
Qed.

(** C4, amended, on three runs: a mixture solver with a prior mean of
    length 3 on data of dimension 2, the mixture run above, and a
    logistic solver given two starting values for one sample. *)
Lemma dimension_errors_on_three_runs :
  (length [0; 0; 0] <> shape1 [[0; 0]]
   /\ Mixture.fit inv1 det1 psi_leading natural_log
        (Mixture.init 1 None (Some [0; 0; 0]) 1 None None 1000)
        [[0; 0]] None false (1 / 1000) [[1 / 2]]
      = Mixture.Failed
          (Mixture.init 1 None (Some [0; 0; 0]) 1 None None 1000)
          m_mismatch)
  /\ (length (eye 3) <> shape1 [[0; 0]]
      /\ Mixture.fit inv1 det1 psi_leading natural_log
           (Mixture.init 1 None None 1 (Some (eye 3)) None 1000)
           [[0; 0]] (Some [[1]]) false (1 / 1000) []
         = Mixture.Failed
             (Mixture.set_m
                (Mixture.init 1 None None 1 (Some (eye 3)) None 1000)
                [0; 0])
             W_mismatch
      /\ Mixture.prepare inv1
           (Mixture.init 1 None None 1 (Some (eye 3)) None 1000)
           [[0; 0]] (Some [[1]]) []
         = (Mixture.set_m
              (Mixture.init 1 None None 1 (Some (eye 3)) None 1000)
              [0; 0],
            Raise W_mismatch))
  /\ (length [0; 0] <> shape0 [[0]]
      /\ Logistic.fit (fun (b : unit) (y : vector) => (b, Ok y))
                      (fun (_ : unit) (X : matrix) => X) inv1
                      (Logistic.mkSolver (1 / 10) None None None None None
                                         100 (1 / 100) tt)
                      [[0]] [0] (Some [0; 0]) false 0 0 []
         = (Logistic.mkSolver (1 / 10) None None None None None
                              100 (1 / 100) tt,
            Raise init_xi_mismatch)).
Proof.
  assert (Hm : length [0; 0; 0] <> shape1 [[0; 0]]) by (cbn; lia).
  assert (HW : length (eye 3) <> shape1 [[0; 0]]) by (cbn; lia).
  assert (Hxi : length [0; 0] <> shape0 [[0]]) by (cbn; lia).
  assert (Hrand : Forall (Forall (fun u => 0 <= u)) [[1 / 2]])
    by (repeat constructor; lra).
  assert (HfW : Mixture.fit inv1 det1 psi_leading natural_log
                  (Mixture.init 1 None None 1 (Some (eye 3)) None 1000)
                  [[0; 0]] (Some [[1]]) false (1 / 1000) []
                = Mixture.Failed
                    (Mixture.set_m
                       (Mixture.init 1 None None 1 (Some (eye 3)) None 1000)
                       [0; 0])
                    W_mismatch).
  { refine (proj2 (proj1 (proj2 dimension_errors_precede_the_loop)
                     inv1 det1 psi_leading natural_log [[0; 0]] (Some [[1]])
                     false (1 / 1000) []
                     (Mixture.init 1 None None 1 (Some (eye 3)) None 1000) I)
                  (eye 3) eq_refl HW _).
    intros m0 H. discriminate H. }
  split; [| split].
  - split; [exact Hm |].
    exact (proj1 (proj1 (proj2 dimension_errors_precede_the_loop)
                    inv1 det1 psi_leading natural_log [[0; 0]] None
                    false (1 / 1000) [[1 / 2]]
                    (Mixture.init 1 None (Some [0; 0; 0]) 1 None None 1000)
                    Hrand)
                 [0; 0; 0] eq_refl Hm).
  - split; [exact HW |]. split; [exact HfW |].
    exact (proj1 (proj1 dimension_errors_precede_the_loop
                    inv1 det1 psi_leading natural_log [[0; 0]] (Some [[1]])
                    false (1 / 1000) []
                    (Mixture.init 1 None None 1 (Some (eye 3)) None 1000)
                    _ _ inv1_raises HfW (or_intror eq_refl))).
  - split; [exact Hxi |].
    exact (proj2 (proj2 dimension_errors_precede_the_loop)
             unit vector (fun b y => (b, Ok y)) (fun _ X => X) inv1
             (Logistic.mkSolver (1 / 10) None None None None None
                                100 (1 / 100) tt)
             [[0]] [0] [0; 0] false 0 0 [] tt [0] eq_refl Hxi).
Defined.

(** C8.  With an iteration cap of 0 the loop is exhausted without a pass,
    and storing the locals that only a pass binds fails.  The 1-D solver on
    the data of the end-to-end scenario has written [mu = 15/5] and
    [lamda = 5] when it raises [UnboundLocalError] for [a_N]; the mixture
    solver has written [self.r] when it raises it for [alpha]. *)
Theorem zero_passes_raise_unbound_local :
  (exists st,
     Gauss1D.fit (Gauss1D.mkSolver 0 0 0 0 0 0.01) [1; 2; 3; 4; 5] 1
     = (st, Raise (UnboundLocalError "a_N"))
     /\ Gauss1D.mu st = 3 /\ Gauss1D.lamda st = 5
     /\ Gauss1D.a st = 0 /\ Gauss1D.b st = 0)
  /\ Mixture.fit inv1 det1 psi_leading natural_log
       (Mixture.init 1 None None 1 None None 0) [[0]] (Some [[1]])
       false (1 / 1000) []
     = Mixture.Failed
         (Mixture.set_r (MixtureRuns.one_point 0) [[1]])
         (UnboundLocalError "alpha").
Proof.
  split.
  - eexists. split.
    + apply Gauss1DFacts.gauss1d_fit_zero_passes; [reflexivity |].
      cbn [Gauss1D.lamda length INR]. lra.
    + cbn [Gauss1D.set_mu_lamda Gauss1D.mu Gauss1D.lamda Gauss1D.a
           Gauss1D.b length INR].
      rewrite !sum_cons, sum_nil. repeat split; lra.
  - exact (MixtureFacts.mixture_fit_zero_passes inv1 det1 psi_leading natural_log
             [[0]] false (1 / 1000) (Some [[1]]) []
             (Mixture.init 1 None None 1 None None 0)
             (MixtureRuns.one_point 0) [[1]] eq_refl
             (MixtureRuns.run_prepare 0 [])).
Qed.

(** * Further properties of the solvers *)

(** ** VariationalGauss1D *)

Module Gauss1DMore.
Import Gauss1D.

Lemma power_half_result (x r : R) : power x 0.5 = Ok r -> 0 <= r.
Proof.
  unfold power. intros H.
  destruct (Rlt_dec 0 x).
  - injection H as <-. apply Rlt_le. unfold Rpower. apply exp_pos.
  - destruct (Req_dec_T x 0).
    + destruct (Rlt_dec 0 0.5) as [_ | C]; [| exfalso; apply C; lra].
      injection H as <-. lra.
    + destruct (Req_dec_T 0.5 (IZR (Int_part 0.5))) as [E | _];
        [| discriminate].
      exfalso.
      assert (Hz : (Int_part 0.5 <= 0)%Z \/ (1 <= Int_part 0.5)%Z) by lia.
      destruct Hz as [Hz | Hz]; apply IZR_le in Hz; lra.
Qed.

Section Pass.

Variable self : VariationalGauss1D.
Variables N X_sum X2_sum : R.

Abbreviation pass_result := (pass_result self N X_sum).

Lemma body_ok (f f' : frame) (brk : bool) :
  body self N X_sum X2_sum f = Ok (brk, f') ->
  pass_result f' /\ (brk = true -> 0 < threshold self).
Proof.
  unfold body. intros H.
  apply bind_ok in H. destruct H as (q & _ & H).
  apply bind_ok in H. destruct H as (t & Et & H).
  apply bind_ok in H. destruct H as (m' & Em & H).
  apply bind_ok in H. destruct H as (c & Ec & H).
  apply div_inv in Et. destruct Et as [Hb Et].
  apply div_inv in Em. destruct Em as [_ Em].
  apply power_half_result in Ec.
  assert (Hf : f' = mkFrame t m' ((lamda self + N) * t)
                      (Some (a self + (N + 1) / 2))
                      (Some (b self + 0.5 * (X2_sum - 2 * mu_N f * X_sum
                         + N * (mu_N f ^ 2 + q)
                         + lamda self * (mu_N f ^ 2 + q
                              - 2 * mu_N f * mu self + mu self ^ 2)))))
    by (destruct (Rlt_dec c (threshold self)); injection H as _ <-;
        reflexivity).
  split.
  - subst f'. unfold Gauss1D.pass_result. cbn [a_N mu_N b_N lam_N].
    split; [reflexivity |]. split; [exact Em |].
    eexists. split; [reflexivity |]. split; [exact Hb |].
    rewrite Et. field. exact Hb.
  - intros ->. destruct (Rlt_dec c (threshold self)) as [Hlt | _];
      [lra | discriminate].
Qed.


Lemma loop_ok (n : nat) :
  forall f ex f',
    loop self N X_sum X2_sum n f = Ok (ex, f') ->
    ((0 < n)%nat -> pass_result f')
    /\ (ex = Broke -> 0 < threshold self).
Proof.
  induction n as [| n IH]; intros f ex f' H.
  - cbn in H. injection H as <- <-. split; [lia | discriminate].
  - cbn [loop] in H. apply bind_ok in H. destruct H as ([brk g] & Eb & H).
    destruct (body_ok f g brk Eb) as [Hg Hbrk].
    destruct brk.
    + injection H as <- <-. split; [intros _; exact Hg |].
      intros _. apply Hbrk. reflexivity.
    + destruct (IH g ex f' H) as [Hn Hex]. split; [| exact Hex].
      intros _. destruct n as [| n'].
      * cbn in H. injection H as _ <-. exact Hg.
      * apply Hn. lia.
Qed.


End Pass.

End Gauss1DMore.

(** X1.  Whenever [VariationalGauss1D.fit] returns, the loop has run at
    least once, the stored mean and shape are the closed forms
    [mu = (lamda_0 mu_0 + sum X)/(lamda_0 + N)] and [a = a_0 + (N + 1)/2],
    whatever the initial guess, the threshold and the number of passes, and
    the stored [lamda] is [lamda_0 + N] times the quotient [a/b] of the
    stored [a] and [b], as the last pass computed it; [max_iter] and
    [threshold] are not written.  Nothing is said of the sign or the size
    of [b]. *)
Theorem gauss1d_fit_closed_forms (self st : Gauss1D.VariationalGauss1D)
    (X : list R) (init_tau : R) :
  Gauss1D.fit self X init_tau = (st, Ok tt) ->
  (0 < Gauss1D.max_iter self)%nat
  /\ Gauss1D.mu st
     = (Gauss1D.lamda self * Gauss1D.mu self + sum X)
       / (Gauss1D.lamda self + INR (length X))
  /\ Gauss1D.a st = Gauss1D.a self + (INR (length X) + 1) / 2
  /\ Gauss1D.lamda st
     = (Gauss1D.lamda self + INR (length X))
       * (Gauss1D.a st / Gauss1D.b st)
  /\ Gauss1D.max_iter st = Gauss1D.max_iter self
  /\ Gauss1D.threshold st = Gauss1D.threshold self.
Proof.
  unfold Gauss1D.fit, Gauss1D.run, Gauss1D.passes. intros H.
  destruct (div (Gauss1D.lamda self * Gauss1D.mu self + sum X)
                (Gauss1D.lamda self + INR (length X))) as [mu0 | e];
    cbn [bind] in H; [| discriminate].
  match type of H with
  | context [Gauss1D.loop ?s ?n ?xs ?x2 ?k ?f0] =>
      destruct (Gauss1D.loop s n xs x2 k f0) as [[ex f] | e] eqn:El
  end; [| discriminate].
  assert (Hn : (0 < Gauss1D.max_iter self)%nat).
  { destruct (Gauss1D.max_iter self); [| lia].
    cbn in El. injection El as _ <-. cbn in H. discriminate. }
  destruct (Gauss1DMore.loop_ok _ _ _ _ _ _ _ _ El) as [Hp _].
  destruct (Hp Hn) as (Ea & Em & bN & Eb & Hb & Hl).
  unfold Gauss1D.store in H. rewrite Ea, Eb in H. injection H as <-.
  cbn [Gauss1D.mu Gauss1D.a Gauss1D.b Gauss1D.lamda Gauss1D.max_iter
       Gauss1D.threshold Gauss1D.set_a Gauss1D.set_b Gauss1D.set_mu_lamda].
  split; [exact Hn |]. split; [exact Em |]. split; [reflexivity |].
  split; [| split; reflexivity].
  apply Rmult_eq_reg_r with bN; [| exact Hb].
  rewrite Hl. field. exact Hb.
Qed.

(** X1 on the end-to-end scenario. *)
Lemma gauss1d_fit_closed_forms_scenario :
  exists st,
    Gauss1D.fit (Gauss1D.mkSolver 0 0 0 0 1000 0.01) [1; 2; 3; 4; 5] 1
    = (st, Ok tt)
    /\ Gauss1D.lamda st
       = (0 + INR (length [1; 2; 3; 4; 5]))
         * (Gauss1D.a st / Gauss1D.b st).
Proof.
  assert (H0 : 0 <= 0) by lra.
  assert (H1 : 0 < 1) by lra.
  assert (HX : [1; 2; 3; 4; 5] <> ([] : list R)) by discriminate.
  destruct (Gauss1DFacts.fit_positive (Gauss1D.mkSolver 0 0 0 0 1000 0.01)
              [1; 2; 3; 4; 5] H0 H0 H0 HX 1 H1 (Nat.lt_0_succ 999))
    as (st & E & _).
  exists st. split; [exact E |].
  destruct (gauss1d_fit_closed_forms _ st _ _ E) as (_ & _ & _ & H & _).
  exact H.
Defined.

(** X2.  With a threshold that is not positive the convergence test never
    succeeds: a run of the loop that returns has not left by [break], so it
    has made all its passes. *)
Theorem gauss1d_nonpositive_threshold_never_breaks
    (self : Gauss1D.VariationalGauss1D) (X : list R) (init_tau : R)
    (n : nat) (ex : Gauss1D.loop_exit) (f : Gauss1D.frame) :
  Gauss1D.threshold self <= 0 ->
  Gauss1D.passes n self X init_tau = Ok (ex, f) ->
  ex = Gauss1D.Exhausted.
Proof.
  intros Hthr H. unfold Gauss1D.passes in H.
  apply bind_ok in H. destruct H as (mu0 & _ & H).
  destruct (Gauss1DMore.loop_ok _ _ _ _ _ _ _ _ H) as [_ Hex].
  destruct ex; [| reflexivity]. specialize (Hex eq_refl). lra.
Qed.

(** X2 on the data of the end-to-end scenario with threshold 0. *)
Lemma gauss1d_zero_threshold_run :
  0 <= 0
  /\ exists ex f,
       Gauss1D.passes 1000 (Gauss1D.mkSolver 0 0 0 0 1000 0)
                      [1; 2; 3; 4; 5] 1 = Ok (ex, f)
       /\ ex = Gauss1D.Exhausted.
Proof.
  assert (H0 : 0 <= 0) by lra.
  assert (H1 : 0 < 1) by lra.
  assert (HX : [1; 2; 3; 4; 5] <> ([] : list R)) by discriminate.
  split; [exact H0 |].
  destruct (Gauss1DFacts.passes_positive (Gauss1D.mkSolver 0 0 0 0 1000 0)
              [1; 2; 3; 4; 5] H0 H0 H0 HX 1000 1 H1) as (ex & f & E & _).
  exists ex, f. split; [exact E |].
  exact (gauss1d_nonpositive_threshold_never_breaks
           (Gauss1D.mkSolver 0 0 0 0 1000 0) [1; 2; 3; 4; 5] 1 1000 ex f
           H0 E).
Defined.

(** X3.  An initial precision guess of 0 makes the first pass divide by
    zero in [1/((lam_N + N)*E_tau)], and the object is left as it was. *)
Theorem gauss1d_zero_guess_divides_by_zero
    (self : Gauss1D.VariationalGauss1D) (X : list R) :
  (0 < Gauss1D.max_iter self)%nat ->
  Gauss1D.lamda self + INR (length X) <> 0 ->
  Gauss1D.fit self X 0 = (self, Raise ZeroDivisionError).
Proof.
  intros Hn Hd. unfold Gauss1D.fit, Gauss1D.run, Gauss1D.passes.
  rewrite div_ok by exact Hd. cbn [bind].
  destruct (Gauss1D.max_iter self) as [| n]; [lia |].
  cbn [Gauss1D.loop]. unfold Gauss1D.body at 1.
  cbn [Gauss1D.lam_N Gauss1D.E_tau].
  rewrite Rmult_0_r, div_zero. reflexivity.
Qed.

(** X3 on the data of the end-to-end scenario. *)
Lemma gauss1d_zero_guess_scenario :
  ((0 < 1000)%nat /\ 0 + INR (length [1; 2; 3; 4; 5]) <> 0)
  /\ Gauss1D.fit (Gauss1D.mkSolver 0 0 0 0 1000 0.01) [1; 2; 3; 4; 5] 0
     = (Gauss1D.mkSolver 0 0 0 0 1000 0.01, Raise ZeroDivisionError).
Proof.
  assert (Hn : (0 < 1000)%nat) by apply Nat.lt_0_succ.
  assert (Hd : 0 + INR (length [1; 2; 3; 4; 5]) <> 0)
    by (cbn [length INR]; lra).
  split; [split; assumption |].
  exact (gauss1d_zero_guess_divides_by_zero
           (Gauss1D.mkSolver 0 0 0 0 1000 0.01) [1; 2; 3; 4; 5] Hn Hd).
Defined.



(** ** VariationalGaussianMixture: the loop *)

Module MixtureMore.
Import Mixture.

Lemma select_all {A : Type} (mask : list bool) :
  Forall (fun t => t = true) mask ->
  forall arr : list A, length arr = length mask -> select mask arr = arr.
Proof.
  induction 1 as [| t mask Ht _ IH]; intros [| x arr] H; cbn [length] in H;
    try discriminate; [reflexivity |].
  rewrite select_cons, Ht. f_equal. apply IH. lia.
Qed.

Lemma count_true_all (mask : list bool) :
  Forall (fun t => t = true) mask -> count_true mask = length mask.
Proof.
  induction 1 as [| t mask Ht _ IH]; [reflexivity |].
  rewrite count_true_cons, Ht. cbn [length]. rewrite IH. reflexivity.
Qed.

Lemma count_true_le (mask : list bool) : (count_true mask <= length mask)%nat.
Proof. unfold count_true. apply filter_length_le. Qed.

Section Round.

Variable inv : matrix -> outcome matrix.
Variable det : matrix -> R.
Variable digamma : R -> R.
Variable _log : R -> R.
Variable X : matrix.

(** The effective counts are the column sums of [E_z]. *)
Lemma m_step_counts (self : VariationalGaussianMixture) (E_z : matrix)
    (N_k : vector) (l : Local.t) :
  m_step inv X self E_z = Ok (N_k, l) ->
  N_k = map sum (transpose (K self) E_z)
  /\ Local.alpha l = zipWith Rplus (alpha self) N_k
  /\ Local.beta l = map (fun n => beta self + n) N_k
  /\ Local.nu l = map (fun n => nu self + n) N_k.
Proof.
  unfold m_step. intros H.
  repeat (apply bind_ok in H; destruct H as (? & _ & H)).
  injection H as <- <-. repeat split; reflexivity.
Qed.

Lemma keep_mask_all (thr : R) (E_pi : vector) :
  Forall (fun e => thr <= e) E_pi ->
  Forall (fun t => t = true) (keep_mask thr E_pi).
Proof.
  intros H. unfold keep_mask. apply Forall_map.
  apply (Forall_impl _ (P := fun e => thr <= e)); [| exact H].
  intros e He. destruct (Rle_dec thr e); [reflexivity | contradiction].
Qed.

(** Without pruning a pass does not write the object. *)
Lemma round_without_pruning (thr : R) (self self' : VariationalGaussianMixture)
    (E_z : matrix) (o : outcome (matrix * Local.t)) :
  round inv det digamma _log X false thr self E_z = (self', o) ->
  self' = self.
Proof.
  unfold round. intros H.
  destruct (m_step inv X self E_z) as [[N_k l] | e];
    injection H as <- _; reflexivity.
Qed.

Lemma loop_without_pruning (thr : R) (n : nat) :
  forall self E_z l self' o,
    loop inv det digamma _log X false thr n self E_z l = (self', o) ->
    self' = self.
Proof.
  induction n as [| n IH]; intros self E_z l self' o H.
  - cbn in H. injection H as <- _. reflexivity.
  - rewrite MixtureFacts.loop_S in H.
    destruct (round inv det digamma _log X false thr self E_z)
      as [s [[E1 l1] | e]] eqn:Er;
      apply round_without_pruning in Er; subst s.
    + exact (IH _ _ _ _ _ H).
    + injection H as <- _. reflexivity.
Qed.

(** The threshold is read by the pruning only. *)
Lemma round_ignores_threshold (thr1 thr2 : R)
    (self : VariationalGaussianMixture) (E_z : matrix) :
  round inv det digamma _log X false thr1 self E_z
  = round inv det digamma _log X false thr2 self E_z.
Proof. reflexivity. Qed.

Lemma loop_ignores_threshold (thr1 thr2 : R) (n : nat) :
  forall self E_z l,
    loop inv det digamma _log X false thr1 n self E_z l
    = loop inv det digamma _log X false thr2 n self E_z l.
Proof.
  induction n as [| n IH]; intros self E_z l; [reflexivity |].
  rewrite !MixtureFacts.loop_S.
  rewrite (round_ignores_threshold thr1 thr2).
  destruct (round inv det digamma _log X false thr2 self E_z)
    as [s [[E1 l1] | e]]; [apply IH | reflexivity].
Qed.

(** A pass never adds a component. *)
Lemma round_K_le (rc : bool) (thr : R)
    (self self' : VariationalGaussianMixture) (E_z : matrix)
    (o : outcome (matrix * Local.t)) :
  round inv det digamma _log X rc thr self E_z = (self', o) ->
  (K self' <= K self)%nat.
Proof.
  unfold round. intros H.
  destruct (m_step inv X self E_z) as [[N_k l] | e] eqn:Em.
  2:{ injection H as <- _. lia. }
  destruct rc.
  - destruct (expected_pi X self N_k) as [E_pi | e] eqn:Epi; cbn [bind] in H.
    + unfold prune in H. injection H as <- _. cbn [K set_alpha_K].
      pose proof (count_true_le (keep_mask thr E_pi)) as Hc.
      rewrite MixtureFacts.length_keep_mask in Hc.
      pose proof (MixtureFacts.expected_pi_length X self N_k E_pi Epi) as HL.
      destruct (m_step_counts self E_z N_k l Em) as (HN & _).
      assert (HK : length N_k = K self).
      { rewrite HN. unfold transpose. rewrite !length_map, length_seq.
        reflexivity. }
      lia.
    + injection H as <- _. lia.
  - injection H as <- _. lia.
Qed.

Lemma loop_K_le (rc : bool) (thr : R) (n : nat) :
  forall self E_z l self' o,
    loop inv det digamma _log X rc thr n self E_z l = (self', o) ->
    (K self' <= K self)%nat.
Proof.
  induction n as [| n IH]; intros self E_z l self' o H.
  - cbn in H. injection H as <- _. lia.
  - rewrite MixtureFacts.loop_S in H.
    destruct (round inv det digamma _log X rc thr self E_z)
      as [s [[E1 l1] | e]] eqn:Er; apply round_K_le in Er.
    + apply IH in H. lia.
    + injection H as <- _. exact Er.
Qed.

End Round.

End MixtureMore.

(** X5.  Without [reduce_components], [VariationalGaussianMixture.fit]
    never writes [K]: a completed call stores the [K] it started with (and
    replaces [alpha] by the posterior [alpha]), and a failed call leaves
    [K] and the prior [alpha] as they were. *)
Theorem gmm_fit_without_pruning_keeps_K
    (inv : matrix -> outcome matrix) (det : matrix -> R)
    (digamma _log : R -> R) (self : Mixture.VariationalGaussianMixture)
    (X : matrix) (initial_responsibility : option matrix) (threshold : R)
    (rand : matrix) :
  match Mixture.fit inv det digamma _log self X initial_responsibility
                    false threshold rand with
  | Mixture.Completed obj => Mixture.Fitted.K obj = Mixture.K self
  | Mixture.Failed self' _ =>
      Mixture.K self' = Mixture.K self
      /\ Mixture.alpha self' = Mixture.alpha self
  end.
Proof.
  unfold Mixture.fit.
  destruct (Mixture.prepare inv self X initial_responsibility rand)
    as [self1 [E_z | e]] eqn:Hp;
    destruct (MixtureFacts.prepare_keeps inv X initial_responsibility rand
                self self1 _ Hp) as (HK & HA & _).
  - destruct (Mixture.loop inv det digamma _log X false threshold
                (Mixture.n_iter self1) self1 E_z None)
      as [self2 [[E1 l1] | e]] eqn:El;
      apply MixtureMore.loop_without_pruning in El; subst self2.
    + unfold Mixture.store. destruct l1 as [l1 |]; cbn; auto.
    + auto.
  - auto.
Qed.

(** X6.  Without [reduce_components] the threshold plays no part: two
    calls of [fit] that differ in it only end alike. *)
Theorem gmm_fit_ignores_threshold_without_pruning
    (inv : matrix -> outcome matrix) (det : matrix -> R)
    (digamma _log : R -> R) (self : Mixture.VariationalGaussianMixture)
    (X : matrix) (initial_responsibility : option matrix)
    (threshold1 threshold2 : R) (rand : matrix) :
  Mixture.fit inv det digamma _log self X initial_responsibility
              false threshold1 rand
  = Mixture.fit inv det digamma _log self X initial_responsibility
                false threshold2 rand.
Proof.
  unfold Mixture.fit.
  destruct (Mixture.prepare inv self X initial_responsibility rand)
    as [self1 [E_z | e]]; [| reflexivity].
  rewrite (MixtureMore.loop_ignores_threshold inv det digamma _log X
             threshold1 threshold2).
  reflexivity.
Qed.

(** X7.  Pruning only removes: however [fit] ends, the [K] of the object
    is at most the [K] it started with. *)
Theorem gmm_fit_never_adds_components
    (inv : matrix -> outcome matrix) (det : matrix -> R)
    (digamma _log : R -> R) (self : Mixture.VariationalGaussianMixture)
    (X : matrix) (initial_responsibility : option matrix)
    (reduce_components : bool) (threshold : R) (rand : matrix) :
  match Mixture.fit inv det digamma _log self X initial_responsibility
                    reduce_components threshold rand with
  | Mixture.Completed obj => (Mixture.Fitted.K obj <= Mixture.K self)%nat
  | Mixture.Failed self' _ => (Mixture.K self' <= Mixture.K self)%nat
  end.
Proof.
  unfold Mixture.fit.
  destruct (Mixture.prepare inv self X initial_responsibility rand)
    as [self1 [E_z | e]] eqn:Hp;
    destruct (MixtureFacts.prepare_keeps inv X initial_responsibility rand
                self self1 _ Hp) as (HK & _ & _).
  - destruct (Mixture.loop inv det digamma _log X reduce_components
                threshold (Mixture.n_iter self1) self1 E_z None)
      as [self2 [[E1 l1] | e]] eqn:El;
      apply MixtureMore.loop_K_le in El.
    + unfold Mixture.store. destruct l1 as [l1 |]; cbn; lia.
    + lia.
  - lia.
Qed.

(** X8.  A pruning pass in which every [E_pi] reaches the threshold does
    what the pass without pruning does: on an object whose prior [alpha]
    has [K] entries, the mask keeps every entry of every array and [K] is
    rewritten with its own value. *)
Theorem gmm_pruning_that_keeps_all_is_no_pruning
    (inv : matrix -> outcome matrix) (det : matrix -> R)
    (digamma _log : R -> R) (X : matrix) (threshold : R)
    (self : Mixture.VariationalGaussianMixture) (E_z : matrix)
    (N_k E_pi : vector) (l : Mixture.Local.t) :
  length (Mixture.alpha self) = Mixture.K self ->
  Mixture.m_step inv X self E_z = Ok (N_k, l) ->
  Mixture.expected_pi X self N_k = Ok E_pi ->
  Forall (fun e => threshold <= e) E_pi ->
  Mixture.round inv det digamma _log X true threshold self E_z
  = Mixture.round inv det digamma _log X false threshold self E_z.
Proof.
  intros Ha Em Epi Hall.
  destruct (MixtureFacts.m_step_shapes inv X self E_z N_k l Ha Em)
    as (_ & HN & (S1 & S2 & S3 & S4 & S5) & _).
  pose proof (MixtureFacts.expected_pi_length X self N_k E_pi Epi) as HL.
  assert (HK : length E_pi = Mixture.K self) by (rewrite HL; lia).
  pose proof (MixtureMore.keep_mask_all threshold E_pi Hall) as Hmask.
  pose proof (MixtureFacts.length_keep_mask threshold E_pi) as Hlen.
  unfold Mixture.round. rewrite Em, Epi. cbn [bind]. unfold Mixture.prune.
  rewrite !(MixtureMore.select_all _ Hmask) by (rewrite Hlen; congruence).
  rewrite (MixtureMore.count_true_all _ Hmask), Hlen, HK.
  destruct self, l. reflexivity.
Qed.

(** X8 on one sample and one component with threshold 1/2: the only
    [E_pi] is 1. *)
Lemma gmm_pruning_that_keeps_all_one_point :
  exists N_k l E_pi,
    (length [1] = 1%nat
     /\ Mixture.m_step inv1 [[0]] (MixtureRuns.one_point 1) [[1]]
        = Ok (N_k, l)
     /\ Mixture.expected_pi [[0]] (MixtureRuns.one_point 1) N_k = Ok E_pi
     /\ Forall (fun e => 1 / 2 <= e) E_pi)
    /\ Mixture.round inv1 det1 psi_leading natural_log [[0]] true (1 / 2)
                     (MixtureRuns.one_point 1) [[1]]
       = Mixture.round inv1 det1 psi_leading natural_log [[0]] false (1 / 2)
                       (MixtureRuns.one_point 1) [[1]].
Proof.
  destruct (MixtureRuns.run_m_step 1) as (N_k & l & Em).
  destruct (MixtureFacts.m_step_shapes inv1 [[0]] (MixtureRuns.one_point 1)
              [[1]] N_k l eq_refl Em) as (HN & _).
  destruct (MixtureRuns.run_expected_pi 1) as (e & He & He1).
  cbn [Mixture.K] in HN. rewrite <- HN in He.
  assert (Hall : Forall (fun e => 1 / 2 <= e) [e])
    by (constructor; [lra | constructor]).
  exists N_k, l, [e].
  split; [split; [reflexivity | split; [exact Em | split; assumption]] |].
  exact (gmm_pruning_that_keeps_all_is_no_pruning inv1 det1 psi_leading
           natural_log [[0]] (1 / 2) (MixtureRuns.one_point 1) [[1]]
           N_k [e] l eq_refl Em He Hall).
Defined.

(** ** VariationalGaussianMixture: effective counts *)

Module CountFacts.
Import Mixture.

Lemma sum_zipWith_plus (u : vector) :
  forall v, length u = length v -> sum (zipWith Rplus u v) = sum u + sum v.
Proof.
  induction u as [| x u IH]; intros [| y v] H; cbn [length] in H;
    try discriminate; cbn [zipWith].
  - rewrite sum_nil. lra.
  - rewrite !sum_cons, IH by lia. lra.
Qed.

Lemma sum_map_plus {A : Type} (f g : A -> R) (l : list A) :
  sum (map (fun k => f k + g k) l) = sum (map f l) + sum (map g l).
Proof.
  induction l as [| k l IH]; cbn [map].
  - rewrite sum_nil. lra.
  - rewrite !sum_cons, IH. lra.
Qed.

Lemma sum_map_shift (c : R) (v : vector) :
  sum (map (fun n => c + n) v) = INR (length v) * c + sum v.
Proof.
  induction v as [| n v IH]; cbn [map].
  - rewrite sum_nil. cbn. lra.
  - change (length (n :: v)) with (S (length v)).
    rewrite !sum_cons, IH, S_INR. lra.
Qed.

Lemma map_nth_seq (row : vector) :
  map (fun k => nth k row 0) (seq 0 (length row)) = row.
Proof.
  induction row as [| c row IH]; [reflexivity |].
  cbn [length seq map nth]. f_equal.
  rewrite <- seq_shift, map_map. exact IH.
Qed.

(** Summing the column sums of an array sums its row sums. *)
Lemma sum_columns (k : nat) (E : matrix) :
  Forall (fun row => length row = k) E ->
  sum (map sum (transpose k E)) = sum (map sum E).
Proof.
  unfold transpose. rewrite map_map.
  induction 1 as [| row E Hrow _ IH]; cbn [map].
  - induction (seq 0 k) as [| i s IHs]; cbn [map]; [reflexivity |].
    rewrite sum_cons, IHs, !sum_nil. lra.
  - rewrite sum_cons, <- IH.
    replace (sum row)
      with (sum (map (fun i => nth i row 0) (seq 0 k)))
      by (rewrite <- Hrow, map_nth_seq; reflexivity).
    rewrite <- sum_map_plus. reflexivity.
Qed.

Lemma sum_unit_rows (E : matrix) :
  Forall (fun row => sum row = 1) E -> sum (map sum E) = INR (length E).
Proof.
  induction 1 as [| row E Hrow _ IH]; cbn [map].
  - rewrite sum_nil. reflexivity.
  - change (length (row :: E)) with (S (length E)).
    rewrite sum_cons, IH, Hrow, S_INR. lra.
Qed.

Lemma sum_bounds (v : vector) :
  Forall (fun c => 0 <= c <= 1) v -> 0 <= sum v <= INR (length v).
Proof.
  induction 1 as [| c v Hc _ IH].
  - rewrite sum_nil. cbn. lra.
  - change (length (c :: v)) with (S (length v)).
    rewrite sum_cons, S_INR. lra.
Qed.

Lemma nth_bounds (k : nat) (row : vector) :
  Forall (fun c => 0 <= c <= 1) row -> 0 <= nth k row 0 <= 1.
Proof.
  intros H. destruct (Nat.lt_ge_cases k (length row)) as [Hk | Hk].
  - rewrite Forall_forall in H. apply H. apply nth_In. exact Hk.
  - rewrite nth_overflow by exact Hk. lra.
Qed.

(** The column sums of an array with entries in [0, 1] lie between 0 and
    the number of rows. *)
Lemma column_sum_bounds (k : nat) (E : matrix) :
  Forall (fun row => Forall (fun c => 0 <= c <= 1) row) E ->
  Forall (fun n => 0 <= n <= INR (length E)) (map sum (transpose k E)).
Proof.
  intros H. unfold transpose. rewrite map_map. apply Forall_map.
  apply Forall_forall. intros i _.
  pose proof (sum_bounds (map (fun row => nth i row 0) E)) as Hb.
  rewrite length_map in Hb. apply Hb.
  apply Forall_map.
  apply (Forall_impl _ (P := fun row => Forall (fun c => 0 <= c <= 1) row));
    [| exact H].
  intros row Hrow. apply nth_bounds. exact Hrow.
Qed.

Lemma Forall_combine {A B : Type} (P : A -> Prop) (Q : B -> Prop)
    (u : list A) :
  forall v : list B,
    Forall P u -> Forall Q v ->
    Forall (fun p => P (fst p) /\ Q (snd p)) (combine u v).
Proof.
  induction u as [| x u IH]; intros [| y v] Hu Hv; cbn [combine];
    try constructor.
  - inversion Hu; inversion Hv; subst. split; assumption.
  - inversion Hu; inversion Hv; subst. apply IH; assumption.
Qed.

Lemma in_combine_map {A B : Type} (g : A -> B) (l : list A) (x : A) :
  In x l -> In (x, g x) (combine l (map g l)).
Proof.
  induction l as [| y l IH]; intros H; [contradiction |].
  cbn [map combine]. destruct H as [-> | H]; [left; reflexivity |].
  right. apply IH. exact H.
Qed.

(** A [mapM] whose only exception is [e0] raises it as soon as one entry
    does. *)
Lemma mapM_raises {A B : Type} (f : A -> outcome B) (e0 : exn) (l : list A)
    (x : A) :
  (forall y e, f y = Raise e -> e = e0) ->
  In x l -> f x = Raise e0 -> mapM f l = Raise e0.
Proof.
  intros Hf. induction l as [| y l IH]; intros Hin Hx; [contradiction |].
  cbn [mapM]. destruct (f y) as [b | e] eqn:Ey; cbn [bind].
  - destruct Hin as [-> | Hin]; [congruence |].
    rewrite (IH Hin Hx). reflexivity.
  - rewrite (Hf y e Ey). reflexivity.
Qed.

Lemma length_fold_vadd (k : nat) (rows : matrix) :
  Forall (fun row => length row = k) rows ->
  length (fold_right vadd (zeros k) rows) = k.
Proof.
  induction 1 as [| row rows Hrow _ IH]; cbn [fold_right].
  - apply repeat_length.
  - unfold vadd at 1. rewrite length_zipWith, Hrow, IH. lia.
Qed.

Lemma length_weighted_sum (k : nat) (w : vector) (X : matrix) :
  Forall (fun x => length x = k) X -> length (weighted_sum k w X) = k.
Proof.
  intros H. unfold weighted_sum. apply length_fold_vadd.
  revert w. induction H as [| x X Hx _ IH]; intros [| c w]; cbn [zipWith];
    try constructor.
  - unfold vscale. rewrite length_map. exact Hx.
  - apply IH.
Qed.

Lemma vdiv_zero (v : vector) : v <> [] -> vdiv v 0 = Raise ZeroDivisionError.
Proof.
  destruct v as [| c v]; [contradiction |]. intros _.
  unfold vdiv. cbn [mapM]. rewrite div_zero. reflexivity.
Qed.

End CountFacts.

(** X9.  The M step spreads the [N] samples over the components.  On
    responsibilities whose rows have [K] entries and sum to 1, the
    effective counts [N_k] sum to [N]; hence, when the prior [alpha] has
    [K] entries, the posterior [alpha] sums to the sum of the prior plus
    [N], and the posterior [beta] and [nu] sum to [K] times their prior
    plus [N]. *)
Theorem gmm_effective_counts_sum_to_N
    (inv : matrix -> outcome matrix) (X : matrix)
    (self : Mixture.VariationalGaussianMixture) (E_z : matrix)
    (N_k : vector) (l : Mixture.Local.t) :
  length (Mixture.alpha self) = Mixture.K self ->
  Forall (fun row => length row = Mixture.K self /\ sum row = 1) E_z ->
  Mixture.m_step inv X self E_z = Ok (N_k, l) ->
  sum N_k = INR (length E_z)
  /\ sum (Mixture.Local.alpha l)
     = sum (Mixture.alpha self) + INR (length E_z)
  /\ sum (Mixture.Local.beta l)
     = INR (Mixture.K self) * Mixture.beta self + INR (length E_z)
  /\ sum (Mixture.Local.nu l)
     = INR (Mixture.K self) * Mixture.nu self + INR (length E_z).
Proof.
  intros Ha Hrows Em.
  destruct (MixtureMore.m_step_counts inv X self E_z N_k l Em)
    as (HN & HA & HB & HNu).
  assert (HK : length N_k = Mixture.K self).
  { rewrite HN. unfold transpose. rewrite !length_map, length_seq.
    reflexivity. }
  assert (Hsum : sum N_k = INR (length E_z)).
  { rewrite HN, CountFacts.sum_columns.
    - apply CountFacts.sum_unit_rows.
      apply (Forall_impl _ (P := fun row =>
               length row = Mixture.K self /\ sum row = 1));
        [intros row [_ H]; exact H | exact Hrows].
    - apply (Forall_impl _ (P := fun row =>
               length row = Mixture.K self /\ sum row = 1));
        [intros row [H _]; exact H | exact Hrows]. }
  split; [exact Hsum |].
  rewrite HA, HB, HNu.
  rewrite CountFacts.sum_zipWith_plus by congruence.
  rewrite !CountFacts.sum_map_shift, HK, Hsum.
  repeat split; reflexivity.
Qed.

(** X9 on one sample wholly given to one component. *)
Lemma gmm_effective_counts_one_point :
  exists N_k l,
    (length [1] = 1%nat
     /\ Forall (fun row => length row = 1%nat /\ sum row = 1) [[1]]
     /\ Mixture.m_step inv1 [[0]] (MixtureRuns.one_point 1) [[1]]
        = Ok (N_k, l))
    /\ sum N_k = INR (length [[1]]).
Proof.
  destruct (MixtureRuns.run_m_step 1) as (N_k & l & Em).
  assert (Hrows : Forall (fun row => length row = 1%nat /\ sum row = 1)
                         [[1]]).
  { constructor; [| constructor]. split; [reflexivity |].
    rewrite sum_cons, sum_nil. lra. }
  exists N_k, l.
  split; [split; [reflexivity | split; [exact Hrows | exact Em]] |].
  exact (proj1 (gmm_effective_counts_sum_to_N inv1 [[0]]
                  (MixtureRuns.one_point 1) [[1]] N_k l eq_refl Hrows Em)).
Defined.

(** X10.  A threshold above 1 drops every component.  With at least one
    component, a prior [alpha] without negative entries and
    responsibilities in [0, 1], one row per sample, every
    [E_pi = (alpha0 + N_k)/(K alpha0 + N)] that the pruning computes lies
    in [0, 1]; so with a threshold greater than 1 the pass leaves [K = 0]
    and empty arrays. *)
Theorem gmm_threshold_above_one_prunes_all
    (inv : matrix -> outcome matrix) (det : matrix -> R)
    (digamma _log : R -> R) (X : matrix) (threshold : R)
    (self : Mixture.VariationalGaussianMixture) (E_z : matrix)
    (N_k E_pi : vector) (l : Mixture.Local.t) :
  (1 <= Mixture.K self)%nat ->
  Forall (fun a => 0 <= a) (Mixture.alpha self) ->
  Forall (fun row => Forall (fun c => 0 <= c <= 1) row) E_z ->
  length E_z = shape0 X ->
  Mixture.m_step inv X self E_z = Ok (N_k, l) ->
  Mixture.expected_pi X self N_k = Ok E_pi ->
  1 < threshold ->
  Forall (fun e => 0 <= e <= 1) E_pi
  /\ Mixture.round inv det digamma _log X true threshold self E_z
     = (Mixture.set_alpha_K self [] 0,
        Ok (map (fun _ => []) X, Mixture.Local.mk [] [] [] [] [])).
Proof.
  intros HK Halpha Hrows HN Em Epi Hthr.
  destruct (MixtureMore.m_step_counts inv X self E_z N_k l Em) as (HNk & _).
  assert (Hbound : Forall (fun e => 0 <= e <= 1) E_pi).
  { pose proof (CountFacts.column_sum_bounds (Mixture.K self) E_z Hrows)
      as Hcols.
    rewrite <- HNk, HN in Hcols.
    pose proof (CountFacts.Forall_combine _ _ _ _ Halpha Hcols) as Hpairs.
    unfold Mixture.expected_pi in Epi. apply mapM_ok in Epi.
    eapply (MixtureFacts.Forall2_right _ _ _ _ _ _ Hpairs Epi). }
  split; [exact Hbound |].
  apply (MixtureFacts.round_prunes_all inv det digamma _log X true threshold
           self E_z N_k E_pi l eq_refl Em Epi).
  apply (Forall_impl _ (P := fun e => 0 <= e <= 1)); [| exact Hbound].
  intros e He. lra.
  Unshelve.
  intros [a n] e [Ha Hn] Hdiv. cbn [fst snd] in Ha, Hn.
  apply div_inv in Hdiv. destruct Hdiv as [Hd ->].
  assert (H1 : 1 <= INR (Mixture.K self))
    by (change 1 with (INR 1); apply le_INR; exact HK).
  assert (Hdpos : 0 < INR (Mixture.K self) * a + INR (shape0 X)) by nra.
  split.
  - apply Rmult_le_pos; [lra | apply Rlt_le, Rinv_0_lt_compat, Hdpos].
  - apply (Rmult_le_reg_r (INR (Mixture.K self) * a + INR (shape0 X)));
      [exact Hdpos |].
    unfold Rdiv. rewrite Rmult_assoc, Rinv_l by lra. nra.
Qed.

(** X10 on one sample and one component with threshold 2. *)
Lemma gmm_threshold_above_one_one_point :
  exists N_k l E_pi,
    ((1 <= 1)%nat
     /\ Forall (fun a => 0 <= a) [1]
     /\ Forall (fun row => Forall (fun c => 0 <= c <= 1) row) [[1]]
     /\ Mixture.m_step inv1 [[0]] (MixtureRuns.one_point 1) [[1]]
        = Ok (N_k, l)
     /\ Mixture.expected_pi [[0]] (MixtureRuns.one_point 1) N_k = Ok E_pi
     /\ 1 < 2)
    /\ Forall (fun e => 0 <= e <= 1) E_pi.
Proof.
  destruct (MixtureRuns.run_m_step 1) as (N_k & l & Em).
  destruct (MixtureMore.m_step_counts inv1 [[0]] (MixtureRuns.one_point 1)
              [[1]] N_k l Em) as (HN & _).
  destruct (MixtureRuns.run_expected_pi 1) as (e & He & _).
  cbn [Mixture.K] in HN. rewrite <- HN in He.
  assert (H1 : (1 <= 1)%nat) by apply Nat.le_refl.
  assert (H2 : Forall (fun a => 0 <= a) [1])
    by (constructor; [lra | constructor]).
  assert (H3 : Forall (fun row => Forall (fun c => 0 <= c <= 1) row) [[1]])
    by (constructor; [constructor; [lra | constructor] | constructor]).
  assert (H4 : 1 < 2) by lra.
  exists N_k, l, [e].
  split; [repeat (split; [assumption |]); exact H4 |].
  exact (proj1 (gmm_threshold_above_one_prunes_all inv1 det1 psi_leading
                  natural_log [[0]] 2 (MixtureRuns.one_point 1) [[1]]
                  N_k [e] l H1 H2 H3 eq_refl Em He H4)).
Defined.

(** X11.  A component that no sample is given to breaks the M step.  On
    data with at least one column, when a column of the responsibilities
    sums to 0, that [N_k] is the divisor of [x_k_bar]: the M step divides
    by zero. *)
Theorem gmm_empty_component_divides_by_zero
    (inv : matrix -> outcome matrix) (X : matrix)
    (self : Mixture.VariationalGaussianMixture) (E_z : matrix) :
  (1 <= shape1 X)%nat ->
  Forall (fun x => length x = shape1 X) X ->
  In 0 (map sum (transpose (Mixture.K self) E_z)) ->
  Mixture.m_step inv X self E_z = Raise ZeroDivisionError.
Proof.
  intros HM HX Hzero.
  unfold Mixture.m_step.
  apply in_map_iff in Hzero. destruct Hzero as (w & Hw & Hin).
  rewrite (CountFacts.mapM_raises _ ZeroDivisionError _ (w, sum w)).
  - reflexivity.
  - intros [w' n'] e He. exact (MixtureFacts.vdiv_raise _ _ _ He).
  - apply CountFacts.in_combine_map. exact Hin.
  - rewrite Hw. apply CountFacts.vdiv_zero.
    intros Hnil.
    pose proof (CountFacts.length_weighted_sum (shape1 X) w X HX) as Hlen.
    rewrite Hnil in Hlen. cbn in Hlen. lia.
Qed.

(** X11 on one sample that the responsibilities give to no component. *)
Lemma gmm_empty_component_one_point :
  ((1 <= shape1 [[0%R]])%nat /\ In 0 (map sum (transpose 1 [[0]])))
  /\ Mixture.m_step inv1 [[0]] (MixtureRuns.one_point 1) [[0]]
     = Raise ZeroDivisionError.
Proof.
  assert (H2 : (1 <= shape1 [[0%R]])%nat) by apply Nat.le_refl.
  assert (H3 : Forall (fun x : list R => length x = shape1 [[0]]) [[0]])
    by (constructor; [reflexivity | constructor]).
  assert (H4 : In 0 (map sum (transpose 1 [[0]]))).
  { left. unfold transpose. cbn [map seq nth].
    rewrite sum_cons, sum_nil. lra. }
  split; [split; [exact H2 | exact H4] |].
  exact (gmm_empty_component_divides_by_zero inv1 [[0]]
           (MixtureRuns.one_point 1) [[0]] H2 H3 H4).
Defined.

(** ** VariationalGaussianMixture: the predictive density *)

Module DensityMore.
Import Mixture.

Lemma power_raise (x y : R) (e : exn) :
  power x y = Raise e -> e = ZeroDivisionError \/ e = FloatingPointError.
Proof.
  unfold power. intros H.
  repeat match type of H with
         | context [if ?c then _ else _] => destruct c
         end; try discriminate; injection H as <-; auto.
Qed.

Lemma index_ok {A : Type} (arr : list A) (i : nat) :
  (i < length arr)%nat -> exists x, index arr i = Ok x.
Proof.
  intros H. unfold index.
  destruct (nth_error arr i) as [x |] eqn:E; [eauto |].
  apply nth_error_None in E. lia.
Qed.

Section Density.

Variable gamma : R -> R.
Variable det : matrix -> R.

Lemma student_raise (X X' : matrix) (D : nat) (mu : vector) (L : matrix)
    (nu : R) (e : exn) :
  _student gamma det X D mu L nu = (X', Raise e) ->
  e = ZeroDivisionError \/ e = FloatingPointError.
Proof.
  unfold _student. intros H.
  match type of H with
  | context [match ?c with Ok _ => _ | Raise _ => _ end] =>
      destruct c as [nc | e0] eqn:Ec
  end.
  - injection H as _ H.
    apply bind_raise in H. destruct H as [H | (st & _ & H)]; [| discriminate].
    apply mapM_raise in H. destruct H as (d & _ & H).
    apply bind_raise in H. destruct H as [H | (q & _ & H)]; [| discriminate].
    left. exact (div_raise _ _ _ H).
  - injection H as _ <-.
    apply bind_raise in Ec. destruct Ec as [Ec | (g & _ & Ec)];
      [left; exact (div_raise _ _ _ Ec) |].
    apply bind_raise in Ec. destruct Ec as [Ec | (s & _ & Ec)];
      [exact (power_raise _ _ _ Ec) |].
    apply bind_raise in Ec. destruct Ec as [Ec | (p & _ & Ec)];
      [exact (power_raise _ _ _ Ec) |].
    left. exact (div_raise _ _ _ Ec).
Qed.

Lemma student_lengths (X X' : matrix) (D : nat) (mu : vector) (L : matrix)
    (nu : R) (st : vector) :
  _student gamma det X D mu L nu = (X', Ok st) ->
  length X' = length X /\ length st = length X.
Proof.
  unfold _student. intros H.
  match type of H with
  | context [match ?c with Ok _ => _ | Raise _ => _ end] =>
      destruct c as [nc | e0]
  end; [| discriminate].
  injection H as <- H. apply bind_ok in H. destruct H as (st0 & E & H).
  injection H as <-. apply mapM_length in E.
  rewrite !length_map in *. split; [reflexivity | exact E].
Qed.

(** The arrays of the object all have [K] entries. *)
Lemma component_raise (self : Fitted.t) (D i : nat) (e : exn) :
  (i < length (Fitted.nu self))%nat ->
  (i < length (Fitted.beta self))%nat ->
  (i < length (Fitted.W_k self))%nat ->
  (i < length (Fitted.alpha self))%nat ->
  (i < length (Fitted.m_k self))%nat ->
  component self D i = Raise e -> e = ZeroDivisionError.
Proof.
  intros H1 H2 H3 H4 H5. unfold component.
  destruct (index_ok _ _ H1) as (x1 & ->).
  destruct (index_ok _ _ H2) as (x2 & ->).
  destruct (index_ok _ _ H3) as (x3 & ->).
  destruct (index_ok _ _ H4) as (x4 & ->).
  destruct (index_ok _ _ H5) as (x5 & ->).
  cbn [bind]. intros H.
  apply bind_raise in H. destruct H as [H | (c & _ & H)];
    [exact (div_raise _ _ _ H) | discriminate].
Qed.

Lemma density_loop_raise (self : Fitted.t) (D k : nat) (todo : list nat) :
  length (Fitted.alpha self) = k -> length (Fitted.beta self) = k ->
  length (Fitted.m_k self) = k -> length (Fitted.W_k self) = k ->
  length (Fitted.nu self) = k ->
  Forall (fun i => (i < k)%nat) todo ->
  forall X prob X' e,
    density_loop gamma det self D todo X prob = (X', Raise e) ->
    e = ZeroDivisionError \/ e = FloatingPointError.
Proof.
  intros H1 H2 H3 H4 H5.
  induction 1 as [| i todo Hi _ IH]; intros X prob X' e H;
    cbn [density_loop] in H; [discriminate |].
  destruct (component self D i) as [[[[L a_i] m_i] nu'] | e0] eqn:Ec.
  - destruct (_student gamma det X D m_i L nu') as [X1 [st | e1]] eqn:Es.
    + exact (IH _ _ _ _ H).
    + injection H as _ <-. exact (student_raise _ _ _ _ _ _ _ Es).
  - injection H as _ <-. left.
    apply (component_raise self D i e0); try lia. exact Ec.
Qed.

Lemma density_loop_lengths (self : Fitted.t) (D : nat) (todo : list nat) :
  forall X prob X' p,
    density_loop gamma det self D todo X prob = (X', Ok p) ->
    length prob = length X ->
    length X' = length X /\ length p = length X.
Proof.
  induction todo as [| i todo IH]; intros X prob X' p H Hlen;
    cbn [density_loop] in H.
  - injection H as <- <-. split; [reflexivity | exact Hlen].
  - destruct (component self D i) as [[[[L a_i] m_i] nu'] | e0];
      [| discriminate].
    destruct (_student gamma det X D m_i L nu') as [X1 [st | e1]] eqn:Es;
      [| discriminate].
    apply student_lengths in Es. destruct Es as [HX1 Hst].
    destruct (IH _ _ _ _ H) as [HX' Hp].
    + unfold vadd, vscale. rewrite length_zipWith, length_map. lia.
    + split; lia.
Qed.

End Density.

(** The run of [fit] on one sample and one component that prunes its
    component: what it stores. *)
Lemma run_fit_prunes_all :
  fit inv1 det1 psi_leading natural_log (init 1 None None 1 None None 1)
      [[0]] (Some [[1]]) true 2 []
  = Completed (Fitted.mk 0 [] [] [] [] [] [[]] (Some [0]) None
                         (Some [[1]]) 1).
Proof.
  unfold fit. rewrite MixtureRuns.run_prepare.
  cbn [n_iter]. rewrite MixtureFacts.loop_S.
  rewrite MixtureRuns.run_round_prunes by lra.
  reflexivity.
Qed.

End DensityMore.

(** X12.  After a completed [fit] on an object whose prior [alpha] has [K]
    entries, [prob_density] never raises [IndexError]: the arrays it
    indexes over [range(K)] all have [K] entries.  Nothing is said of the
    other ways in which it may fail. *)
Theorem gmm_prob_density_after_fit_indexes_in_range
    (inv : matrix -> outcome matrix) (det : matrix -> R)
    (digamma _log : R -> R) (self : Mixture.VariationalGaussianMixture)
    (X : matrix) (initial_responsibility : option matrix)
    (reduce_components : bool) (threshold : R) (rand : matrix)
    (obj : Mixture.Fitted.t) (gamma : R -> R) (Xq : matrix) :
  length (Mixture.alpha self) = Mixture.K self ->
  Mixture.fit inv det digamma _log self X initial_responsibility
              reduce_components threshold rand = Mixture.Completed obj ->
  snd (Mixture.prob_density gamma det obj Xq) <> Raise IndexError.
Proof.
  intros Ha Hf.
  destruct (Mixture.prob_density gamma det obj Xq) as [Xq' [p | e]] eqn:Hd;
    cbn [snd]; [discriminate |].
  enough (He : e = ZeroDivisionError \/ e = FloatingPointError)
    by (destruct He as [-> | ->]; discriminate).
  destruct (MixtureFacts.fit_completed inv det digamma _log X
              reduce_components threshold initial_responsibility rand
              self obj Ha Hf) as (_ & H1 & H2 & H3 & H4 & H5 & _).
  unfold Mixture.prob_density in Hd.
  destruct (Mixture.density_loop gamma det obj (shape1 Xq)
              (seq 0 (Mixture.Fitted.K obj)) Xq (zeros (shape0 Xq)))
    as [X1 [p | e1]] eqn:El.
  - injection Hd as _ Hd. left.
    exact (MixtureFacts.vdiv_raise _ _ _ Hd).
  - injection Hd as _ <-.
    apply (DensityMore.density_loop_raise gamma det obj (shape1 Xq)
             (Mixture.Fitted.K obj) (seq 0 (Mixture.Fitted.K obj))
             H1 H2 H3 H4 H5) with (X := Xq) (prob := zeros (shape0 Xq))
             (X' := X1); [| exact El].
    apply Forall_forall. intros i Hi. apply in_seq in Hi. lia.
Qed.

(** X12 on the object that one pass without pruning on one sample
    stores, which has one component. *)
Lemma gmm_prob_density_after_one_pass :
  length [1] = 1%nat
  /\ exists obj,
       Mixture.fit inv1 det1 psi_leading natural_log
         (Mixture.init 1 None None 1 None None 1) [[0]] (Some [[1]])
         false 0 [] = Mixture.Completed obj
       /\ snd (Mixture.prob_density gamma_half_or_one det1 obj [[0]])
          <> Raise IndexError.
Proof.
  split; [reflexivity |].
  destruct (MixtureRuns.run_round det1 psi_leading natural_log 1 0 false)
    as (s & E & l & Hr).
  assert (Hf : Mixture.fit inv1 det1 psi_leading natural_log
                 (Mixture.init 1 None None 1 None None 1) [[0]]
                 (Some [[1]]) false 0 []
               = Mixture.store s E (Some l)).
  { unfold Mixture.fit. rewrite MixtureRuns.run_prepare.
    cbn [Mixture.n_iter]. rewrite MixtureFacts.loop_S, Hr. reflexivity. }
  eexists. split; [exact Hf |].
  exact (gmm_prob_density_after_fit_indexes_in_range inv1 det1 psi_leading
           natural_log (Mixture.init 1 None None 1 None None 1) [[0]]
           (Some [[1]]) false 0 [] _ gamma_half_or_one [[0]] eq_refl Hf).
Defined.

(** X13.  On an object with no component left, [prob_density] of an array
    with at least one row divides the zero vector by the empty sum of
    [alpha]; the array it was given is not written. *)
Theorem gmm_prob_density_without_components
    (gamma : R -> R) (det : matrix -> R) (obj : Mixture.Fitted.t)
    (X : matrix) :
  Mixture.Fitted.K obj = O ->
  Mixture.Fitted.alpha obj = [] ->
  X <> [] ->
  Mixture.prob_density gamma det obj X = (X, Raise ZeroDivisionError).
Proof.
  intros HK Halpha HX. unfold Mixture.prob_density.
  rewrite HK, Halpha. cbn [seq Mixture.density_loop].
  rewrite sum_nil, CountFacts.vdiv_zero; [reflexivity |].
  destruct X as [| x X]; [contradiction | discriminate].
Qed.

(** X13 on the object that the fit of one sample with threshold 2
    stores. *)
Lemma gmm_prob_density_without_components_one_sample :
  [[0]] <> ([] : matrix)
  /\ Mixture.prob_density gamma_half_or_one det1
       (Mixture.Fitted.mk 0 [] [] [] [] [] [[]] (Some [0]) None
                          (Some [[1]]) 1) [[0]]
     = ([[0]], Raise ZeroDivisionError).
Proof.
  assert (HX : [[0]] <> ([] : matrix)) by discriminate.
  split; [exact HX |].
  exact (gmm_prob_density_without_components gamma_half_or_one det1
           (Mixture.Fitted.mk 0 [] [] [] [] [] [[]] (Some [0]) None
                              (Some [[1]]) 1) [[0]] eq_refl eq_refl HX).
Defined.

(** X14.  When [prob_density] returns, it returns one density per row of
    the array it was given, and that array still has as many rows. *)
Theorem gmm_prob_density_one_value_per_sample
    (gamma : R -> R) (det : matrix -> R) (obj : Mixture.Fitted.t)
    (X X' : matrix) (p : vector) :
  Mixture.prob_density gamma det obj X = (X', Ok p) ->
  length p = length X /\ length X' = length X.
Proof.
  unfold Mixture.prob_density. intros H.
  destruct (Mixture.density_loop gamma det obj (shape1 X)
              (seq 0 (Mixture.Fitted.K obj)) X (zeros (shape0 X)))
    as [X1 [p1 | e1]] eqn:El; [| discriminate].
  injection H as <- H. apply mapM_length in H.
  destruct (DensityMore.density_loop_lengths gamma det obj _ _ _ _ _ _ El)
    as [HX Hp].
  - unfold zeros, shape0. apply repeat_length.
  - split; [lia | exact HX].
Qed.

(** X14 on one component of mean 1 and the array [[[2.]]]. *)
Lemma gmm_prob_density_one_value_one_sample :
  exists X' p,
    Mixture.prob_density gamma_half_or_one det1 DensityFacts.unit_component
                         [[2]] = (X', Ok p)
    /\ length p = 1%nat.
Proof.
  destruct DensityFacts.unit_component_density as (p & Hp).
  exists [[2 - 1]], p. split; [exact Hp |].
  exact (proj1 (gmm_prob_density_one_value_per_sample gamma_half_or_one det1
                  DensityFacts.unit_component [[2]] [[2 - 1]] p Hp)).
Defined.

(** ** VariationalLogisticRegression *)

Module LogisticMore.
Import Logistic.

Lemma sigmoid_above_half (t : R) : 0 < t -> 1 / 2 < sigmoid t.
Proof.
  intros H. unfold sigmoid.
  assert (He : exp (- t) < 1)
    by (rewrite <- exp_0; apply exp_increasing; lra).
  pose proof (exp_pos (- t)) as Hp.
  replace (1 / 2) with (/ 2) by lra.
  unfold Rdiv. rewrite Rmult_1_l.
  apply Rinv_lt_contravar; nra.
Qed.

Lemma sigmoid_below_half (t : R) : t < 0 -> sigmoid t < 1 / 2.
Proof.
  intros H. unfold sigmoid.
  assert (He : 1 < exp (- t))
    by (rewrite <- exp_0; apply exp_increasing; lra).
  replace (1 / 2) with (/ 2) by lra.
  unfold Rdiv. rewrite Rmult_1_l.
  apply Rinv_lt_contravar; nra.
Qed.

(** Away from 0 the numerator [sigmoid(xi) - 0.5] has the sign of [xi]. *)
Lemma lamda_value_positive (x : R) :
  x <> 0 -> 0 < (sigmoid x - 0.5) / (2 * x).
Proof.
  intros Hx. destruct (Rlt_dec 0 x) as [Hp | Hn].
  - pose proof (sigmoid_above_half x Hp).
    apply Rdiv_lt_0_compat; lra.
  - assert (Hneg : x < 0) by lra.
    pose proof (sigmoid_below_half x Hneg).
    replace ((sigmoid x - 0.5) / (2 * x))
      with ((/ 2 - sigmoid x) / (2 * - x))
      by (replace 0.5 with (/ 2) by lra; field; exact Hx).
    apply Rdiv_lt_0_compat; lra.
Qed.

Lemma quotient_times_divisor (x y : R) : y <> 0 -> x / y * y = x.
Proof. intros H. field. exact H. Qed.

Lemma lamda_at_ok (x v : R) :
  lamda_at x = Ok v -> x <> 0 /\ v = (sigmoid x - 0.5) / (2 * x).
Proof.
  unfold lamda_at. intros H. apply div_inv in H. destruct H as [H ->].
  split; [lra | reflexivity].
Qed.

Lemma _lamda_zero (xi0 : vector) :
  In 0 xi0 -> _lamda xi0 = Raise ZeroDivisionError.
Proof.
  intros H. unfold _lamda.
  apply (CountFacts.mapM_raises lamda_at ZeroDivisionError xi0 0).
  - intros y e Hy. exact (div_raise _ _ _ Hy).
  - exact H.
  - exact LogisticFacts.lamda_at_zero.
Qed.

Lemma power_half_total (x : R) : 0 <= x -> exists r, power x 0.5 = Ok r.
Proof.
  intros Hx. unfold power.
  destruct (Rlt_dec 0 x); [eauto |].
  destruct (Req_dec_T x 0); [| lra].
  destruct (Rlt_dec 0 0.5); [eauto | lra].
Qed.

Lemma root_diag_result (design_mat E : matrix) (new_xi : vector) :
  root_diag design_mat E = Ok new_xi ->
  length new_xi = length design_mat /\ Forall (fun x => 0 <= x) new_xi.
Proof.
  unfold root_diag. intros H. split; [exact (mapM_length _ _ _ H) |].
  apply mapM_ok in H.
  induction H as [| phi r l l' Hr _ IH]; constructor;
    [exact (Gauss1DMore.power_half_result _ _ Hr) | exact IH].
Qed.

(** The test that ends a pass: it breaks only below a positive threshold. *)
Lemma pass_test (xi0 nx new_xi : vector) (th : R) (brk : bool) :
  (let sq := map (fun d => d ^ 2) (vsub xi0 nx) in
   mean <- div (sum sq) (INR (length sq)) ;;
   rms <- power mean 0.5 ;;
   if Rlt_dec rms th then Ok (true, nx) else Ok (false, nx))
  = Ok (brk, new_xi) ->
  new_xi = nx /\ (brk = true -> 0 < th).
Proof.
  cbv zeta. intros H.
  apply bind_ok in H. destruct H as (mean & _ & H).
  apply bind_ok in H. destruct H as (rms & Hr & H).
  apply Gauss1DMore.power_half_result in Hr.
  destruct (Rlt_dec rms th) as [Hlt | _]; injection H as <- <-.
  - split; [reflexivity | intros _; lra].
  - split; [reflexivity | discriminate].
Qed.

Section Fit.

Variables Base Labels : Type.
Variable _onehot_to_label : Base -> Labels -> Base * outcome vector.
Variable make_design_mat : Base -> matrix -> matrix.
Variable inv : matrix -> outcome matrix.

Section Loop.

Variable design_mat : matrix.
Variable y : vector.
Variables (optimize_param : bool) (init_a init_b : R).

Abbreviation kept self self' :=
  (max_iter self' = max_iter self
   /\ threshold self' = threshold self
   /\ base self' = base self
   /\ xi self' = xi self
   /\ (optimize_param = false ->
       alpha self' = alpha self /\ a self' = a self /\ b self' = b self)).

Abbreviation updated self' new_xi :=
  ((exists S0,
       S self' = Some S0
       /\ weight self'
          = Some (mat_vec S0
                    (weighted_sum (shape1 design_mat)
                       (map (fun t => t - 0.5) y) design_mat)))
   /\ (optimize_param = true ->
       exists b',
         a self' = Some (init_a + INR (shape1 design_mat) / 2)
         /\ b self' = Some b'
         /\ b' <> 0
         /\ alpha self' * b' = init_a + INR (shape1 design_mat) / 2)
   /\ length new_xi = length design_mat
   /\ Forall (fun x => 0 <= x) new_xi).

Lemma body_inv (self self' : VariationalLogisticRegression Base)
    (xi0 new_xi : vector) (brk : bool) :
  body inv design_mat y optimize_param init_a init_b self xi0
  = (self', Ok (brk, new_xi)) ->
  kept self self' /\ updated self' new_xi
  /\ (brk = true -> 0 < threshold self).
Proof.
  unfold body. intros H.
  match type of H with
  | context [match ?c with Ok _ => _ | Raise _ => _ end] =>
      destruct c as [S0 | e0]
  end; [| discriminate].
  destruct optimize_param.
  - unfold _opt_param in H.
    match type of H with
    | context [div ?x ?y] => destruct (div x y) as [q | e1] eqn:Eq
    end; [| discriminate].
    match type of H with
    | context [root_diag ?d ?E] =>
        destruct (root_diag d E) as [nx | e2] eqn:Er
    end; [| discriminate].
    injection H as <- H.
    apply pass_test in H. destruct H as [-> Hb].
    apply div_inv in Eq. destruct Eq as [Hb0 ->].
    destruct (root_diag_result _ _ _ Er) as [Hl Hp].
    split; [| split].
    + cbn. repeat split; discriminate.
    + split; [eexists; split; reflexivity |].
      split; [| split; [exact Hl | exact Hp]].
      intros _. eexists. split; [reflexivity |].
      split; [reflexivity |]. split; [exact Hb0 |].
      cbn [alpha set_alpha set_a_b]. apply quotient_times_divisor. exact Hb0.
    + exact Hb.
  - match type of H with
    | context [root_diag ?d ?E] =>
        destruct (root_diag d E) as [nx | e2] eqn:Er
    end; [| discriminate].
    injection H as <- H.
    apply pass_test in H. destruct H as [-> Hb].
    destruct (root_diag_result _ _ _ Er) as [Hl Hp].
    split; [| split].
    + cbn. repeat split; reflexivity.
    + split; [eexists; split; reflexivity |].
      split; [discriminate | split; [exact Hl | exact Hp]].
    + exact Hb.
Qed.

Lemma loop_inv (n : nat) :
  forall (self self' : VariationalLogisticRegression Base)
         (xi0 xi' : vector) (ex : loop_exit),
    loop inv design_mat y optimize_param init_a init_b n self xi0
    = (self', Ok (ex, xi')) ->
    kept self self'
    /\ (ex = Broke -> 0 < threshold self)
    /\ ((0 < n)%nat -> updated self' xi')
    /\ (n = O -> self' = self /\ xi' = xi0).
Proof.
  induction n as [| n IH]; intros self self' xi0 xi' ex H; cbn [loop] in H.
  - injection H as <- <- <-.
    split; [repeat split; reflexivity |].
    split; [discriminate |]. split; [lia | intros _; split; reflexivity].
  - destruct (body inv design_mat y optimize_param init_a init_b self xi0)
      as [self1 [[brk nx] | e]] eqn:Eb; [| discriminate].
    destruct (body_inv _ _ _ _ _ Eb)
      as ((K1 & K2 & K3 & K4 & K5) & Hu & Hb).
    destruct brk.
    + injection H as <- <- <-.
      split; [repeat split; try assumption; apply K5; assumption |].
      split; [intros _; apply Hb; reflexivity |].
      split; [intros _; exact Hu | discriminate].
    + destruct (IH _ _ _ _ _ H)
        as ((J1 & J2 & J3 & J4 & J5) & Je & Ju & J0).
      split.
      { split; [congruence |]. split; [congruence |].
        split; [congruence |]. split; [congruence |].
        intros Ho. destruct (K5 Ho) as (A1 & A2 & A3).
        destruct (J5 Ho) as (B1 & B2 & B3).
        repeat split; congruence. }
      split; [intros He; rewrite <- K2; exact (Je He) |].
      split; [| discriminate].
      intros _. destruct n as [| n'].
      * destruct (J0 eq_refl) as [-> ->]. exact Hu.
      * apply Ju. lia.
Qed.

End Loop.

Lemma prepare_inv (self self1 : VariationalLogisticRegression Base)
    (X : matrix) (y : Labels) (init_xi : option vector) (init_a init_b : R)
    (randn y' xi0 : vector) :
  prepare _onehot_to_label self X y init_xi init_a init_b randn
  = (self1, Ok (y', xi0)) ->
  exists base',
    _onehot_to_label (base self) y = (base', Ok y')
    /\ self1 = set_a_b (set_base self base') init_a init_b
    /\ xi0 = match init_xi with None => randn | Some v => v end.
Proof.
  unfold prepare. intros H.
  destruct (_onehot_to_label (base self) y) as [base' [yl | e]];
    [| discriminate].
  exists base'. destruct init_xi as [v |].
  - destruct (negb (Nat.eqb (length v) (shape0 X))); [discriminate |].
    injection H as <- <- <-. repeat split; reflexivity.
  - injection H as <- <- <-. repeat split; reflexivity.
Qed.

End Fit.

End LogisticMore.
(** A run of the solver on one sample with the design matrix [[[1.]]]:
    the base class converts nothing and [np.linalg.inv] is [inv1]. *)
Module LogisticRuns.
Import Logistic.

Lemma run_test (x r th : R) :
  exists brk,
    (let sq := map (fun d => d ^ 2) (vsub [x] [r]) in
     mean <- div (sum sq) (INR (length sq)) ;;
     rms <- power mean 0.5 ;;
     if Rlt_dec rms th then Ok (true, [r]) else Ok (false, [r]))
    = Ok (brk, [r]).
Proof.
  cbv zeta. cbn [vsub zipWith map length INR].
  rewrite sum_cons, sum_nil, div_ok by lra. cbn [bind].
  destruct (LogisticMore.power_half_total (((x - r) ^ 2 + 0) / 1))
    as [rms Hr]; [pose proof (pow2_ge_0 (x - r)); lra |].
  rewrite Hr. cbn [bind]. destruct (Rlt_dec rms th); eauto.
Qed.

Lemma run_root_diag (e : R) :
  0 <= e -> exists r, root_diag [[1]] [[e]] = Ok [r].
Proof.
  intros He. unfold root_diag, quad, mat_vec, dot.
  cbn [mapM map zipWith]. rewrite !sum_cons, !sum_nil.
  destruct (LogisticMore.power_half_total (1 * (e * 1 + 0) + 0))
    as [r Hr]; [nra |].
  rewrite Hr. cbn [bind]. eauto.
Qed.

Lemma run_body (self : VariationalLogisticRegression unit) (t x : R)
    (optimize_param : bool) (init_a init_b : R) :
  0 <= alpha self -> x <> 0 -> 0 < init_b ->
  exists self' brk nx,
    body inv1 [[1]] [t] optimize_param init_a init_b self [x]
    = (self', Ok (brk, nx)).
Proof.
  intros Ha Hx Hb. unfold body, _lamda. cbn [mapM shape1 length].
  rewrite (LogisticFacts.lamda_at_nonzero x Hx). cbn [bind].
  pose proof (LogisticMore.lamda_value_positive x Hx) as Hl.
  set (lam := (sigmoid x - 0.5) / (2 * x)) in *.
  change (madd (mscale (alpha self) (eye 1)) (mscale 2 (gram 1 [lam] [[1]])))
    with [[alpha self * 1 + 2 * (lam * (1 * 1) + 0)]].
  set (c0 := alpha self * 1 + 2 * (lam * (1 * 1) + 0)).
  assert (Hc : 0 < c0) by (unfold c0; nra).
  unfold inv1. destruct (Req_dec_T c0 0) as [E | _]; [lra |].
  assert (Hs : 0 < 1 / c0) by (apply Rdiv_lt_0_compat; lra).
  set (s := 1 / c0) in *.
  change (mat_vec [[s]] (weighted_sum 1 (map (fun t0 => t0 - 0.5) [t]) [[1]]))
    with [s * ((t - 0.5) * 1 + 0) + 0].
  set (w := s * ((t - 0.5) * 1 + 0) + 0).
  destruct (run_root_diag (s + w * w)) as [r Hr]; [nra |].
  destruct (run_test x r (threshold self)) as [brk Ht].
  destruct optimize_param.
  - unfold _opt_param. cbn [shape1 length].
    change (madd [[s]] (outer [w] [w])) with [[s + w * w]].
    change (trace [[s + w * w]]) with (s + w * w + 0).
    rewrite div_ok by nra. rewrite Hr.
    eexists _, brk, [r]. f_equal. exact Ht.
  - change (madd [[s]] (outer [w] [w])) with [[s + w * w]].
    rewrite Hr. eexists _, brk, [r]. f_equal. exact Ht.
Qed.

Abbreviation labels_as_given := (fun (b : unit) (y : vector) => (b, Ok y)).
Abbreviation rows_as_given := (fun (_ : unit) (X : matrix) => X).
Abbreviation solver n th := (mkSolver 1 None None None None None n th tt).

Lemma run_loop (th : R) (optimize_param : bool) (init_a : R) (x : R) :
  x <> 0 ->
  exists self' ex xi',
    loop inv1 [[1]] [1] optimize_param init_a 1 1
         (set_a_b (solver 1%nat th) init_a 1) [x]
    = (self', Ok (ex, xi')).
Proof.
  intros Hx. cbn [loop].
  destruct (run_body (set_a_b (solver 1%nat th) init_a 1) 1 x optimize_param
              init_a 1) as (self' & brk & nx & Hb);
    [cbn; lra | exact Hx | lra |].
  rewrite Hb. destruct brk; eauto.
Qed.

Lemma run_fit (th : R) (optimize_param : bool) (init_a : R) :
  exists st,
    fit labels_as_given rows_as_given inv1 (solver 1%nat th) [[1]] [1]
        (Some [1]) optimize_param init_a 1 []
    = (st, Ok tt).
Proof.
  unfold fit, prepare.
  cbn [base length shape0 Nat.eqb negb set_base set_a_b max_iter alpha xi a b
       S weight threshold].
  destruct (run_loop th optimize_param init_a 1) as (self' & ex & xi' & Hl);
    [lra |].
  change (set_a_b (set_base (solver 1%nat th) tt) init_a 1)
    with (set_a_b (solver 1%nat th) init_a 1).
  rewrite Hl. eauto.
Qed.

End LogisticRuns.

(** X15.  Without [optimize_param], a [fit] that returns leaves [alpha],
    [max_iter] and [threshold] as they were and [a], [b] at [init_a],
    [init_b]: only [_opt_param] writes them after the loop has started. *)
Theorem logistic_fit_keeps_alpha_without_optimization
    (Base Labels : Type)
    (_onehot_to_label : Base -> Labels -> Base * outcome vector)
    (make_design_mat : Base -> matrix -> matrix)
    (inv : matrix -> outcome matrix)
    (self st : Logistic.VariationalLogisticRegression Base) (X : matrix)
    (y : Labels) (init_xi : option vector) (init_a init_b : R)
    (randn : vector) :
  Logistic.fit _onehot_to_label make_design_mat inv self X y init_xi false
               init_a init_b randn = (st, Ok tt) ->
  Logistic.alpha st = Logistic.alpha self
  /\ Logistic.a st = Some init_a
  /\ Logistic.b st = Some init_b
  /\ Logistic.max_iter st = Logistic.max_iter self
  /\ Logistic.threshold st = Logistic.threshold self.
Proof.
  unfold Logistic.fit. intros H.
  destruct (Logistic.prepare _onehot_to_label self X y init_xi init_a init_b
              randn) as [self1 [[y' xi0] | e]] eqn:Hp; [| discriminate].
  match type of H with
  | context [Logistic.loop ?i ?d ?l ?o ?ia ?ib ?n ?s ?x] =>
      destruct (Logistic.loop i d l o ia ib n s x)
        as [self2 [[ex xi'] | e]] eqn:Hl
  end; [| discriminate].
  injection H as <-.
  destruct (LogisticMore.prepare_inv _ _ _ _ _ _ _ _ _ _ _ _ _ Hp)
    as (base' & _ & -> & _).
  destruct (LogisticMore.loop_inv _ _ _ _ _ _ _ _ _ _ _ _ _ Hl)
    as ((K1 & K2 & _ & _ & K5) & _).
  destruct (K5 eq_refl) as (A1 & A2 & A3).
  cbn in *. repeat split; assumption.
Qed.

(** X15 on one sample. *)
Lemma logistic_fit_keeps_alpha_one_sample :
  exists st,
    Logistic.fit LogisticRuns.labels_as_given LogisticRuns.rows_as_given inv1
                 (LogisticRuns.solver 1%nat 0) [[1]] [1] (Some [1]) false
                 0 1 [] = (st, Ok tt)
    /\ Logistic.alpha st = 1.
Proof.
  destruct (LogisticRuns.run_fit 0 false 0) as [st H].
  exists st. split; [exact H |].
  exact (proj1 (logistic_fit_keeps_alpha_without_optimization unit vector
                  LogisticRuns.labels_as_given LogisticRuns.rows_as_given
                  inv1 (LogisticRuns.solver 1%nat 0) st [[1]] [1]
                  (Some [1]) 0 1 [] H)).
Defined.

(** X16.  With [optimize_param] and at least one pass, a [fit] that returns
    has stored [a = init_a + M/2] for the [M] columns of the design matrix,
    and [alpha] is the quotient [a/b] of the stored [a] and [b], as the
    last call of [_opt_param] computed it.  Nothing is said of the value of
    [b]. *)
Theorem logistic_fit_optimized_alpha_is_a_over_b
    (Base Labels : Type)
    (_onehot_to_label : Base -> Labels -> Base * outcome vector)
    (make_design_mat : Base -> matrix -> matrix)
    (inv : matrix -> outcome matrix)
    (self st : Logistic.VariationalLogisticRegression Base) (X : matrix)
    (y : Labels) (init_xi : option vector) (init_a init_b : R)
    (randn : vector) :
  (0 < Logistic.max_iter self)%nat ->
  Logistic.fit _onehot_to_label make_design_mat inv self X y init_xi true
               init_a init_b randn = (st, Ok tt) ->
  exists a' b',
    Logistic.a st = Some a'
    /\ Logistic.b st = Some b'
    /\ a' = init_a
            + INR (shape1 (make_design_mat (Logistic.base st) X)) / 2
    /\ Logistic.alpha st = a' / b'.
Proof.
  unfold Logistic.fit. intros Hn H.
  destruct (Logistic.prepare _onehot_to_label self X y init_xi init_a init_b
              randn) as [self1 [[y' xi0] | e]] eqn:Hp; [| discriminate].
  match type of H with
  | context [Logistic.loop ?i ?d ?l ?o ?ia ?ib ?n ?s ?x] =>
      destruct (Logistic.loop i d l o ia ib n s x)
        as [self2 [[ex xi'] | e]] eqn:Hl
  end; [| discriminate].
  injection H as <-.
  destruct (LogisticMore.prepare_inv _ _ _ _ _ _ _ _ _ _ _ _ _ Hp)
    as (base' & _ & E1 & _).
  destruct (LogisticMore.loop_inv _ _ _ _ _ _ _ _ _ _ _ _ _ Hl)
    as ((_ & _ & K3 & _) & _ & Hu & _).
  assert (Hpos : (0 < Logistic.max_iter self1)%nat)
    by (rewrite E1; exact Hn).
  destruct (Hu Hpos) as (_ & Ho & _).
  destruct (Ho eq_refl) as (b' & A1 & A2 & A3 & A4).
  eexists _, b'. cbn [Logistic.set_xi Logistic.a Logistic.b Logistic.alpha
                      Logistic.base].
  rewrite K3. split; [exact A1 |]. split; [exact A2 |].
  split; [reflexivity |].
  apply Rmult_eq_reg_r with b'; [| exact A3].
  rewrite A4. field. exact A3.
Qed.

(** X16 on one sample. *)
Lemma logistic_fit_optimized_one_sample :
  (0 < 1)%nat
  /\ exists st a' b',
       Logistic.fit LogisticRuns.labels_as_given LogisticRuns.rows_as_given
                    inv1 (LogisticRuns.solver 1%nat 0) [[1]] [1] (Some [1])
                    true 0 1 [] = (st, Ok tt)
       /\ Logistic.a st = Some a'
       /\ Logistic.b st = Some b'
       /\ Logistic.alpha st = a' / b'.
Proof.
  split; [lia |].
  destruct (LogisticRuns.run_fit 0 true 0) as [st H].
  destruct (logistic_fit_optimized_alpha_is_a_over_b unit vector
              LogisticRuns.labels_as_given LogisticRuns.rows_as_given
              inv1 (LogisticRuns.solver 1%nat 0) st [[1]] [1]
              (Some [1]) 0 1 [] (Nat.lt_0_succ 0) H)
    as (a' & b' & Ha & Hb & _ & Hq).
  exists st, a', b'.
  split; [exact H |]. split; [exact Ha |]. split; [exact Hb | exact Hq].
Defined.

(** X17.  A [fit] that returns after at least one pass has stored the
    posterior: [S], a [weight] with one entry per row of [S], and an [xi]
    with one entry per row of the design matrix, none of them negative. *)
Theorem logistic_fit_stores_posterior
    (Base Labels : Type)
    (_onehot_to_label : Base -> Labels -> Base * outcome vector)
    (make_design_mat : Base -> matrix -> matrix)
    (inv : matrix -> outcome matrix)
    (self st : Logistic.VariationalLogisticRegression Base) (X : matrix)
    (y : Labels) (init_xi : option vector) (optimize_param : bool)
    (init_a init_b : R) (randn : vector) :
  (0 < Logistic.max_iter self)%nat ->
  Logistic.fit _onehot_to_label make_design_mat inv self X y init_xi
               optimize_param init_a init_b randn = (st, Ok tt) ->
  exists S0 w xi',
    Logistic.S st = Some S0
    /\ Logistic.weight st = Some w
    /\ Logistic.xi st = Some xi'
    /\ length w = length S0
    /\ length xi' = length (make_design_mat (Logistic.base st) X)
    /\ Forall (fun x => 0 <= x) xi'.
Proof.
  unfold Logistic.fit. intros Hn H.
  destruct (Logistic.prepare _onehot_to_label self X y init_xi init_a init_b
              randn) as [self1 [[y' xi0] | e]] eqn:Hp; [| discriminate].
  match type of H with
  | context [Logistic.loop ?i ?d ?l ?o ?ia ?ib ?n ?s ?x] =>
      destruct (Logistic.loop i d l o ia ib n s x)
        as [self2 [[ex xi'] | e]] eqn:Hl
  end; [| discriminate].
  injection H as <-.
  destruct (LogisticMore.prepare_inv _ _ _ _ _ _ _ _ _ _ _ _ _ Hp)
    as (base' & _ & E1 & _).
  destruct (LogisticMore.loop_inv _ _ _ _ _ _ _ _ _ _ _ _ _ Hl)
    as ((_ & _ & K3 & _) & _ & Hu & _).
  assert (Hpos : (0 < Logistic.max_iter self1)%nat)
    by (rewrite E1; exact Hn).
  destruct (Hu Hpos) as ((S0 & HS & Hw) & _ & Hlen & Hxi).
  eexists S0, _, xi'.
  cbn [Logistic.set_xi Logistic.S Logistic.weight Logistic.xi Logistic.base].
  rewrite K3.
  split; [exact HS |]. split; [exact Hw |]. split; [reflexivity |].
  split; [unfold mat_vec; apply length_map |].
  split; [exact Hlen | exact Hxi].
Qed.

(** X17 on one sample. *)
Lemma logistic_fit_stores_posterior_one_sample :
  (0 < 1)%nat
  /\ exists st xi',
       Logistic.fit LogisticRuns.labels_as_given LogisticRuns.rows_as_given
                    inv1 (LogisticRuns.solver 1%nat 0) [[1]] [1] (Some [1])
                    false 0 1 [] = (st, Ok tt)
       /\ Logistic.xi st = Some xi'
       /\ Forall (fun x => 0 <= x) xi'.
Proof.
  split; [lia |].
  destruct (LogisticRuns.run_fit 0 false 0) as [st H].
  destruct (logistic_fit_stores_posterior unit vector
              LogisticRuns.labels_as_given LogisticRuns.rows_as_given
              inv1 (LogisticRuns.solver 1%nat 0) st [[1]] [1]
              (Some [1]) false 0 1 [] (Nat.lt_0_succ 0) H)
    as (S0 & w & xi' & _ & _ & Hx & _ & _ & Hp).
  exists st, xi'. split; [exact H | split; [exact Hx | exact Hp]].
Defined.

(** X18.  With a [threshold] that is not positive the loop of [fit] never
    ends by [break]: the root mean square it compares is never negative,
    so every run that returns has made all its passes. *)
Theorem logistic_nonpositive_threshold_never_breaks
    (Base : Type) (inv : matrix -> outcome matrix) (design_mat : matrix)
    (y : vector) (optimize_param : bool) (init_a init_b : R) (n : nat)
    (self self' : Logistic.VariationalLogisticRegression Base)
    (xi0 xi' : vector) (ex : Logistic.loop_exit) :
  Logistic.threshold self <= 0 ->
  Logistic.loop inv design_mat y optimize_param init_a init_b n self xi0
  = (self', Ok (ex, xi')) ->
  ex = Logistic.Exhausted.
Proof.
  intros Hth H.
  destruct (LogisticMore.loop_inv _ _ _ _ _ _ _ _ _ _ _ _ _ H)
    as (_ & Hb & _).
  destruct ex; [| reflexivity].
  specialize (Hb eq_refl). lra.
Qed.

(** X18 on one sample with [threshold = 0]. *)
Lemma logistic_zero_threshold_one_sample :
  0 <= 0
  /\ exists self' ex xi',
       Logistic.loop inv1 [[1]] [1] false 0 1 1
         (Logistic.set_a_b (LogisticRuns.solver 1%nat 0) 0 1) [1]
       = (self', Ok (ex, xi'))
       /\ ex = Logistic.Exhausted.
Proof.
  split; [lra |].
  destruct (LogisticRuns.run_loop 0 false 0 1 R1_neq_R0)
    as (self' & ex & xi' & H).
  exists self', ex, xi'. split; [exact H |].
  exact (logistic_nonpositive_threshold_never_breaks unit inv1 [[1]] [1]
           false 0 1 1%nat
           (Logistic.set_a_b (LogisticRuns.solver 1%nat 0) 0 1) self' [1] xi'
           ex (Rle_refl 0) H).
Defined.

(** X19.  A starting [init_xi] of the right length with a zero entry anywhere
    makes the first pass of [fit] divide by zero in [_lamda]. *)
Theorem logistic_fit_zero_entry_divides_by_zero
    (Base Labels : Type)
    (_onehot_to_label : Base -> Labels -> Base * outcome vector)
    (make_design_mat : Base -> matrix -> matrix)
    (inv : matrix -> outcome matrix)
    (self : Logistic.VariationalLogisticRegression Base) (X : matrix)
    (y : Labels) (v : vector) (optimize_param : bool) (init_a init_b : R)
    (randn : vector) (base' : Base) (y' : vector) :
  _onehot_to_label (Logistic.base self) y = (base', Ok y') ->
  length v = shape0 X ->
  In 0 v ->
  (0 < Logistic.max_iter self)%nat ->
  snd (Logistic.fit _onehot_to_label make_design_mat inv self X y (Some v)
                    optimize_param init_a init_b randn)
  = Raise ZeroDivisionError.
Proof.
  intros Hy Hv H0 Hn. unfold Logistic.fit, Logistic.prepare.
  rewrite Hy. apply Nat.eqb_eq in Hv. rewrite Hv. cbn [negb].
  cbn [Logistic.max_iter Logistic.set_a_b Logistic.set_base].
  destruct (Logistic.max_iter self) as [| n]; [lia |].
  cbn [Logistic.loop]. unfold Logistic.body.
  rewrite (LogisticMore._lamda_zero v H0). reflexivity.
Qed.

(** X19 on one sample with [init_xi = [0.]]. *)
Lemma logistic_fit_zero_entry_one_sample :
  snd (Logistic.fit LogisticRuns.labels_as_given LogisticRuns.rows_as_given
                    inv1 (LogisticRuns.solver 1%nat 0) [[1]] [1] (Some [0])
                    false 0 1 [])
  = Raise ZeroDivisionError.
Proof.
  exact (logistic_fit_zero_entry_divides_by_zero unit vector
           LogisticRuns.labels_as_given LogisticRuns.rows_as_given inv1
           (LogisticRuns.solver 1%nat 0) [[1]] [1] [0] false 0 1 [] tt [1]
           eq_refl eq_refl (or_introl eq_refl) (Nat.lt_0_succ 0)).
Defined.

(** X20.  With [max_iter = 0], [fit] returns: [xi] is bound before the loop,
    and the object gets the starting [xi], [a = init_a] and [b = init_b];
    [S] and [weight] are not written. *)
Theorem logistic_fit_zero_passes_returns
    (Base Labels : Type)
    (_onehot_to_label : Base -> Labels -> Base * outcome vector)
    (make_design_mat : Base -> matrix -> matrix)
    (inv : matrix -> outcome matrix)
    (self : Logistic.VariationalLogisticRegression Base) (X : matrix)
    (y : Labels) (init_xi : option vector) (optimize_param : bool)
    (init_a init_b : R) (randn : vector) (base' : Base) (y' : vector) :
  Logistic.max_iter self = O ->
  _onehot_to_label (Logistic.base self) y = (base', Ok y') ->
  (forall v, init_xi = Some v -> length v = shape0 X) ->
  Logistic.fit _onehot_to_label make_design_mat inv self X y init_xi
               optimize_param init_a init_b randn
  = (Logistic.set_xi
       (Logistic.set_a_b (Logistic.set_base self base') init_a init_b)
       (match init_xi with None => randn | Some v => v end),
     Ok tt).
Proof.
  intros Hn Hy Hv. unfold Logistic.fit, Logistic.prepare. rewrite Hy.
  destruct init_xi as [v |].
  - specialize (Hv v eq_refl). apply Nat.eqb_eq in Hv. rewrite Hv.
    cbn [negb Logistic.max_iter Logistic.set_a_b Logistic.set_base].
    rewrite Hn. reflexivity.
  - cbn [Logistic.max_iter Logistic.set_a_b Logistic.set_base].
    rewrite Hn. reflexivity.
Qed.

(** X20 on one sample. *)
Lemma logistic_fit_zero_passes_one_sample :
  Logistic.fit LogisticRuns.labels_as_given LogisticRuns.rows_as_given inv1
               (LogisticRuns.solver 0%nat 0) [[1]] [1] (Some [1]) false
               0 1 []
  = (Logistic.mkSolver 1 (Some [1]) (Some 0) (Some 1) None None 0%nat 0 tt,
     Ok tt).
Proof.
  refine (logistic_fit_zero_passes_returns unit vector
            LogisticRuns.labels_as_given LogisticRuns.rows_as_given inv1
            (LogisticRuns.solver 0%nat 0) [[1]] [1] (Some [1]) false 0 1 []
            tt [1] eq_refl eq_refl _).
  intros v Hv. injection Hv as <-. reflexivity.
Defined.

(** X21.  On an [xi] without a zero entry, [_lamda] returns, entry by
    entry, the quotient [(sigmoid(xi) - 0.5)/(2*xi)] of the source, and no
    entry of the result is negative: the numerator has the sign of
    [xi]. *)
Theorem lamda_bounds_are_not_negative (xi0 : vector) :
  Forall (fun x => x <> 0) xi0 ->
  Logistic._lamda xi0
  = Ok (map (fun x => (Logistic.sigmoid x - 0.5) / (2 * x)) xi0)
  /\ Forall (fun v => 0 <= v)
            (map (fun x => (Logistic.sigmoid x - 0.5) / (2 * x)) xi0).
Proof.
  intros H. split.
  - unfold Logistic._lamda. apply mapM_total.
    induction H as [| x xs Hx _ IH]; constructor;
      [exact (LogisticFacts.lamda_at_nonzero x Hx) | exact IH].
  - induction H as [| x xs Hx _ IH]; cbn [map]; constructor;
      [apply Rlt_le, LogisticMore.lamda_value_positive; exact Hx | exact IH].
Qed.

(** X21 at [xi = [1., -2.]]. *)
Lemma lamda_bounds_at_two_entries :
  Forall (fun x => x <> 0) [1; -2]
  /\ exists l,
       Logistic._lamda [1; -2] = Ok l /\ Forall (fun v => 0 <= v) l.
Proof.
  assert (H : Forall (fun x => x <> 0) [1; -2])
    by (repeat constructor; lra).
  split; [exact H |].
  eexists. exact (lamda_bounds_are_not_negative [1; -2] H).
Defined.

Module PredictFacts.
Import Logistic.

(** The hard label of a logit against the probability of the logit scaled
    by a positive factor. *)
Lemma label_agrees (k t : R) :
  0 < k ->
  ((if Rle_dec 0 t then 1 else 0) = 1 /\ 1 / 2 <= sigmoid (k * t))
  \/ ((if Rle_dec 0 t then 1 else 0) = 0 /\ sigmoid (k * t) < 1 / 2).
Proof.
  intros Hk. destruct (Rle_dec 0 t) as [Ht | Ht].
  - left. split; [reflexivity |].
    destruct (Req_dec_T t 0) as [-> | Hne].
    + rewrite Rmult_0_r, LogisticFacts.sigmoid_zero. lra.
    + apply Rlt_le, LogisticMore.sigmoid_above_half. nra.
  - right. split; [reflexivity |].
    apply LogisticMore.sigmoid_below_half. nra.
Qed.

Lemma labels_agree (logit : vector) :
  forall ks : vector,
    length ks = length logit ->
    Forall (fun k => 0 < k) ks ->
    Forall2 (fun yi pi => (yi = 1 /\ 1 / 2 <= pi) \/ (yi = 0 /\ pi < 1 / 2))
      (map (fun t => if Rle_dec 0 t then 1 else 0) logit)
      (zipWith (fun k t => sigmoid (k * t)) ks logit).
Proof.
  induction logit as [| t logit IH]; intros [| k ks] Hl Hk;
    try discriminate; cbn [map zipWith]; constructor.
  - inversion Hk; subst. apply label_agrees. assumption.
  - inversion Hk; subst. apply IH; [injection Hl as Hl; exact Hl | assumption].
Qed.

End PredictFacts.

(** X22.  When [predict] returns labels, they are what [_inverse_transform]
    makes of a vector with one entry per row of [X], and, if [kappa] gives
    one positive factor per row, each entry is 1 where the probability
    that [predict] returns with [return_prob] is at least 1/2 and 0 where
    it is below. *)
Theorem predict_labels_agree_with_probabilities
    (Base Out : Type) (make_design_mat : Base -> matrix -> matrix)
    (_inverse_transform : Base -> vector -> outcome Out)
    (kappa : vector -> vector)
    (self : Logistic.VariationalLogisticRegression Base) (w : vector)
    (S0 X : matrix) (out : Out) :
  length (kappa (map (fun phi => quad phi S0)
                     (make_design_mat (Logistic.base self) X)))
  = length (make_design_mat (Logistic.base self) X) ->
  Forall (fun k => 0 < k)
         (kappa (map (fun phi => quad phi S0)
                     (make_design_mat (Logistic.base self) X))) ->
  Logistic.predict make_design_mat _inverse_transform kappa self w S0 X false
  = Ok (Logistic.Labelled out) ->
  exists y p,
    _inverse_transform (Logistic.base self) y = Ok out
    /\ Logistic.predict make_design_mat _inverse_transform kappa self w S0 X
                        true = Ok (Logistic.Prob p)
    /\ length y = shape0 X
    /\ length p = shape0 X
    /\ Forall2 (fun yi pi =>
                  (yi = 1 /\ 1 / 2 <= pi) \/ (yi = 0 /\ pi < 1 / 2)) y p.
Proof.
  intros Hlen Hpos H. unfold Logistic.predict in *.
  apply bind_ok in H. destruct H as (y & Hy & H).
  apply bind_ok in H. destruct H as (out' & Ho & H).
  injection H as ->.
  unfold Logistic.hard_labels in Hy.
  destruct (Nat.eqb (length (mat_vec (make_design_mat (Logistic.base self) X)
                                     w)) (shape0 X)) eqn:En;
    [| discriminate].
  apply Nat.eqb_eq in En. injection Hy as <-.
  assert (Hlogit : length (mat_vec (make_design_mat (Logistic.base self) X) w)
                   = length (make_design_mat (Logistic.base self) X))
    by (unfold mat_vec; apply length_map).
  eexists _, _. split; [exact Ho |]. split; [reflexivity |].
  split; [rewrite length_map; exact En |].
  split.
  - rewrite length_zipWith, Hlen, Hlogit, Nat.min_id, <- Hlogit. exact En.
  - apply PredictFacts.labels_agree; [rewrite Hlen, Hlogit; reflexivity |].
    exact Hpos.
Qed.

(** X22 on one sample with logit 2 and the factor 1. *)
Lemma predict_labels_agree_one_sample :
  exists out y p,
    Logistic.predict LogisticRuns.rows_as_given (fun _ y => Ok y)
                     (map (fun _ => 1)) (LogisticRuns.solver 1%nat 0) [2]
                     [[1]] [[1]] false = Ok (Logistic.Labelled out)
    /\ out = y
    /\ Logistic.predict LogisticRuns.rows_as_given (fun _ y => Ok y)
                        (map (fun _ => 1)) (LogisticRuns.solver 1%nat 0) [2]
                        [[1]] [[1]] true = Ok (Logistic.Prob p)
    /\ length y = 1%nat.
Proof.
  assert (H : Logistic.predict LogisticRuns.rows_as_given
                (fun (_ : unit) (y : vector) => Ok y) (map (fun _ => 1))
                (LogisticRuns.solver 1%nat 0) [2] [[1]] [[1]] false
              = Ok (Logistic.Labelled
                      (map (fun t => if Rle_dec 0 t then 1 else 0)
                           (mat_vec [[1]] [2])))) by reflexivity.
  destruct (predict_labels_agree_with_probabilities unit vector
              LogisticRuns.rows_as_given
              (fun (_ : unit) (y : vector) => Ok y) (map (fun _ => 1))
              (LogisticRuns.solver 1%nat 0) [2] [[1]] [[1]] _ eq_refl
              (Forall_cons 1 Rlt_0_1 (Forall_nil _)) H)
    as (y & p & Hy & Hp & Hly & _ & _).
  injection Hy as Hy.
  eexists _, y, p. split; [exact H |].
  split; [symmetry; exact Hy |]. split; [exact Hp | exact Hly].
Defined.

(** ** VariationalGaussianMixture: how [fit] fails *)

Module MixtureFailures.
Import Mixture.

Ltac split_raise H :=
  repeat (apply bind_raise in H; destruct H as [H | (? & _ & H)]).

Section Fit.

Variable inv : matrix -> outcome matrix.
Variable det : matrix -> R.
Variable digamma : R -> R.
Variable _log : R -> R.
Variable X : matrix.
Variables (reduce_components : bool) (threshold : R).

Abbreviation arithmetic e :=
  (e = ZeroDivisionError \/ exists A, inv A = Raise e).

Lemma m_step_failure (self : VariationalGaussianMixture) (E_z : matrix)
    (e : exn) :
  m self <> None -> W_inv self <> None ->
  m_step inv X self E_z = Raise e -> arithmetic e.
Proof.
  unfold m_step. intros Hm HW H. split_raise H.
  - apply mapM_raise in H. destruct H as ([w n] & _ & H).
    left. exact (MixtureFacts.vdiv_raise _ _ _ H).
  - apply mapM_raise in H. destruct H as ([w [c n]] & _ & H).
    left. exact (MixtureFacts.mdiv_raise _ _ _ H).
  - unfold read_m in H. destruct (m self); [discriminate | contradiction].
  - apply mapM_raise in H. destruct H as ([n [c b]] & _ & H).
    left. exact (MixtureFacts.vdiv_raise _ _ _ H).
  - unfold read_W_inv in H.
    destruct (W_inv self); [discriminate | contradiction].
  - apply mapM_raise in H. destruct H as ([n [Sk t]] & _ & H).
    apply bind_raise in H. destruct H as [H | (c & _ & H)].
    + left. exact (div_raise _ _ _ H).
    + right. eexists. exact H.
  - discriminate.
Qed.

Lemma round_failure (self self' : VariationalGaussianMixture) (E_z : matrix)
    (e : exn) :
  m self <> None -> W_inv self <> None ->
  round inv det digamma _log X reduce_components threshold self E_z
  = (self', Raise e) ->
  arithmetic e.
Proof.
  unfold Mixture.round. intros Hm HW H.
  destruct (m_step inv X self E_z) as [[N_k l] | e0] eqn:Em.
  - destruct reduce_components.
    + destruct (expected_pi X self N_k) as [E_pi | e1] eqn:Epi;
        cbn [bind] in H.
      * destruct (prune threshold self E_pi l) as [s1 l1].
        destruct (e_step det digamma _log X l1) as [E1 | e1] eqn:Ee;
          cbn [bind] in H; [discriminate |].
        injection H as _ <-. left. exact (MixtureFacts.e_step_raise _ _ _ _ _ _ Ee).
      * injection H as _ <-. left.
        exact (MixtureFacts.expected_pi_raise _ _ _ _ Epi).
    + destruct (e_step det digamma _log X l) as [E1 | e1] eqn:Ee;
        cbn [bind] in H; [discriminate |].
      injection H as _ <-. left. exact (MixtureFacts.e_step_raise _ _ _ _ _ _ Ee).
  - injection H as _ <-. exact (m_step_failure _ _ _ Hm HW Em).
Qed.

Lemma round_keeps_priors (self self' : VariationalGaussianMixture)
    (E_z E_z' : matrix) (l' : Local.t) :
  round inv det digamma _log X reduce_components threshold self E_z
  = (self', Ok (E_z', l')) ->
  m self' = m self /\ W_inv self' = W_inv self.
Proof.
  intros H. apply MixtureFacts.round_inv in H.
  destruct H as (N_k & l & _ & H & _).
  destruct reduce_components.
  - destruct H as (E_pi & _ & H). unfold prune in H.
    injection H as <- _. split; reflexivity.
  - destruct H as [-> _]. split; reflexivity.
Qed.

Lemma loop_failure (n : nat) :
  forall self E_z l self' e,
    m self <> None -> W_inv self <> None ->
    loop inv det digamma _log X reduce_components threshold n self E_z l
    = (self', Raise e) ->
    arithmetic e.
Proof.
  induction n as [| n IH]; intros self E_z l self' e Hm HW H.
  - cbn in H. discriminate.
  - rewrite MixtureFacts.loop_S in H.
    destruct (round inv det digamma _log X reduce_components threshold self
                    E_z) as [s [[E1 l1] | e1]] eqn:Er.
    + destruct (round_keeps_priors _ _ _ _ _ Er) as [Em EW].
      apply (IH _ _ _ _ _) in H; [exact H | congruence | congruence].
    + injection H as _ <-. exact (round_failure _ _ _ _ Hm HW Er).
Qed.

Lemma prepare_outcome (self self1 : VariationalGaussianMixture)
    (initial_responsibility : option matrix) (rand : matrix)
    (o : outcome matrix) :
  prepare inv self X initial_responsibility rand = (self1, o) ->
  match o with
  | Ok _ => m self1 <> None /\ W_inv self1 <> None
  | Raise e => e = m_mismatch \/ e = W_mismatch \/ arithmetic e
  end.
Proof.
  unfold prepare. intros H.
  destruct (match initial_responsibility with
            | Some E => Ok E
            | None => normalize_rows (map (map (fun u => u + 0.10)) rand)
            end) as [E_z | e0] eqn:E0.
  2:{ injection H as _ <-. right. right. left.
      destruct initial_responsibility; [discriminate |].
      apply mapM_raise in E0. destruct E0 as (row & _ & E0).
      exact (MixtureFacts.vdiv_raise _ _ _ E0). }
  destruct (m self) as [m0 |] eqn:Em.
  - destruct (Nat.eqb (length m0) (shape1 X)).
    + destruct (W self) as [W0 |].
      * destruct (Nat.eqb (length W0) (shape1 X)).
        -- destruct (inv W0) as [Wi | e1] eqn:Ei; injection H as <- <-.
           ++ cbn. rewrite Em. split; discriminate.
           ++ right. right. right. eexists. exact Ei.
        -- injection H as _ <-. right. left. reflexivity.
      * injection H as <- <-. cbn. rewrite Em. split; discriminate.
    + injection H as _ <-. left. reflexivity.
  - cbn [W set_m] in H. destruct (W self) as [W0 |].
    + destruct (Nat.eqb (length W0) (shape1 X)).
      * destruct (inv W0) as [Wi | e1] eqn:Ei; injection H as <- <-.
        -- cbn. split; discriminate.
        -- right. right. right. eexists. exact Ei.
      * injection H as _ <-. right. left. reflexivity.
    + injection H as <- <-. cbn. split; discriminate.
Qed.

End Fit.

End MixtureFailures.

(** X23.  [VariationalGaussianMixture.fit] fails in five ways only: one of
    its two dimension errors, a division by zero, an error of
    [np.linalg.inv], or, when [n_iter] is 0, the unbound local [alpha] at
    the assignments that end it. *)
Theorem gmm_fit_failures
    (inv : matrix -> outcome matrix) (det : matrix -> R)
    (digamma _log : R -> R) (self obj : Mixture.VariationalGaussianMixture)
    (X : matrix) (initial_responsibility : option matrix)
    (reduce_components : bool) (threshold : R) (rand : matrix) (e : exn) :
  Mixture.fit inv det digamma _log self X initial_responsibility
              reduce_components threshold rand = Mixture.Failed obj e ->
  e = m_mismatch
  \/ e = W_mismatch
  \/ e = ZeroDivisionError
  \/ (exists A, inv A = Raise e)
  \/ (e = UnboundLocalError "alpha" /\ Mixture.n_iter self = O).
Proof.
  unfold Mixture.fit. intros H.
  destruct (Mixture.prepare inv self X initial_responsibility rand)
    as [self1 [E_z | e1]] eqn:Hp.
  - pose proof Hp as Ho. apply MixtureFailures.prepare_outcome in Ho.
    destruct Ho as [Hm HW].
    pose proof Hp as Hk. apply MixtureFacts.prepare_keeps in Hk.
    destruct Hk as (_ & _ & Hn).
    destruct (Mixture.loop inv det digamma _log X reduce_components threshold
                (Mixture.n_iter self1) self1 E_z None)
      as [self2 [[E1 l1] | e2]] eqn:El.
    + unfold Mixture.store in H. destruct l1 as [l1 |]; [discriminate |].
      injection H as _ <-.
      apply MixtureFacts.loop_unbound in El.
      right. right. right. right. split; [reflexivity | congruence].
    + injection H as _ <-.
      apply MixtureFailures.loop_failure in El; [| exact Hm | exact HW].
      destruct El as [-> | HA]; auto.
  - injection H as _ <-.
    apply MixtureFailures.prepare_outcome in Hp.
    destruct Hp as [-> | [-> | [-> | HA]]]; auto.
Qed.

(** X23 on one sample and [n_iter = 0]. *)
Lemma gmm_fit_failure_without_passes :
  exists obj,
    Mixture.fit inv1 det1 psi_leading natural_log (MixtureRuns.one_point 0)
                [[0]] (Some [[1]]) false 0 []
    = Mixture.Failed obj (UnboundLocalError "alpha")
    /\ Mixture.n_iter (MixtureRuns.one_point 0) = O.
Proof.
  eexists.
  assert (H : Mixture.fit inv1 det1 psi_leading natural_log
                (MixtureRuns.one_point 0) [[0]] (Some [[1]]) false 0 []
              = Mixture.Failed
                  (Mixture.set_r (MixtureRuns.one_point 0) [[1]])
                  (UnboundLocalError "alpha")).
  { unfold Mixture.fit, Mixture.prepare.
    cbn [Mixture.m Mixture.W length shape1 Nat.eqb].
    unfold inv1. destruct (Req_dec_T 1 0) as [E | _]; [lra |].
    reflexivity. }
  split; [exact H |].
  destruct (gmm_fit_failures inv1 det1 psi_leading natural_log
              (MixtureRuns.one_point 0) _ [[0]] (Some [[1]]) false 0 []
              _ H) as [F | [F | [F | [F | [_ F]]]]];
    [discriminate F | discriminate F | discriminate F | | exact F].
  destruct F as [A F]. apply inv1_raises in F. discriminate F.
Defined.

(** ** VariationalLogisticRegression: how [fit] fails *)

Module LogisticFailures.
Import Logistic.

Section Fit.

Variables Base Labels : Type.
Variable _onehot_to_label : Base -> Labels -> Base * outcome vector.
Variable make_design_mat : Base -> matrix -> matrix.
Variable inv : matrix -> outcome matrix.

Abbreviation numeric e :=
  (e = ZeroDivisionError \/ e = FloatingPointError
   \/ exists A, inv A = Raise e).

Lemma root_diag_failure (design_mat E : matrix) (e : exn) :
  root_diag design_mat E = Raise e ->
  e = ZeroDivisionError \/ e = FloatingPointError.
Proof.
  unfold root_diag. intros H. apply mapM_raise in H.
  destruct H as (phi & _ & H). exact (DensityMore.power_raise _ _ _ H).
Qed.

Lemma pass_test_failure (xi0 nx : vector) (th : R) (e : exn) :
  (let sq := map (fun d => d ^ 2) (vsub xi0 nx) in
   mean <- div (sum sq) (INR (length sq)) ;;
   rms <- power mean 0.5 ;;
   if Rlt_dec rms th then Ok (true, nx) else Ok (false, nx))
  = Raise e ->
  e = ZeroDivisionError \/ e = FloatingPointError.
Proof.
  cbv zeta. intros H.
  apply bind_raise in H. destruct H as [H | (mean & _ & H)];
    [left; exact (div_raise _ _ _ H) |].
  apply bind_raise in H. destruct H as [H | (rms & _ & H)];
    [exact (DensityMore.power_raise _ _ _ H) |].
  destruct (Rlt_dec rms th); discriminate.
Qed.

Lemma body_failure (design_mat : matrix) (y : vector)
    (optimize_param : bool) (init_a init_b : R)
    (self self' : VariationalLogisticRegression Base) (xi0 : vector)
    (e : exn) :
  body inv design_mat y optimize_param init_a init_b self xi0
  = (self', Raise e) ->
  numeric e.
Proof.
  unfold body. intros H.
  match type of H with
  | context [match ?c with Ok _ => _ | Raise _ => _ end] =>
      destruct c as [S0 | e0] eqn:Ec
  end.
  - destruct optimize_param.
    + unfold _opt_param in H.
      match type of H with
      | context [div ?x ?y] => destruct (div x y) as [q | e1] eqn:Eq
      end.
      * match type of H with
        | context [root_diag ?d ?E] =>
            destruct (root_diag d E) as [nx | e2] eqn:Er
        end; injection H as _ H.
        -- apply pass_test_failure in H. destruct H as [-> | ->]; auto.
        -- subst e2. apply root_diag_failure in Er.
           destruct Er as [-> | ->]; auto.
      * injection H as _ <-. left. exact (div_raise _ _ _ Eq).
    + match type of H with
      | context [root_diag ?d ?E] =>
          destruct (root_diag d E) as [nx | e2] eqn:Er
      end; injection H as _ H.
      * apply pass_test_failure in H. destruct H as [-> | ->]; auto.
      * subst e2. apply root_diag_failure in Er.
        destruct Er as [-> | ->]; auto.
  - injection H as _ <-.
    apply bind_raise in Ec. destruct Ec as [Ec | (lam & _ & Ec)].
    + left. apply mapM_raise in Ec. destruct Ec as (x & _ & Ec).
      exact (div_raise _ _ _ Ec).
    + right. right. eexists. exact Ec.
Qed.

Lemma loop_failures (design_mat : matrix) (y : vector)
    (optimize_param : bool) (init_a init_b : R) (n : nat) :
  forall (self self' : VariationalLogisticRegression Base) (xi0 : vector)
         (e : exn),
    loop inv design_mat y optimize_param init_a init_b n self xi0
    = (self', Raise e) ->
    numeric e.
Proof.
  induction n as [| n IH]; intros self self' xi0 e H; cbn [loop] in H;
    [discriminate |].
  destruct (body inv design_mat y optimize_param init_a init_b self xi0)
    as [self1 [[brk nx] | e1]] eqn:Eb.
  - destruct brk; [discriminate | exact (IH _ _ _ _ H)].
  - injection H as _ <-. exact (body_failure _ _ _ _ _ _ _ _ _ Eb).
Qed.

End Fit.

End LogisticFailures.

(** X24.  [VariationalLogisticRegression.fit] fails in five ways only: the
    error of the label conversion, its own dimension error on [init_xi], a
    division by zero, a power without a value, or an error of
    [np.linalg.inv]. *)
Theorem logistic_fit_failures
    (Base Labels : Type)
    (_onehot_to_label : Base -> Labels -> Base * outcome vector)
    (make_design_mat : Base -> matrix -> matrix)
    (inv : matrix -> outcome matrix)
    (self st : Logistic.VariationalLogisticRegression Base) (X : matrix)
    (y : Labels) (init_xi : option vector) (optimize_param : bool)
    (init_a init_b : R) (randn : vector) (e : exn) :
  Logistic.fit _onehot_to_label make_design_mat inv self X y init_xi
               optimize_param init_a init_b randn = (st, Raise e) ->
  snd (_onehot_to_label (Logistic.base self) y) = Raise e
  \/ e = init_xi_mismatch
  \/ e = ZeroDivisionError
  \/ e = FloatingPointError
  \/ exists A, inv A = Raise e.
Proof.
  unfold Logistic.fit. intros H.
  destruct (Logistic.prepare _onehot_to_label self X y init_xi init_a init_b
              randn) as [self1 [[y' xi0] | e1]] eqn:Hp.
  - match type of H with
    | context [Logistic.loop ?i ?d ?l ?o ?ia ?ib ?n ?s ?x] =>
        destruct (Logistic.loop i d l o ia ib n s x)
          as [self2 [[ex xi'] | e2]] eqn:Hl
    end; [discriminate |].
    injection H as _ <-.
    apply LogisticFailures.loop_failures in Hl.
    destruct Hl as [-> | [-> | HA]]; auto.
  - injection H as _ <-. unfold Logistic.prepare in Hp.
    destruct (_onehot_to_label (Logistic.base self) y) as [base' [yl | e0]].
    + destruct init_xi as [v |]; [| discriminate].
      destruct (negb (Nat.eqb (length v) (shape0 X))); [| discriminate].
      injection Hp as _ <-. right. left. reflexivity.
    + injection Hp as _ <-. left. reflexivity.
Qed.

(** X24 on one sample with [init_xi = [0.]]. *)
Lemma logistic_fit_failure_at_zero :
  exists st,
    Logistic.fit LogisticRuns.labels_as_given LogisticRuns.rows_as_given
                 inv1 (LogisticRuns.solver 1%nat 0) [[1]] [1] (Some [0])
                 false 0 1 [] = (st, Raise ZeroDivisionError)
    /\ (snd (LogisticRuns.labels_as_given tt [1]) = Raise ZeroDivisionError
        \/ ZeroDivisionError = init_xi_mismatch
        \/ ZeroDivisionError = ZeroDivisionError
        \/ ZeroDivisionError = FloatingPointError
        \/ exists A, inv1 A = Raise ZeroDivisionError).
Proof.
  assert (H : Logistic.fit LogisticRuns.labels_as_given
                LogisticRuns.rows_as_given inv1
                (LogisticRuns.solver 1%nat 0) [[1]] [1] (Some [0])
                false 0 1 []
              = (Logistic.set_a_b (LogisticRuns.solver 1%nat 0) 0 1,
                 Raise ZeroDivisionError)).
  { unfold Logistic.fit, Logistic.prepare.
    cbn [Logistic.base length shape0 Nat.eqb negb Logistic.set_base
         Logistic.set_a_b Logistic.max_iter Logistic.loop].
    unfold Logistic.body.
    rewrite (LogisticMore._lamda_zero [0] (or_introl eq_refl)).
    reflexivity. }
  eexists. split; [exact H |].
  exact (logistic_fit_failures unit vector LogisticRuns.labels_as_given
           LogisticRuns.rows_as_given inv1 (LogisticRuns.solver 1%nat 0) _
           [[1]] [1] (Some [0]) false 0 1 [] ZeroDivisionError H).
Defined.
